(** * Ankdown: a shallow embedding of the card-compilation pipeline

    The development follows [ankdown/ankdown.py]: the content hasher
    ([simple_hash]), the [Card] record and its methods, the deck collection,
    the field compiler ([field_to_html], [compile_field]), the card parser
    ([produce_cards]) and the deck assembler ([cards_to_apkg]).

    Conventions.
    - A Python [str] is the [string] of its UTF-8 encoding, so that
      [text.encode("utf-8")] is the identity; every delimiter the program
      looks for is ASCII, hence searching bytes or code points agree.
    - [os.path] is [posixpath] and [os.sep] is ["/"].
    - A generator is the list of the values it yields, in order, together
      with the exception that ended it, if any.
    - The markdown renderer (misaka), [urllib.parse.urlparse], the HTTP
      client (requests) and the file system are not part of the program:
      they are variables of the sections that use them. *)

From Stdlib Require Import Bool Arith NArith List Ascii String Lia.
From Stdlib Require Import Numbers.DecimalString Numbers.DecimalNat.
Import ListNotations.

Open Scope list_scope.
Open Scope string_scope.

(* ================================================================== *)
(** * Python string primitives *)
(* ================================================================== *)

Module PyStr.

Definition is_empty (s : string) : bool :=
  match s with EmptyString => true | String _ _ => false end.

Definition rev (s : string) : string :=
  string_of_list_ascii (List.rev (list_ascii_of_string s)).

(** [drop n s] is [s[n:]]. *)
Fixpoint drop (n : nat) (s : string) : string :=
  match n, s with
  | S k, String _ r => drop k r
  | _, _ => s
  end.

(** [s.startswith(p)] *)
Definition startswith (p s : string) : bool := prefix p s.

(** [s.endswith(p)] *)
Definition endswith (p s : string) : bool := prefix (rev p) (rev s).

(** UTF-8 encoding of a code point below 0x10000. *)
Definition utf8 (cp : N) : string :=
  let b (n : N) := String (ascii_of_N n) EmptyString in
  if (cp <? 128)%N then b cp
  else if (cp <? 2048)%N then
    b (192 + cp / 64)%N ++ b (128 + cp mod 64)%N
  else
    b (224 + cp / 4096)%N ++ b (128 + (cp / 64) mod 64)%N
      ++ b (128 + cp mod 64)%N.

(** The code points [c] with [c.isspace()], the characters removed by
    [str.strip()] without argument. *)
Definition whitespace_code_points : list N :=
  [ 0x09; 0x0a; 0x0b; 0x0c; 0x0d; 0x1c; 0x1d; 0x1e; 0x1f; 0x20;
    0x85; 0xa0; 0x1680;
    0x2000; 0x2001; 0x2002; 0x2003; 0x2004; 0x2005; 0x2006; 0x2007;
    0x2008; 0x2009; 0x200a; 0x2028; 0x2029; 0x202f; 0x205f; 0x3000 ]%N.

Definition whitespace : list string := map utf8 whitespace_code_points.

(** Removes leading occurrences of the strings of [ws]; every step removes
    at least one byte, so [length s] steps are enough. *)
Fixpoint lstrip_any (ws : list string) (fuel : nat) (s : string) : string :=
  match fuel with
  | O => s
  | S k =>
      match find (fun w => prefix w s) ws with
      | Some w => lstrip_any ws k (drop (String.length w) s)
      | None => s
      end
  end.

Definition lstrip (s : string) : string :=
  lstrip_any whitespace (String.length s) s.

Definition rstrip (s : string) : string :=
  rev (lstrip_any (map rev whitespace) (String.length s) (rev s)).

(** [s.strip()] *)
Definition strip (s : string) : string := rstrip (lstrip s).

(** [s.rstrip(c)] for one character [c]. *)
Fixpoint rstrip_char (c : ascii) (s : string) : string :=
  match s with
  | EmptyString => EmptyString
  | String d r =>
      match rstrip_char c r with
      | EmptyString =>
          if Ascii.eqb d c then EmptyString else String d EmptyString
      | r' => String d r'
      end
  end.

(** [s.split(sep)] for a non-empty [sep], as the first piece and the
    others.  [skip] counts the characters of a separator just matched that
    are still to be passed over. *)
Fixpoint split_go (sep : string) (skip : nat) (s : string)
  : string * list string :=
  match s with
  | EmptyString => (EmptyString, [])
  | String c r =>
      match skip with
      | S k => split_go sep k r
      | O =>
          if prefix sep s then
            let '(h, t) := split_go sep (String.length sep - 1) r in
            (EmptyString, h :: t)
          else
            let '(h, t) := split_go sep 0 r in (String c h, t)
      end
  end.

Definition split (sep s : string) : list string :=
  let '(h, t) := split_go sep 0 s in h :: t.

(** [sep.join(l)] *)
Definition join (sep : string) (l : list string) : string := concat sep l.

(** [s.replace(old, new)] for a non-empty [old]. *)
Fixpoint replace_go (old new : string) (skip : nat) (s : string) : string :=
  match s with
  | EmptyString => EmptyString
  | String c r =>
      match skip with
      | S k => replace_go old new k r
      | O =>
          if prefix old s then
            new ++ replace_go old new (String.length old - 1) r
          else String c (replace_go old new 0 r)
      end
  end.

Definition replace (old new s : string) : string := replace_go old new 0 s.

(** [str(n)] and ["{}".format(n)] for a non-negative integer. *)
Definition of_nat (n : nat) : string := NilEmpty.string_of_uint (Nat.to_uint n).

(** [sub in s] *)
Fixpoint contains (sub s : string) : bool :=
  prefix sub s ||
  match s with
  | EmptyString => false
  | String _ r => contains sub r
  end.

End PyStr.

(* ================================================================== *)
(** * posixpath *)
(* ================================================================== *)

Module PosixPath.

Definition sep : string := "/".

(** [(p[:i], p[i:])] for [i = p.rfind("/") + 1]. *)
Fixpoint rsplit (p : string) : string * string :=
  match p with
  | EmptyString => (EmptyString, EmptyString)
  | String c r =>
      let '(h, t) := rsplit r in
      if negb (PyStr.is_empty h) then (String c h, t)
      else if Ascii.eqb c "/" then ("/", t)
      else (EmptyString, String c t)
  end.

Definition basename (p : string) : string := snd (rsplit p).

Fixpoint all_slashes (s : string) : bool :=
  match s with
  | EmptyString => true
  | String c r => Ascii.eqb c "/" && all_slashes r
  end.

Definition dirname (p : string) : string :=
  let head := fst (rsplit p) in
  if negb (PyStr.is_empty head) && negb (all_slashes head)
  then PyStr.rstrip_char "/" head
  else head.

Definition isabs (p : string) : bool := PyStr.startswith "/" p.

(** [os.path.join(a, b)] *)
Definition join (a b : string) : string :=
  if PyStr.startswith "/" b then b
  else if PyStr.is_empty a || PyStr.endswith "/" a then a ++ b
  else a ++ "/" ++ b.

(** The loop of [normpath] over the components, [new_comps] kept in
    reverse. *)
Fixpoint norm_comps (initial_slashes : nat) (rev_new : list string)
    (comps : list string) : list string :=
  match comps with
  | [] => List.rev rev_new
  | comp :: rest =>
      if (comp =? "") || (comp =? ".") then
        norm_comps initial_slashes rev_new rest
      else if negb (comp =? "..")
              || (Nat.eqb initial_slashes 0
                  && match rev_new with [] => true | _ => false end)
              || match rev_new with l :: _ => l =? ".." | [] => false end
      then norm_comps initial_slashes (comp :: rev_new) rest
      else norm_comps initial_slashes (List.tl rev_new) rest
  end.

Fixpoint slashes (n : nat) : string :=
  match n with O => EmptyString | S k => String "/" (slashes k) end.

Definition normpath (path : string) : string :=
  if PyStr.is_empty path then "."
  else
    let initial_slashes :=
      if PyStr.startswith "/" path then
        if PyStr.startswith "//" path && negb (PyStr.startswith "///" path)
        then 2 else 1
      else 0 in
    let comps := norm_comps initial_slashes [] (PyStr.split "/" path) in
    let path' := slashes initial_slashes ++ PyStr.join "/" comps in
    if PyStr.is_empty path' then "." else path'.

End PosixPath.

(* ================================================================== *)
(** * hashlib.md5 *)
(* ================================================================== *)

Module MD5.

Local Open Scope N_scope.

Definition w32 : N := 0x100000000.

Definition not32 (x : N) : N := N.lxor x 0xFFFFFFFF.

Definition rotl32 (x : N) (c : N) : N :=
  (N.lor (N.shiftl x c) (N.shiftr x (32 - c))) mod w32.

Definition shifts : list N :=
  [ 7; 12; 17; 22; 7; 12; 17; 22; 7; 12; 17; 22; 7; 12; 17; 22;
    5; 9; 14; 20; 5; 9; 14; 20; 5; 9; 14; 20; 5; 9; 14; 20;
    4; 11; 16; 23; 4; 11; 16; 23; 4; 11; 16; 23; 4; 11; 16; 23;
    6; 10; 15; 21; 6; 10; 15; 21; 6; 10; 15; 21; 6; 10; 15; 21 ].

(** [floor(2^32 * abs(sin(i + 1)))] for [i = 0 .. 63]. *)
Definition K : list N :=
  [ 0xd76aa478; 0xe8c7b756; 0x242070db; 0xc1bdceee;
    0xf57c0faf; 0x4787c62a; 0xa8304613; 0xfd469501;
    0x698098d8; 0x8b44f7af; 0xffff5bb1; 0x895cd7be;
    0x6b901122; 0xfd987193; 0xa679438e; 0x49b40821;
    0xf61e2562; 0xc040b340; 0x265e5a51; 0xe9b6c7aa;
    0xd62f105d; 0x02441453; 0xd8a1e681; 0xe7d3fbc8;
    0x21e1cde6; 0xc33707d6; 0xf4d50d87; 0x455a14ed;
    0xa9e3e905; 0xfcefa3f8; 0x676f02d9; 0x8d2a4c8a;
    0xfffa3942; 0x8771f681; 0x6d9d6122; 0xfde5380c;
    0xa4beea44; 0x4bdecfa9; 0xf6bb4b60; 0xbebfbc70;
    0x289b7ec6; 0xeaa127fa; 0xd4ef3085; 0x04881d05;
    0xd9d4d039; 0xe6db99e5; 0x1fa27cf8; 0xc4ac5665;
    0xf4292244; 0x432aff97; 0xab9423a7; 0xfc93a039;
    0x655b59c3; 0x8f0ccc92; 0xffeff47d; 0x85845dd1;
    0x6fa87e4f; 0xfe2ce6e0; 0xa3014314; 0x4e0811a1;
    0xf7537e82; 0xbd3af235; 0x2ad7d2bb; 0xeb86d391 ].

Definition bytes_of_string (s : string) : list N :=
  map N_of_ascii (list_ascii_of_string s).

(** The [n] low bytes of [x], least significant first. *)
Fixpoint le_bytes (n : nat) (x : N) : list N :=
  match n with
  | O => []
  | S k => (x mod 256) :: le_bytes k (x / 256)
  end.

Definition of_le_bytes (l : list N) : N :=
  fold_right (fun b acc => b + 256 * acc) 0 l.

Definition pad (msg : list N) : list N :=
  let len := N.of_nat (List.length msg) in
  let zeros := N.to_nat ((119 - len mod 64) mod 64) in
  (msg ++ [0x80] ++ repeat 0 zeros
     ++ le_bytes 8 ((8 * len) mod 0x10000000000000000))%list.

Fixpoint chunks (size fuel : nat) (l : list N) : list (list N) :=
  match fuel with
  | O => []
  | S k =>
      match l with
      | [] => []
      | _ => firstn size l :: chunks size k (skipn size l)
      end
  end.

Definition words (chunk : list N) : list N :=
  map of_le_bytes (chunks 4 16 chunk).

Definition state : Type := N * N * N * N.

Definition step (M : list N) (st : state) (i : nat) : state :=
  let '(A, B, C, D) := st in
  let '(F, g) :=
    if (i <? 16)%nat then
      (N.lor (N.land B C) (N.land (not32 B) D), i)
    else if (i <? 32)%nat then
      (N.lor (N.land D B) (N.land (not32 D) C), ((5 * i + 1) mod 16)%nat)
    else if (i <? 48)%nat then
      (N.lxor B (N.lxor C D), ((3 * i + 5) mod 16)%nat)
    else
      (N.lxor C (N.lor B (not32 D)), ((7 * i) mod 16)%nat) in
  let F' := (F + A + nth i K 0 + nth g M 0) mod w32 in
  (D, (B + rotl32 F' (nth i shifts 0)) mod w32, B, C).

Definition process (st : state) (chunk : list N) : state :=
  let '(a0, b0, c0, d0) := st in
  let '(A, B, C, D) := fold_left (step (words chunk)) (seq 0 64) st in
  ((a0 + A) mod w32, (b0 + B) mod w32, (c0 + C) mod w32, (d0 + D) mod w32).

Definition init : state := (0x67452301, 0xefcdab89, 0x98badcfe, 0x10325476).

(** The 16 bytes of [hashlib.md5(msg).digest()]. *)
Definition digest (msg : list N) : list N :=
  let p := pad msg in
  let '(a, b, c, d) := fold_left process (chunks 64 (List.length p) p) init in
  (le_bytes 4 a ++ le_bytes 4 b ++ le_bytes 4 c ++ le_bytes 4 d)%list.

(** [int(hashlib.md5(msg).hexdigest(), 16)]: the digest read as one
    base-256 number, first byte most significant. *)
Definition hexdigest_int (msg : list N) : N :=
  fold_left (fun acc b => 256 * acc + b) (digest msg) 0.

End MD5.

(* ================================================================== *)
(** * The content hasher *)
(* ================================================================== *)

(** [simple_hash]: "MD5 of text, mod 2^63". *)
Definition simple_hash (text : string) : N :=
  (MD5.hexdigest_int (MD5.bytes_of_string text) mod (2 ^ 63))%N.

(* ================================================================== *)
(** * Exceptions and results *)
(* ================================================================== *)

(** A raised exception: its class and its message; [ExnIn] is one raised
    while [context] was being handled (its [__context__]). *)
Inductive exn : Type :=
| Exn (class message : string)
| ExnIn (class message : string) (context : exn).

Definition message_of (e : exn) : string :=
  match e with Exn _ m | ExnIn _ m _ => m end.

Definition context_of (e : exn) : option exn :=
  match e with Exn _ _ => None | ExnIn _ _ c => Some c end.

Inductive result (A : Type) : Type :=
| Ok (a : A)
| Raise (e : exn).

Arguments Ok {A} a.
Arguments Raise {A} e.

Definition bind {A B : Type} (r : result A) (k : A -> result B) : result B :=
  match r with
  | Ok a => k a
  | Raise e => Raise e
  end.

Notation "x <- r ;; k" := (bind r (fun x => k))
  (at level 61, r at next level, right associativity).

Definition dquote : ascii := "034"%char.
Definition newline : ascii := "010"%char.
Definition nl : string := String newline EmptyString.

(* ================================================================== *)
(** * genanki values and the configuration *)
(* ================================================================== *)

Record Template : Type := {
  template_name : string;
  qfmt : string;
  afmt : string
}.

(** [genanki.Model(model_id, name, fields=, templates=, css=)] *)
Record Model : Type := {
  model_id : N;
  model_name : string;
  model_fields : list string;
  model_templates : list Template;
  model_css : string
}.

(** [genanki.Note(model=, fields=, guid=)] *)
Record Note : Type := {
  note_model : Model;
  note_fields : list string;
  note_guid : N
}.

(** [genanki.Deck(deck_id, name)] with the notes added to it, in order. *)
Record Deck : Type := {
  deck_id : N;
  deck_name : string;
  notes : list Note
}.

Definition add_note (d : Deck) (n : Note) : Deck :=
  {| deck_id := deck_id d; deck_name := deck_name d;
     notes := (notes d ++ [n])%list |}.

(** The entries of [CONFIG] that the pipeline reads while it builds cards.
    [card_model_fields] holds the ["name"] of each field. *)
Record Config : Type := {
  dollar : bool;
  highlight : bool;
  updated_only : bool;
  card_model_name : string;
  card_model_css : string;
  card_model_fields : list string;
  card_model_templates : list Template
}.

(* ================================================================== *)
(** * class Card *)
(* ================================================================== *)

Record Card : Type := {
  fields : list string;
  filename : string;
  file_index : nat;
  model : Model
}.

Module CardM.

(** [Card.__init__] *)
Definition init (CONFIG : Config) (filename : string) (file_index : nat)
  : Card :=
  {| fields := [];
     filename := filename;
     file_index := file_index;
     model := {| model_id := simple_hash (card_model_name CONFIG);
                 model_name := card_model_name CONFIG;
                 model_fields := card_model_fields CONFIG;
                 model_templates := card_model_templates CONFIG;
                 model_css := card_model_css CONFIG |} |}.

Definition set_fields (c : Card) (fs : list string) : Card :=
  {| fields := fs; filename := filename c;
     file_index := file_index c; model := model c |}.

Definition deckdir (c : Card) : string := PosixPath.dirname (filename c).

Definition deckname (c : Card) : string := PosixPath.basename (deckdir c).

Definition basename (c : Card) : string := PosixPath.basename (filename c).

(** ["{}/{}{}".format(self.deckname(), self.basename(), self.file_index)] *)
Definition card_id (c : Card) : string :=
  deckname c ++ "/" ++ basename c ++ PyStr.of_nat (file_index c).

Definition add_field (c : Card) (field : string) : Card :=
  set_fields c (fields c ++ [field])%list.

(** [len(self.fields) > 0 and any([s.strip() for s in self.fields])] *)
Definition has_data (c : Card) : bool :=
  (0 <? List.length (fields c))%nat
  && existsb (fun s => negb (PyStr.is_empty (PyStr.strip s))) (fields c).

Definition has_front_and_back (c : Card) : bool :=
  (2 <=? List.length (fields c))%nat.

Definition finalize (c : Card) : Card :=
  if (3 <? List.length (fields c))%nat
  then set_fields c (firstn 3 (fields c))
  else c.

Definition guid (c : Card) : N := simple_hash (card_id c).

Definition to_genanki_note (c : Card) : Note :=
  {| note_model := model c; note_fields := fields c; note_guid := guid c |}.

(** [(abspath, newname)] *)
Definition make_ref_pair (c : Card) (filename : string) : string * string :=
  let newname := PyStr.join "%" (PyStr.split PosixPath.sep filename) in
  let abspath :=
    if PosixPath.isabs filename then filename
    else PosixPath.normpath (PosixPath.join (deckdir c) filename) in
  (abspath, newname).

(** The text up to the first double quote of [s], when there is one: what
    a lazy run of characters other than the double quote, followed by a
    double quote, matches at the start of [s]. *)
Fixpoint until_quote (s : string) : option string :=
  match s with
  | EmptyString => None
  | String d r =>
      if Ascii.eqb d dquote then Some EmptyString
      else option_map (String d) (until_quote r)
  end.

Definition src_open : string := "src=" ++ String dquote EmptyString.
Definition alt_open : string := "alt=" ++ String dquote EmptyString.
Definition close_quote : string := String dquote EmptyString.

(** [re.sub(regex, process_match, current_stage)] for the regex of
    [determine_media_references], which matches [src_open], the shortest
    run of characters other than the double quote (group 1) and a double
    quote: the rewritten text and the [results] that [process_match]
    appended, in order. *)
Fixpoint sub_src (c : Card) (skip : nat) (s : string)
  : string * list (string * string) :=
  match s with
  | EmptyString => (EmptyString, [])
  | String d r =>
      match skip with
      | S k => sub_src c k r
      | O =>
          match
            (if prefix src_open s
             then until_quote (PyStr.drop (String.length src_open) s)
             else None)
          with
          | Some initial_contents =>
              let '(abspath, newpath) := make_ref_pair c initial_contents in
              let '(out, results) :=
                sub_src c (String.length src_open
                           + String.length initial_contents) r in
              (src_open ++ newpath ++ close_quote ++ out,
               (abspath, newpath) :: results)
          | None =>
              let '(out, results) := sub_src c 0 r in (String d out, results)
          end
      end
  end.

(** The [re.sub] that removes the alt attributes: [alt_open], the shortest
    run of characters other than the double quote, and a double quote. *)
Fixpoint sub_alt (skip : nat) (s : string) : string :=
  match s with
  | EmptyString => EmptyString
  | String d r =>
      match skip with
      | S k => sub_alt k r
      | O =>
          match
            (if prefix alt_open s
             then until_quote (PyStr.drop (String.length alt_open) s)
             else None)
          with
          | Some inner =>
              sub_alt (String.length alt_open + String.length inner) r
          | None => String d (sub_alt 0 r)
          end
      end
  end.

(** [determine_media_references]: the pairs it yields, field by field, and
    the fields it leaves in the card once it is exhausted. *)
Fixpoint media_of_fields (c : Card) (fs : list string)
  : list (string * string) * list string :=
  match fs with
  | [] => ([], [])
  | field :: rest =>
      let '(current_stage, results) := sub_src c 0 field in
      let '(more, rest') := media_of_fields c rest in
      ((results ++ more)%list, sub_alt 0 current_stage :: rest')
  end.

Definition determine_media_references (c : Card)
  : list (string * string) * Card :=
  let '(refs, fs) := media_of_fields c (fields c) in (refs, set_fields c fs).

End CardM.

(* ================================================================== *)
(** * The outside world *)
(* ================================================================== *)

(** What [requests.get(url, stream=True)] does: it returns a response, or
    raises an instance of [requests.exceptions.ConnectionError], or raises
    something else. *)
Inductive get_result : Type :=
| Response (status_code : N) (chunks : list string)
| ConnectionError (e : exn)
| OtherError (e : exn).

(** [write_file name chunks] is what creating [name] in the working
    directory and writing [chunks] to it raises, if anything;
    [abspath_dot] is [os.path.abspath('.')]; [copyfile src dst] is what
    [shutil.copyfile] raises, if anything; [walk dirname] lists
    [os.walk(dirname)], each directory with its files; [read_error path]
    is what opening and reading the file at [path] raises, if anything
    (the file is missing, cannot be read or cannot be decoded), and
    [read_lines path] is the lines of the file at [path], each with its
    newline, when the file can be read.  The world answers a question the
    same way each time it is asked, and the contents of the files written
    are not tracked. *)
Record World : Type := {
  requests_get : string -> get_result;
  write_file : string -> list string -> option exn;
  abspath_dot : string;
  copyfile : string -> string -> option exn;
  walk : string -> list (string * list string);
  read_error : string -> option exn;
  read_lines : string -> list string
}.

(* ================================================================== *)
(** * The field compiler *)
(* ================================================================== *)

Module Dollar.

(** [re.split] on the regex made of a negative lookbehind for a backslash
    followed by the literal [sep] (non-empty), as the first piece and the
    others.  [after_backslash] tells whether the previous character is a
    backslash; [skip] counts the characters of a match still to pass. *)
Fixpoint re_split_go (sep : string) (after_backslash : bool) (skip : nat)
    (s : string) : string * list string :=
  match s with
  | EmptyString => (EmptyString, [])
  | String c r =>
      let ab := Ascii.eqb c "\" in
      match skip with
      | S k => re_split_go sep ab k r
      | O =>
          if negb after_backslash && prefix sep s then
            let '(h, t) := re_split_go sep ab (String.length sep - 1) r in
            (EmptyString, h :: t)
          else
            let '(h, t) := re_split_go sep ab 0 r in (String c h, t)
      end
  end.

Definition re_split (sep s : string) : list string :=
  let '(h, t) := re_split_go sep false 0 s in h :: t.

(** [field[1::2] = [op + e + cl for e in field[1::2]]] *)
Fixpoint wrap_odd (op cl : string) (odd : bool) (l : list string)
  : list string :=
  match l with
  | [] => []
  | e :: r => (if odd then op ++ e ++ cl else e) :: wrap_odd op cl (negb odd) r
  end.

(** One turn of the loop of [field_to_html] in dollar mode. *)
Definition pass (sep op cl field : string) : string :=
  PyStr.join EmptyString (wrap_odd op cl false (re_split sep field)).

Definition delimiters : list (string * (string * string)) :=
  [ ("$$", ("\\[", "\\]")); ("$", ("\\(", "\\)")) ].

Definition rewrite (field : string) : string :=
  fold_left (fun f '(sep, (op, cl)) => pass sep op cl f) delimiters field.

End Dollar.

(** The [else] branch of [field_to_html]: every backslash-bracket gets a
    second backslash. *)
Definition escape_brackets (field : string) : string :=
  fold_left
    (fun f bracket => PyStr.replace ("\" ++ bracket) ("\\" ++ bracket) f)
    ["("; ")"; "["; "]"] field.

Module ImageRe.

(** The pattern of [compile_field]: group 1 is an exclamation mark and a
    bracketed text without closing bracket inside; then an opening
    parenthesis; group 2 is [http] and the shortest run of characters other
    than the newline that is followed by a double quote or a closing
    parenthesis; then optionally a title (group 3: a double quote, the
    longest run of characters other than the newline, a double quote); then
    a closing parenthesis. *)

(** [(alt, rest)] when [s] is [alt], a closing bracket and [rest], with no
    closing bracket in [alt]. *)
Fixpoint until_bracket (s : string) : option (string * string) :=
  match s with
  | EmptyString => None
  | String c r =>
      if Ascii.eqb c "]" then Some (EmptyString, r)
      else match until_bracket r with
           | Some (a, rest) => Some (String c a, rest)
           | None => None
           end
  end.

(** For [s] the text from position [pos] of a line whose position 0 opens a
    title: the last position of a double quote that closes the title and is
    followed by a closing parenthesis. *)
Fixpoint last_close (s : string) (pos : nat) : option nat :=
  match s with
  | EmptyString => None
  | String c r =>
      if Ascii.eqb c newline then None
      else match last_close r (S pos) with
           | Some j => Some j
           | None =>
               if Ascii.eqb c dquote && prefix ")" r then Some pos else None
           end
  end.

(** The length of group 3 when the optional title matches at [u] and is
    followed by the closing parenthesis. *)
Definition title_len (u : string) : option nat :=
  match u with
  | String c r =>
      if Ascii.eqb c dquote then option_map S (last_close r 1) else None
  | EmptyString => None
  end.

(** After [http]: what the lazy run takes, and the length of the rest of
    the match (title and closing parenthesis). *)
Fixpoint url_tail (u : string) : option (string * nat) :=
  match u with
  | EmptyString => None
  | String c r =>
      let extend :=
        if Ascii.eqb c newline then None
        else match url_tail r with
             | Some (t, n) => Some (String c t, n)
             | None => None
             end in
      if Ascii.eqb c ")" then Some (EmptyString, 1)
      else if Ascii.eqb c dquote then
        match title_len u with
        | Some n => Some (EmptyString, n + 1)
        | None => extend
        end
      else extend
  end.

(** The match of the pattern at the start of [s]: groups 1 and 2 and the
    length of the whole match. *)
Definition match_at (s : string) : option (string * string * nat) :=
  if prefix "![" s then
    match until_bracket (PyStr.drop 2 s) with
    | Some (alt, rest) =>
        if prefix "(http" rest then
          match url_tail (PyStr.drop 5 rest) with
          | Some (t, n) =>
              Some ("![" ++ alt ++ "]", "http" ++ t,
                    2 + String.length alt + 1 + 5 + String.length t + n)
          | None => None
          end
        else None
    | None => None
    end
  else None.

(** Groups 1 and 2 of the successive matches that [p.sub] finds in [s]. *)
Fixpoint matches (skip : nat) (s : string) : list (string * string) :=
  match s with
  | EmptyString => []
  | String c r =>
      match skip with
      | S k => matches k r
      | O =>
          match match_at s with
          | Some (g1, g2, len) => (g1, g2) :: matches (len - 1) r
          | None => matches 0 r
          end
      end
  end.

End ImageRe.

Section FieldCompiler.

(** [misaka.html(field, extensions=("fenced-code", "math"))] *)
Variable html : string -> string.
(** [highlight_markdown(field)] *)
Variable highlight_markdown : string -> string.
(** [urlparse(url).path] *)
Variable urlparse_path : string -> string.

Variable CONFIG : Config.
Variable W : World.

Definition field_to_html (field : string) : string :=
  let field :=
    if dollar CONFIG then Dollar.rewrite field else escape_brackets field in
  if highlight CONFIG then highlight_markdown field else html field.

(** [_extract_image], for a match with groups [g1] and [g2]; [fieldtext]
    is the variable of the enclosing call, still the raw field text. *)
Definition extract_image (fieldtext g1 g2 : string) : result string :=
  let image_url := g2 in
  let image_name := PosixPath.basename (urlparse_path image_url) in
  match requests_get W image_url with
  | ConnectionError e =>
      Raise (ExnIn "Exception"
               ("failed to download " ++ image_url ++ " for markdown: "
                  ++ fieldtext) e)
  | OtherError e => Raise e
  | Response status_code chunks =>
      if negb (status_code =? 200)%N then
        Raise (Exn "Exception"
                 ("failed to download " ++ image_url ++ " for markdown:"
                    ++ nl ++ nl ++ fieldtext))
      else
        match write_file W image_name chunks with
        | Some e => Raise e
        | None =>
            Ok (g1 ++ "(" ++ PosixPath.join (abspath_dot W) image_name ++ ")")
        end
  end.

(** [p.sub(_extract_image, s)], the matches replaced from left to right. *)
Fixpoint sub_images (fieldtext : string) (skip : nat) (s : string)
  : result string :=
  match s with
  | EmptyString => Ok EmptyString
  | String c r =>
      match skip with
      | S k => sub_images fieldtext k r
      | O =>
          match ImageRe.match_at s with
          | Some (g1, g2, len) =>
              x <- extract_image fieldtext g1 g2 ;;
              rest <- sub_images fieldtext (len - 1) r ;;
              Ok (x ++ rest)
          | None =>
              rest <- sub_images fieldtext 0 r ;;
              Ok (String c rest)
          end
      end
  end.

Definition compile_field (field_lines : list string) (is_markdown : bool)
  : result string :=
  let fieldtext := PyStr.join EmptyString field_lines in
  if is_markdown then
    fieldtext' <- sub_images fieldtext 0 fieldtext ;;
    Ok (field_to_html fieldtext')
  else Ok fieldtext.

End FieldCompiler.

(* ================================================================== *)
(** * The card parser *)
(* ================================================================== *)

Definition card_separator : string := "---".
Definition field_separator : string := "%".

Section Parser.

Variable html : string -> string.
Variable highlight_markdown : string -> string.
Variable urlparse_path : string -> string.
Variable CONFIG : Config.
Variable W : World.

Let compile := compile_field html highlight_markdown urlparse_path CONFIG W.

(** The [for line in f] loop of [produce_cards], from the state
    [(current_field_lines, i, current_card)] over the lines [f] still to
    read: the cards yielded, then the state at the end of the input or the
    exception that stopped the generator. *)
Fixpoint produce_loop (filename : string) (current_field_lines : list string)
    (i : nat) (current_card : Card) (f : list string)
  : list Card * result (list string * Card) :=
  match f with
  | [] => ([], Ok (current_field_lines, current_card))
  | line :: f' =>
      let stripped := PyStr.strip line in
      if (stripped =? card_separator) || (stripped =? field_separator) then
        let is_markdown := negb (CardM.has_front_and_back current_card) in
        match compile current_field_lines is_markdown with
        | Raise e => ([], Raise e)
        | Ok field =>
            let current_card := CardM.add_field current_card field in
            if stripped =? card_separator then
              let '(yielded, r) :=
                produce_loop filename [] (i + 1)
                  (CardM.init CONFIG filename (i + 1)) f' in
              (current_card :: yielded, r)
            else produce_loop filename [] i current_card f'
        end
      else
        produce_loop filename (current_field_lines ++ [line])%list i
          current_card f'
  end.

(** The statements between the loop and the last [if]: the field left in
    the buffer, if any, joins the current card. *)
Definition end_of_input (st : list string * Card) : result Card :=
  let '(current_field_lines, current_card) := st in
  match current_field_lines with
  | _ :: _ =>
      let is_markdown := negb (CardM.has_front_and_back current_card) in
      field <- compile current_field_lines is_markdown ;;
      Ok (CardM.add_field current_card field)
  | [] => Ok current_card
  end.

(** [produce_cards] up to its last [if]: the cards yielded at the card
    separators, and the card in construction at the end of the input. *)
Definition produce_run (filename : string) (f : list string)
  : list Card * result Card :=
  let '(yielded, r) :=
    produce_loop filename [] 0 (CardM.init CONFIG filename 0) f in
  (yielded, st <- r ;; end_of_input st).

(** The generator [produce_cards filename], for a file whose lines are
    [f]: the cards it yields and the exception that ends it, if any. *)
Definition produce_cards (filename : string) (f : list string)
  : list Card * option exn :=
  match produce_run filename f with
  | (yielded, Raise e) => (yielded, Some e)
  | (yielded, Ok current_card) =>
      ((yielded
          ++ if CardM.has_data current_card then [current_card] else [])%list,
       None)
  end.

(** The cards that [produce_cards] builds, before the test [has_data] of
    the last one: those yielded at the card separators and, when the
    end of the input is reached, the card in construction there. *)
Definition candidate_cards (filename : string) (f : list string) : list Card :=
  match produce_run filename f with
  | (yielded, Raise _) => yielded
  | (yielded, Ok current_card) => (yielded ++ [current_card])%list
  end.

End Parser.

(* ================================================================== *)
(** * The deck assembler *)
(* ================================================================== *)

(** [DeckCollection]: a dict from deck names to decks, in insertion
    order. *)
Definition DeckCollection : Type := list (string * Deck).

Module Decks.

Fixpoint get (decks : DeckCollection) (deckname : string) : option Deck :=
  match decks with
  | [] => None
  | (k, d) :: rest => if k =? deckname then Some d else get rest deckname
  end.

Fixpoint set (decks : DeckCollection) (deckname : string) (d : Deck)
  : DeckCollection :=
  match decks with
  | [] => [(deckname, d)]
  | (k, d') :: rest =>
      if k =? deckname then (k, d) :: rest
      else (k, d') :: set rest deckname d
  end.

(** [DeckCollection.__getitem__]: the collection after the access, and the
    deck returned. *)
Definition getitem (decks : DeckCollection) (deckname : string)
  : DeckCollection * Deck :=
  match get decks deckname with
  | Some d => (decks, d)
  | None =>
      let deck_id := simple_hash deckname in
      let d := {| deck_id := deck_id; deck_name := deckname; notes := [] |} in
      (set decks deckname d, d)
  end.

(** [decks[deckname].add_note(note)]; the deck is updated in place. *)
Definition add (decks : DeckCollection) (deckname : string) (note : Note)
  : DeckCollection :=
  let '(decks, d) := getitem decks deckname in
  set decks deckname (add_note d note).

End Decks.

(** [genanki.Package(deck_or_decks=, media_files=)] *)
Record Package : Type := {
  package_decks : list Deck;
  media_files : list string
}.

Section Assembler.

Variable W : World.

(** The inner loop of [cards_to_apkg]: every reference is copied and
    joins the set [media]. *)
Fixpoint stage_media (media : list string) (refs : list (string * string))
  : result (list string) :=
  match refs with
  | [] => Ok media
  | (abspath, newpath) :: rest =>
      match copyfile W abspath newpath with
      | Some e => Raise e
      | None =>
          stage_media
            (if existsb (String.eqb newpath) media then media
             else (media ++ [newpath])%list) rest
      end
  end.

(** One turn of the loop of [cards_to_apkg]. *)
Definition assemble_card (st : DeckCollection * list string) (card : Card)
  : result (DeckCollection * list string) :=
  let '(decks, media) := st in
  let card := CardM.finalize card in
  let '(refs, card) := CardM.determine_media_references card in
  media <- stage_media media refs ;;
  Ok (Decks.add decks (CardM.deckname card) (CardM.to_genanki_note card),
      media).

Fixpoint assemble (st : DeckCollection * list string) (cards : list Card)
  : result (DeckCollection * list string) :=
  match cards with
  | [] => Ok st
  | card :: rest => st' <- assemble_card st card ;; assemble st' rest
  end.

(** [cards_to_apkg(cards, output_name)] for the generator [cards], up to
    the call of [write_to_file]: the decks and the media of the package.
    The exception that ends the generator is raised once the cards yielded
    before it have been assembled. *)
Definition cards_to_apkg (cards : list Card * option exn)
  : result (DeckCollection * Package) :=
  st <- assemble ([], []) (fst cards) ;;
  match snd cards with
  | Some e => Raise e
  | None =>
      Ok (fst st, {| package_decks := map snd (fst st);
                     media_files := snd st |})
  end.

End Assembler.

(* ================================================================== *)
(** * The parser, restated on the raw fields of a document *)
(* ================================================================== *)

Module ParserSpec.

(** The raw fields of the cards of a document: the lines between two
    delimiter lines make a field, the fields up to a card separator make a
    card, and what follows the last card separator makes the last card,
    whose last field counts only if it has lines.  [cur] holds the lines
    of the field being read; the result is the card being read and the
    cards after it. *)
Fixpoint raw_loop (cur : list string) (f : list string)
  : list (list string) * list (list (list string)) :=
  match f with
  | [] => (match cur with [] => [] | _ :: _ => [cur] end, [])
  | line :: f' =>
      let stripped := PyStr.strip line in
      if stripped =? card_separator then
        let '(c, cs) := raw_loop [] f' in ([cur], c :: cs)
      else if stripped =? field_separator then
        let '(c, cs) := raw_loop [] f' in (cur :: c, cs)
      else raw_loop (cur ++ [line])%list f'
  end.

Definition raw_cards (f : list string) : list (list (list string)) :=
  let '(c, cs) := raw_loop [] f in c :: cs.

(** The number of lines of [f] that strip to the card separator. *)
Definition count_card_separators (f : list string) : nat :=
  List.length (filter (fun line => PyStr.strip line =? card_separator) f).

(** No line of [f] strips to a delimiter. *)
Definition no_delimiter (f : list string) : Prop :=
  forall line, In line f ->
    PyStr.strip line <> card_separator /\ PyStr.strip line <> field_separator.

Section Compiled.

Variable compile : list string -> bool -> result string.
Variable CONFIG : Config.
Variable filename : string.

Definition mk_card (i : nat) (fs : list string) : Card :=
  CardM.set_fields (CardM.init CONFIG filename i) fs.

(** The fields of a card that already has the fields [fs0], compiled one
    after the other: in markdown mode while the card has fewer than two
    fields, as plain text from then on. *)
Fixpoint compile_fields (fs0 : list string) (raw : list (list string))
  : result (list string) :=
  match raw with
  | [] => Ok fs0
  | lines :: rest =>
      field <- compile lines (List.length fs0 <? 2)%nat ;;
      compile_fields (fs0 ++ [field])%list rest
  end.

(** The cards of a document, one after the other: [cur] is the outcome for
    the card number [i], [cs] are the raw cards after it. *)
Fixpoint run_cards (i : nat) (cur : result (list string))
    (cs : list (list (list string))) : list Card * result Card :=
  match cur with
  | Raise e => ([], Raise e)
  | Ok fs =>
      match cs with
      | [] => ([], Ok (mk_card i fs))
      | c :: cs' =>
          let '(ys, r) := run_cards (i + 1) (compile_fields [] c) cs' in
          (mk_card i fs :: ys, r)
      end
  end.

(** What a run leaves as cards: those yielded and the last one. *)
Definition cards_of (run : list Card * result Card) : list Card :=
  match run with
  | (ys, Ok c) => (ys ++ [c])%list
  | (ys, Raise _) => ys
  end.

End Compiled.

End ParserSpec.

(* ================================================================== *)
(** * The directory walk and the build *)
(* ================================================================== *)

(** [VERSION_LOG]: a dict from file paths to content hashes. *)
Definition VersionLog : Type := list (string * N).

Module VLog.

Fixpoint get (log : VersionLog) (k : string) : option N :=
  match log with
  | [] => None
  | (k', v) :: rest => if k' =? k then Some v else get rest k
  end.

Fixpoint set (log : VersionLog) (k : string) (v : N) : VersionLog :=
  match log with
  | [] => [(k, v)]
  | (k', v') :: rest =>
      if k' =? k then (k', v) :: rest else (k', v') :: set rest k v
  end.

End VLog.

Section Build.

Variable html : string -> string.
Variable highlight_markdown : string -> string.
Variable urlparse_path : string -> string.
Variable CONFIG : Config.
Variable W : World.

(** The body of the loops of [cards_from_dir], over the paths of the
    markdown files in the order of the walk: the cards yielded, the
    exception that ends the generator, if any, and [VERSION_LOG] then.
    The file is read and hashed before the [try]: what reading it raises
    ends the generator as it is, whereas what [produce_cards] raises is
    replaced by an exception that names the file. *)
Fixpoint cards_from_files (VERSION_LOG : VersionLog) (files : list string)
  : (list Card * option exn) * VersionLog :=
  match files with
  | [] => (([], None), VERSION_LOG)
  | filepath :: rest =>
      let old_hash := VLog.get VERSION_LOG filepath in
      match read_error W filepath with
      | Some e => (([], Some e), VERSION_LOG)
      | None =>
          let cur_hash :=
            simple_hash (PyStr.join EmptyString (read_lines W filepath)) in
          if negb (match old_hash with
                   | Some h => (h =? cur_hash)%N
                   | None => false
                   end)
             || negb (updated_only CONFIG)
          then
            match produce_cards html highlight_markdown urlparse_path CONFIG
                    W filepath (read_lines W filepath) with
            | (cards, Some e) =>
                ((cards,
                  Some (ExnIn "Exception"
                          ("fail to produce cards for " ++ filepath) e)),
                 VERSION_LOG)
            | (cards, None) =>
                let '((more, r), log) :=
                  cards_from_files (VLog.set VERSION_LOG filepath cur_hash)
                    rest in
                (((cards ++ more)%list, r), log)
            end
          else cards_from_files VERSION_LOG rest
      end
  end.

Definition markdown_files (tree : list (string * list string)) : list string :=
  flat_map
    (fun '(parent_dir, files) =>
       map (PosixPath.join parent_dir)
           (filter (fun fn => PyStr.endswith ".md" fn
                              || PyStr.endswith ".markdown" fn) files))
    tree.

Definition cards_from_dir (VERSION_LOG : VersionLog) (dirname : string)
  : (list Card * option exn) * VersionLog :=
  cards_from_files VERSION_LOG (markdown_files (walk W dirname)).

(** The part of [main] between the loading of the version log and its
    saving: the package and the version log to save, or the exception
    that aborts the build. *)
Definition build (VERSION_LOG : VersionLog) (recur_dir : string)
  : result (Package * VersionLog) :=
  let '(card_iterator, log) := cards_from_dir VERSION_LOG recur_dir in
  r <- cards_to_apkg W card_iterator ;;
  Ok (snd r, log).

End Build.

(* ================================================================== *)
(** * Notions used to state the properties *)
(* ================================================================== *)

(** The note that [cards_to_apkg] adds for a card: the card is finalized
    and its media references are rewritten first. *)
Definition note_of (card : Card) : Note :=
  CardM.to_genanki_note
    (snd (CardM.determine_media_references (CardM.finalize card))).

(** A reference with every path separator replaced by the percent sign. *)
Fixpoint replace_separators (ref : string) : string :=
  match ref with
  | EmptyString => EmptyString
  | String c r =>
      String (if Ascii.eqb c "/" then "%"%char else c) (replace_separators r)
  end.

(** [plain_from after_backslash s]: every dollar sign of [s] comes right
    after a backslash (for the first character, [after_backslash] tells
    so), and [s] does not end with a backslash: [s] has no unescaped
    dollar sign and escapes nothing that follows it. *)
Fixpoint plain_from (after_backslash : bool) (s : string) : bool :=
  match s with
  | EmptyString => negb after_backslash
  | String c r =>
      (if Ascii.eqb c "$" then after_backslash else true)
      && plain_from (Ascii.eqb c "\") r
  end.

Definition plain (s : string) : bool := plain_from false s.

(** All the pieces but the first and the last are non-empty. *)
Definition inner_nonempty (segs : list string) : Prop :=
  match segs with
  | [] => True
  | _ :: rest =>
      forall x, In x (removelast rest) -> x <> EmptyString
  end.

(** A field as a sequence of pieces: ordinary text, inline math written
    between single dollar signs, block math written between double dollar
    signs. *)
Inductive piece : Type :=
| Text (s : string)
| Inline (s : string)
| Block (s : string).

(** What the author writes for a piece. *)
Definition written (p : piece) : string :=
  match p with
  | Text s => s
  | Inline s => "$" ++ s ++ "$"
  | Block s => "$$" ++ s ++ "$$"
  end.

(** A piece once the double dollars are rewritten. *)
Definition after_blocks (p : piece) : string :=
  match p with
  | Text s => s
  | Inline s => "$" ++ s ++ "$"
  | Block s => "\\[" ++ s ++ "\\]"
  end.

(** A piece with its math markers. *)
Definition marked (p : piece) : string :=
  match p with
  | Text s => s
  | Inline s => "\\(" ++ s ++ "\\)"
  | Block s => "\\[" ++ s ++ "\\]"
  end.

Definition all_of (g : piece -> string) (ps : list piece) : string :=
  fold_right (fun p acc => g p ++ acc) EmptyString ps.

(** The pieces can be told apart in what is written: no piece holds an
    unescaped dollar sign or ends with a backslash, an inline piece is not
    empty, and what follows an inline piece does not start with a dollar
    sign (either would make a double dollar). *)
Fixpoint well_formed (ps : list piece) : Prop :=
  match ps with
  | [] => True
  | p :: rest =>
      match p with
      | Text s => plain s = true
      | Inline s =>
          plain s = true /\ s <> EmptyString /\
          prefix "$" (all_of written rest) = false
      | Block s => plain s = true
      end /\ well_formed rest
  end.

(** The pieces after the first one, each after its dollar sign. *)
Fixpoint dollar_tail (rest : list string) : string :=
  match rest with
  | [] => EmptyString
  | y :: r => "$" ++ y ++ dollar_tail r
  end.

(** The messages of the two [raise] of [_extract_image]. *)
Definition download_message (url fieldtext : string) (m : string) : Prop :=
  m = "failed to download " ++ url ++ " for markdown: " ++ fieldtext \/
  m = "failed to download " ++ url ++ " for markdown:" ++ nl ++ nl ++ fieldtext.

(** The download of [url] answers 200 and its file can be written. *)
Definition download_succeeds (urlparse_path : string -> string) (W : World)
    (url : string) : Prop :=
  exists chunks,
    requests_get W url = Response 200 chunks /\
    write_file W (PosixPath.basename (urlparse_path url)) chunks = None.

(** The download of [url] fails: a connection error, or a status other
    than 200. *)
Definition download_fails (W : World) (url : string) : Prop :=
  (exists e, requests_get W url = ConnectionError e) \/
  (exists status_code chunks,
     requests_get W url = Response status_code chunks /\
     status_code <> 200%N).

(* ================================================================== *)
(** * Sample environments for closed examples *)
(* ================================================================== *)

Module Sample.

(** A stand-in for the renderer that leaves the text as it is; like the
    renderer, it maps the empty text to the empty text. *)
Definition html (field : string) : string := field.

Definition highlight_markdown (field : string) : string := field.

(** A stand-in for [urlparse(url).path]: the text from the first slash
    that follows the two slashes of the scheme. *)
Fixpoint from_slash (s : string) : string :=
  match s with
  | EmptyString => EmptyString
  | String c r => if Ascii.eqb c "/" then s else from_slash r
  end.

Fixpoint urlparse_path (url : string) : string :=
  match url with
  | EmptyString => EmptyString
  | String c r => if prefix "//" url then from_slash (PyStr.drop 2 url)
                  else urlparse_path r
  end.

Definition config : Config :=
  {| dollar := false;
     highlight := false;
     updated_only := false;
     card_model_name := "Ankdown Model 2";
     card_model_css := ".card { text-align: center; }";
     card_model_fields := ["Question"; "Answer"; "Tags"];
     card_model_templates :=
       [ {| template_name := "Ankdown Card";
            qfmt := "{{Question}}";
            afmt := "{{Question}}<hr id='answer'>{{Answer}}" |} ] |}.

(** The same model name, another style sheet, other fields, no template. *)
Definition config' : Config :=
  {| dollar := true;
     highlight := false;
     updated_only := true;
     card_model_name := "Ankdown Model 2";
     card_model_css := ".card { text-align: left; }";
     card_model_fields := ["Front"; "Back"];
     card_model_templates := [] |}.

(** A tree with one markdown file, whose front field has a remote
    image. *)
Definition tree : list (string * list string) :=
  [ ("cards/deck1", ["card.md"; "notes.txt"]) ].

Definition card_md : list string :=
  [ "![d](http://example.com/img/a.png)" ++ nl; "%" ++ nl; "back" ++ nl ].

(** A world in which every download succeeds and every file can be
    written and copied. *)
Definition world : World :=
  {| requests_get := fun _ => Response 200 ["data"];
     write_file := fun _ _ => None;
     abspath_dot := "/tmp/build";
     copyfile := fun _ _ => None;
     walk := fun _ => tree;
     read_error := fun _ => None;
     read_lines := fun _ => card_md |}.

(** The same world, in which every download answers 404. *)
Definition world_404 : World :=
  {| requests_get := fun _ => Response 404 [];
     write_file := fun _ _ => None;
     abspath_dot := "/tmp/build";
     copyfile := fun _ _ => None;
     walk := fun _ => tree;
     read_error := fun _ => None;
     read_lines := fun _ => card_md |}.

Definition produce_cards (W : World) :=
  produce_cards html highlight_markdown urlparse_path config W.

Definition compile_field (CONFIG : Config) (W : World) :=
  compile_field html highlight_markdown urlparse_path CONFIG W.

Definition card (filename : string) (i : nat) (fs : list string) : Card :=
  ParserSpec.mk_card config filename i fs.

End Sample.


(* ================================================================== *)
(** * The configuration phase *)
(* ================================================================== *)

(** A value of the dict [CONFIG], as the command line and the YAML
    documents give them: a string, a boolean, or anything else. *)
Inductive value : Type :=
| VStr (s : string)
| VBool (b : bool)
| VOther (repr : string).

(** [CONFIG] as a dict, in insertion order; [Config] above holds the
    entries of it that the pipeline reads. *)
Definition Dict : Type := list (string * value).

Module DictM.

Fixpoint get (d : Dict) (k : string) : option value :=
  match d with
  | [] => None
  | (k', v) :: rest => if k' =? k then Some v else get rest k
  end.

(** [d[k] = v] *)
Fixpoint set (d : Dict) (k : string) (v : value) : Dict :=
  match d with
  | [] => [(k, v)]
  | (k', v') :: rest =>
      if k' =? k then (k', v) :: rest else (k', v') :: set rest k v
  end.

(** [d.update(items)] *)
Definition update (d : Dict) (items : list (string * value)) : Dict :=
  fold_left (fun acc kv => set acc (fst kv) (snd kv)) items d.

End DictM.

(** The options of the command line, as [docopt] returns them. *)
Record Arguments : Type := {
  arg_configFile : option string;
  arg_config : option string;
  arg_p : option string;
  arg_r : option string;
  arg_highlight : bool;
  arg_updatedOnly : bool
}.

Section Configuration.

(** [load_file path]: the items of the YAML document in the file at
    [path], with which [CONFIG.update] is called, or the exception that
    opening, parsing or updating raises.  [load_string text]: the same for
    a YAML document given as a string. *)
Variable load_file : string -> result (list (string * value)).
Variable load_string : string -> result (list (string * value)).

(** [apply_arguments(arguments)], from the dict [CONFIG] to the dict it
    leaves. *)
Definition apply_arguments (arguments : Arguments) (CONFIG : Dict)
  : result Dict :=
  CONFIG <- match arg_configFile arguments with
            | Some path =>
                items <- load_file path ;; Ok (DictM.update CONFIG items)
            | None => Ok CONFIG
            end ;;
  CONFIG <- match arg_config arguments with
            | Some text =>
                items <- load_string text ;; Ok (DictM.update CONFIG items)
            | None => Ok CONFIG
            end ;;
  let CONFIG := match arg_p arguments with
                | Some v => DictM.set CONFIG "pkg_arg" (VStr v)
                | None => CONFIG
                end in
  let CONFIG := match arg_r arguments with
                | Some v => DictM.set CONFIG "recur_dir" (VStr v)
                | None => CONFIG
                end in
  let CONFIG := if arg_highlight arguments
                then DictM.set CONFIG "highlight" (VBool true)
                else CONFIG in
  let CONFIG := if arg_updatedOnly arguments
                then DictM.set CONFIG "updated_only" (VBool true)
                else CONFIG in
  Ok CONFIG.

End Configuration.

(** [apply_highlight_css], for a file [highlight.css] whose content is
    [css_file], on the entries that the pipeline reads. *)
Definition apply_highlight_css (css_file : string) (CONFIG : Config) : Config :=
  {| dollar := dollar CONFIG;
     highlight := highlight CONFIG;
     updated_only := updated_only CONFIG;
     card_model_name := card_model_name CONFIG;
     card_model_css :=
       card_model_css CONFIG ++ PyStr.replace nl EmptyString css_file;
     card_model_fields := card_model_fields CONFIG;
     card_model_templates := card_model_templates CONFIG |}.

(* ================================================================== *)
(** * More notions used to state properties *)
(* ================================================================== *)

(** [s] with a second backslash before every backslash that stands right
    before a character accepted by [B]. *)
Fixpoint double_before (B : ascii -> bool) (s : string) : string :=
  match s with
  | EmptyString => EmptyString
  | String c t =>
      if Ascii.eqb c "\" then
        match t with
        | String b r =>
            if B b
            then String "\" (String "\" (String b (double_before B r)))
            else String c (double_before B t)
        | EmptyString => String c EmptyString
        end
      else String c (double_before B t)
  end.

Definition is_bracket (c : ascii) : bool :=
  ((Ascii.eqb "(" c || Ascii.eqb ")" c) || Ascii.eqb "[" c) || Ascii.eqb "]" c.

(** The last character of [s] is a backslash. *)
Fixpoint ends_with_backslash (s : string) : bool :=
  match s with
  | EmptyString => false
  | String c EmptyString => Ascii.eqb c "\"
  | String _ r => ends_with_backslash r
  end.

(** [s] without its newlines. *)
Fixpoint without_newlines (s : string) : string :=
  match s with
  | EmptyString => EmptyString
  | String c r =>
      if Ascii.eqb c newline then without_newlines r
      else String c (without_newlines r)
  end.

(** Every dollar sign of [s] comes right after a backslash; for the first
    character, [after_backslash] tells so. *)
Fixpoint dollars_escaped_from (after_backslash : bool) (s : string) : bool :=
  match s with
  | EmptyString => true
  | String c r =>
      (if Ascii.eqb c "$" then after_backslash else true)
      && dollars_escaped_from (Ascii.eqb c "\") r
  end.

Definition dollars_escaped (s : string) : bool :=
  dollars_escaped_from false s.

(** The value that the last item of [items] with the key [k] gives. *)
Fixpoint last_value (items : list (string * value)) (k : string)
  : option value :=
  match items with
  | [] => None
  | (k', v) :: rest =>
      match last_value rest k with
      | Some w => Some w
      | None => if k' =? k then Some v else None
      end
  end.

(** The value that the options of the command line give to the key [k],
    apart from the configuration documents. *)
Definition command_line_value (arguments : Arguments) (k : string)
  : option value :=
  if k =? "updated_only" then
    if arg_updatedOnly arguments then Some (VBool true) else None
  else if k =? "highlight" then
    if arg_highlight arguments then Some (VBool true) else None
  else if k =? "recur_dir" then option_map VStr (arg_r arguments)
  else if k =? "pkg_arg" then option_map VStr (arg_p arguments)
  else None.

(** The first value given, from left to right. *)
Fixpoint first_given (l : list (option value)) : option value :=
  match l with
  | [] => None
  | Some v :: _ => Some v
  | None :: rest => first_given rest
  end.

(** The items that a configuration document given with an option
    brings. *)
Definition items_of (option : option string)
    (load : string -> result (list (string * value)))
  : result (list (string * value)) :=
  match option with
  | Some x => load x
  | None => Ok []
  end.

(** [card] with [css] added to the style sheet of its model. *)
Definition with_more_css (css : string) (card : Card) : Card :=
  {| fields := fields card;
     filename := filename card;
     file_index := file_index card;
     model := {| model_id := model_id (model card);
                 model_name := model_name (model card);
                 model_fields := model_fields (model card);
                 model_templates := model_templates (model card);
                 model_css := model_css (model card) ++ css |} |}.

(** The number of notes of all the decks. *)
Definition total_notes (decks : DeckCollection) : nat :=
  list_sum (map (fun kd => List.length (notes (snd kd))) decks).

(** The media references of a card, as [cards_to_apkg] gets them. *)
Definition media_refs (card : Card) : list (string * string) :=
  fst (CardM.determine_media_references (CardM.finalize card)).

(** The hash that [cards_from_dir] computes for the file at [path]. *)
Definition content_hash (W : World) (path : string) : N :=
  simple_hash (PyStr.join EmptyString (read_lines W path)).

(* ================================================================== *)
(** * The model of the library functions, on known values *)
(* ================================================================== *)

Example md5_of_empty :
  MD5.hexdigest_int (MD5.bytes_of_string EmptyString)
  = 0xd41d8cd98f00b204e9800998ecf8427e%N.
Proof. vm_compute. reflexivity. Qed.

Example md5_of_abc :
  MD5.hexdigest_int (MD5.bytes_of_string "abc")
  = 0x900150983cd24fb0d6963f7d28e17f72%N.
Proof. vm_compute. reflexivity. Qed.

Example md5_of_two_blocks :
  MD5.hexdigest_int (MD5.bytes_of_string (concat EmptyString (repeat "x" 56)))
  = 0x668a72d5ba17f08e62dabcafad6db14b%N.
Proof. vm_compute. reflexivity. Qed.

Example simple_hash_of_deck1 : simple_hash "deck1" = 7937570446515315694%N.
Proof. vm_compute. reflexivity. Qed.

Example strip_values :
  map PyStr.strip
    [" a b "; nl ++ " --- " ++ nl; "%" ++ nl; "   "; EmptyString;
     PyStr.utf8 0xa0 ++ "x" ++ PyStr.utf8 0x3000 ++ PyStr.utf8 0x85]
  = ["a b"; "---"; "%"; EmptyString; EmptyString; "x"].
Proof. vm_compute. reflexivity. Qed.

Example split_values :
  PyStr.split "/" "a/b//c/" = ["a"; "b"; EmptyString; "c"; EmptyString] /\
  PyStr.split "/" EmptyString = [EmptyString] /\
  PyStr.split "ab" "xabyabab" = ["x"; "y"; EmptyString; EmptyString].
Proof. repeat split. Qed.

Example dirname_values :
  map PosixPath.dirname
    ["deck1/card.md"; "/a/b/c.md"; "c.md"; "/c.md"; "//c.md"; "a//b"; "a/b/"]
  = ["deck1"; "/a/b"; EmptyString; "/"; "//"; "a"; "a/b"].
Proof. reflexivity. Qed.

Example basename_values :
  map PosixPath.basename
    ["deck1/card.md"; "/a/b/c.md"; "c.md"; "/c.md"; "a//b"; "a/b/"]
  = ["card.md"; "c.md"; "c.md"; "c.md"; "b"; EmptyString].
Proof. reflexivity. Qed.

Example normpath_values :
  map PosixPath.normpath
    [EmptyString; "/"; "//"; "///a"; "//a/../.."; "a/../.."; "a/./b//c/";
     "../x"; "/../x"; "a/b/../../.."]
  = ["."; "/"; "//"; "/a"; "//"; ".."; "a/b/c"; "../x"; "/x"; ".."].
Proof. vm_compute. reflexivity. Qed.

Example join_values :
  map (fun p => PosixPath.join (fst p) (snd p))
    [("a", "b"); ("a/", "b"); (EmptyString, "b"); ("a", "/b");
     ("a", EmptyString)]
  = ["a/b"; "a/b"; "b"; "/b"; "a/"].
Proof. reflexivity. Qed.

Example escape_brackets_value :
  escape_brackets "a \(x\) \[y\] \\( \\\(" = "a \\(x\\) \\[y\\] \\\( \\\\(".
Proof. reflexivity. Qed.

Example dollar_rewrite_values :
  map Dollar.rewrite
    ["Price: \$5 $x^2$"; "a $$b$$ c $d$ e"; "$a$$b$"; "\$$x$"]
  = ["Price: \$5 \\(x^2\\)"; "a \\[b\\] c \\(d\\) e"; "\\(a\\[b\\)\\]";
     "\$\\(x\\)"].
Proof. reflexivity. Qed.

Example image_matches_values :
  let q := String dquote EmptyString in
  map (ImageRe.matches 0)
    [ "a ![x](http://h/a.png) b ![y](https://h/b.png " ++ q ++ "t" ++ q
        ++ ") c";
      "![x](http://h/a" ++ q ++ "b" ++ q ++ ") z" ++ q ++ ") w)";
      "![x](http://h/a" ++ nl ++ ")";
      "![x" ++ nl ++ "y](httpfoo)![](http)";
      "![z](http://k/(x).png)";
      "![x](ftp://h/a.png)" ]
  = [ [("![x]", "http://h/a.png"); ("![y]", "https://h/b.png ")];
      [("![x]", "http://h/a")];
      [];
      [("![x" ++ nl ++ "y]", "httpfoo"); ("![]", "http")];
      [("![z]", "http://k/(x")];
      [] ].
Proof. vm_compute. reflexivity. Qed.

Example card_parser_value :
  Sample.produce_cards Sample.world "deck1/basic.md"
    (map (fun s => s ++ nl)
       ["Front text"; "%"; "Back text"; " % "; "tag1, tag2"; "---"; "Next"])
  = ([ Sample.card "deck1/basic.md" 0
         ["Front text" ++ nl; "Back text" ++ nl; "tag1, tag2" ++ nl];
       Sample.card "deck1/basic.md" 1 ["Next" ++ nl] ], None).
Proof. vm_compute. reflexivity. Qed.

(* ================================================================== *)
(** * Facts on raw fields and on the cards compiled from them *)
(* ================================================================== *)

Section RawFacts.

Import ParserSpec.

Lemma raw_loop_count : forall f cur,
  List.length (snd (raw_loop cur f)) = count_card_separators f.
Proof.
  unfold count_card_separators.
  induction f as [|line f IH]; intros cur; [reflexivity|].
  cbn [raw_loop filter].
  destruct (PyStr.strip line =? card_separator).
  - specialize (IH []). destruct (raw_loop [] f); simpl in *. now rewrite IH.
  - destruct (PyStr.strip line =? field_separator).
    + specialize (IH []). now destruct (raw_loop [] f).
    + apply IH.
Qed.

(** Every raw card that ends at a card separator has a field. *)
Lemma raw_loop_nonempty : forall f cur c cs j raw,
  raw_loop cur f = (c, cs) ->
  (j < List.length cs)%nat ->
  nth_error (c :: cs) j = Some raw ->
  raw <> [].
Proof.
  induction f as [|line f IH]; intros cur c cs j raw Hraw Hj Hnth.
  - simpl in Hraw. inversion Hraw; subst. simpl in Hj. lia.
  - cbn [raw_loop] in Hraw.
    destruct (PyStr.strip line =? card_separator).
    + destruct (raw_loop [] f) as [c' cs'] eqn:Hrec.
      inversion Hraw; subst; clear Hraw.
      destruct j as [|j]; simpl in Hnth.
      * inversion Hnth. discriminate.
      * simpl in Hj. eapply (IH [] c' cs' j); eauto. lia.
    + destruct (PyStr.strip line =? field_separator).
      * destruct (raw_loop [] f) as [c' cs'] eqn:Hrec.
        inversion Hraw; subst; clear Hraw.
        destruct j as [|j]; simpl in Hnth.
        -- inversion Hnth. discriminate.
        -- eapply (IH [] c' cs (S j)); eauto.
      * eapply IH; eauto.
Qed.

(** A document without delimiter line is one raw card, of one field or,
    when it has no line at all, of none. *)
Lemma raw_loop_no_delimiter : forall f cur,
  no_delimiter f ->
  raw_loop cur f
  = (match (cur ++ f)%list with [] => [] | _ :: _ => [(cur ++ f)%list] end, []).
Proof.
  induction f as [|line f IH]; intros cur Hno.
  - simpl. rewrite app_nil_r. reflexivity.
  - cbn [raw_loop].
    destruct (Hno line (or_introl eq_refl)) as [Hc Hf].
    apply String.eqb_neq in Hc, Hf. rewrite Hc, Hf.
    rewrite IH by (intros l Hl; apply Hno; now right).
    now rewrite <- app_assoc.
Qed.

Variable compile : list string -> bool -> result string.
Variable CONFIG : Config.
Variable filename : string.

Abbreviation run := (run_cards compile CONFIG filename).
Abbreviation fields_of := (compile_fields compile).
Abbreviation mk := (mk_card CONFIG filename).

Lemma run_cards_raise i e cs : run i (Raise e) cs = ([], Raise e).
Proof. destruct cs; reflexivity. Qed.

(** The fields compiled for a raw card extend the fields the card had, by
    one field for each raw field, the [k]-th field of the card in markdown
    mode exactly when [k < 2]. *)
Lemma compile_fields_nth : forall raw fs0 fs,
  fields_of fs0 raw = Ok fs ->
  exists more,
    fs = (fs0 ++ more)%list /\ List.length more = List.length raw /\
    forall k lines, nth_error raw k = Some lines ->
      exists field,
        nth_error more k = Some field /\
        compile lines (List.length fs0 + k <? 2)%nat = Ok field.
Proof.
  induction raw as [|lines raw IH]; intros fs0 fs H; simpl in H.
  - inversion H; subst. exists []. rewrite app_nil_r.
    repeat split. intros [|k] ? Hk; discriminate.
  - destruct (compile lines (List.length fs0 <? 2)%nat) as [field|e] eqn:Hc;
      [|discriminate].
    simpl in H. apply IH in H. destruct H as (more & -> & Hlen & Hnth).
    exists (field :: more). rewrite <- app_assoc. repeat split.
    + simpl. now rewrite Hlen.
    + intros [|k] l Hk; simpl in Hk.
      * inversion Hk; subst. exists field. rewrite Nat.add_0_r. now split.
      * destruct (Hnth k l Hk) as (fld & H1 & H2).
        exists fld. split; [exact H1|].
        rewrite length_app in H2. simpl in H2.
        now replace (List.length fs0 + S k)%nat
          with (List.length fs0 + 1 + k)%nat by lia.
Qed.

Lemma run_cards_length : forall cs i cur ys r,
  run i cur cs = (ys, r) ->
  (List.length ys <= List.length cs)%nat /\
  (forall c, r = Ok c -> List.length ys = List.length cs).
Proof.
  induction cs as [|c cs IH]; intros i cur ys r H; destruct cur as [fs|e];
    simpl in H.
  - inversion H; subst. split; [simpl; lia | reflexivity].
  - inversion H; subst. split; [simpl; lia | discriminate].
  - destruct (run (i + 1) (fields_of [] c) cs) as [ys' r'] eqn:Hrec.
    inversion H; subst. apply IH in Hrec. destruct Hrec as [H1 H2].
    split; [simpl; lia|]. intros c0 Hc0. simpl. f_equal. eauto.
  - inversion H; subst. split; [simpl; lia | discriminate].
Qed.

(** The [j]-th card of a run is the card number [i + j], with the fields
    compiled from the [j]-th raw card. *)
Lemma run_cards_nth : forall cs i cur ys r j card,
  run i cur cs = (ys, r) ->
  nth_error (cards_of (ys, r)) j = Some card ->
  exists fs,
    nth_error (cur :: map (fields_of []) cs) j = Some (Ok fs) /\
    card = mk (i + j) fs.
Proof.
  induction cs as [|c cs IH]; intros i cur ys r j card H Hnth;
    destruct cur as [fs|e]; simpl in H.
  - inversion H; subst. simpl in Hnth.
    destruct j as [|j]; simpl in Hnth.
    + inversion Hnth; subst. exists fs. now rewrite Nat.add_0_r.
    + destruct j; discriminate.
  - inversion H; subst. destruct j; discriminate.
  - destruct (run (i + 1) (fields_of [] c) cs) as [ys' r'] eqn:Hrec.
    inversion H; subst; clear H.
    assert (Hcards : cards_of (mk i fs :: ys', r)
                     = mk i fs :: cards_of (ys', r))
      by (destruct r; reflexivity).
    rewrite Hcards in Hnth.
    destruct j as [|j]; simpl in Hnth.
    + inversion Hnth; subst. exists fs. now rewrite Nat.add_0_r.
    + destruct (IH _ _ _ _ _ _ Hrec Hnth) as (fs' & H1 & H2).
      exists fs'. split; [exact H1|].
      now replace (i + S j)%nat with (i + 1 + j)%nat by lia.
  - inversion H; subst. destruct j; discriminate.
Qed.


End RawFacts.

(* ================================================================== *)
(** * Facts on the parser *)
(* ================================================================== *)

Section ParserFacts.

Variable html : string -> string.
Variable highlight_markdown : string -> string.
Variable urlparse_path : string -> string.
Variable CONFIG : Config.
Variable W : World.
Variable filename : string.

Abbreviation compile :=
  (compile_field html highlight_markdown urlparse_path CONFIG W).
Abbreviation loop :=
  (produce_loop html highlight_markdown urlparse_path CONFIG W filename).
Abbreviation at_end :=
  (end_of_input html highlight_markdown urlparse_path CONFIG W).
Abbreviation run := (ParserSpec.run_cards compile CONFIG filename).
Abbreviation fields_of := (ParserSpec.compile_fields compile).
Abbreviation mk := (ParserSpec.mk_card CONFIG filename).

Lemma mode_of_card i fs :
  negb (CardM.has_front_and_back (mk i fs)) = (List.length fs <? 2)%nat.
Proof.
  unfold CardM.has_front_and_back; simpl.
  now rewrite Nat.ltb_antisym.
Qed.

Lemma add_field_mk i fs field :
  CardM.add_field (mk i fs) field = mk i (fs ++ [field])%list.
Proof. reflexivity. Qed.

(** The loop of [produce_cards] followed by the end of the input computes
    the cards of the raw fields. *)
Lemma produce_loop_run : forall f cur i fs,
  (let '(ys, r) := loop cur i (mk i fs) f in (ys, st <- r ;; at_end st))
  = (let '(c, cs) := ParserSpec.raw_loop cur f in run i (fields_of fs c) cs).
Proof.
  induction f as [|line f IH]; intros cur i fs.
  - destruct cur as [|l cur]; [reflexivity|].
    cbn [produce_loop ParserSpec.raw_loop bind end_of_input
         ParserSpec.compile_fields].
    rewrite mode_of_card.
    destruct (compile (l :: cur) (List.length fs <? 2)%nat); reflexivity.
  - cbn [produce_loop ParserSpec.raw_loop].
    destruct (PyStr.strip line =? card_separator) eqn:Hcard.
    + cbn [orb]. rewrite mode_of_card.
      specialize (IH [] (i + 1) []).
      change (CardM.init CONFIG filename (i + 1)) with (mk (i + 1) []).
      destruct (ParserSpec.raw_loop [] f) as [c cs].
      cbn [ParserSpec.compile_fields bind].
      destruct (compile cur (List.length fs <? 2)%nat) as [field|e];
        [|cbn [bind]; now rewrite run_cards_raise].
      rewrite add_field_mk.
      destruct (loop [] (i + 1) (mk (i + 1) []) f) as [ys r].
      cbn [ParserSpec.run_cards bind ParserSpec.compile_fields].
      now rewrite <- IH.
    + cbn [orb].
      destruct (PyStr.strip line =? field_separator) eqn:Hfield.
      * rewrite mode_of_card.
        destruct (compile cur (List.length fs <? 2)%nat) as [field|e] eqn:Hc.
        -- rewrite add_field_mk.
           specialize (IH [] i (fs ++ [field])%list).
           destruct (ParserSpec.raw_loop [] f) as [c cs].
           cbn [ParserSpec.compile_fields bind]. rewrite Hc.
           exact IH.
        -- destruct (ParserSpec.raw_loop [] f) as [c cs].
           cbn [ParserSpec.compile_fields bind]. rewrite Hc.
           cbn [bind]. now rewrite run_cards_raise.
      * apply IH.
Qed.

Lemma produce_run_spec f :
  produce_run html highlight_markdown urlparse_path CONFIG W filename f
  = (let '(c, cs) := ParserSpec.raw_loop [] f in run 0 (fields_of [] c) cs).
Proof.
  unfold produce_run.
  change (CardM.init CONFIG filename 0) with (mk 0 []).
  apply produce_loop_run.
Qed.

End ParserFacts.

(* ================================================================== *)
(** * Properties of the card parser *)
(* ================================================================== *)

Lemma map_index_seq {A : Type} (g : A -> nat) : forall (l : list A) (a : nat),
  (forall j x, nth_error l j = Some x -> g x = (a + j)%nat) ->
  map g l = seq a (List.length l).
Proof.
  induction l as [|x l IH]; intros a H; [reflexivity|].
  simpl. f_equal.
  - rewrite (H 0%nat x eq_refl). lia.
  - apply IH. intros j y Hj. rewrite (H (S j) y Hj). lia.
Qed.

Section ParserProperties.

Variable html : string -> string.
Variable highlight_markdown : string -> string.
Variable urlparse_path : string -> string.
Variable CONFIG : Config.
Variable W : World.
Variable filename : string.

Abbreviation compile :=
  (compile_field html highlight_markdown urlparse_path CONFIG W).
Abbreviation prun :=
  (produce_run html highlight_markdown urlparse_path CONFIG W filename).
Abbreviation pcards :=
  (produce_cards html highlight_markdown urlparse_path CONFIG W filename).
Abbreviation candidates :=
  (candidate_cards html highlight_markdown urlparse_path CONFIG W filename).
Abbreviation fields_of := (ParserSpec.compile_fields compile).
Abbreviation mk := (ParserSpec.mk_card CONFIG filename).

Lemma candidate_cards_run f : candidates f = ParserSpec.cards_of (prun f).
Proof.
  unfold candidate_cards. now destruct (prun f) as [ys [c|e]].
Qed.

(** The [j]-th candidate card is the card number [j], with the fields
    compiled from the [j]-th raw card. *)
Lemma candidate_cards_nth f j c :
  nth_error (candidates f) j = Some c ->
  exists raw fs,
    nth_error (ParserSpec.raw_cards f) j = Some raw /\
    fields_of [] raw = Ok fs /\ c = mk j fs.
Proof.
  rewrite candidate_cards_run, produce_run_spec. unfold ParserSpec.raw_cards.
  destruct (ParserSpec.raw_loop [] f) as [c0 cs].
  destruct (ParserSpec.run_cards compile CONFIG filename 0 (fields_of [] c0) cs)
    as [ys r] eqn:Hrun.
  intros Hnth.
  destruct (run_cards_nth _ _ _ _ _ _ _ _ _ _ Hrun Hnth) as (fs & H1 & H2).
  change (fields_of [] c0 :: map (fields_of []) cs)
    with (map (fields_of []) (c0 :: cs)) in H1.
  rewrite nth_error_map in H1.
  destruct (nth_error (c0 :: cs) j) as [raw|]; [|discriminate].
  simpl in H1. inversion H1. now exists raw, fs.
Qed.

Lemma produce_run_length f ys r :
  prun f = (ys, r) ->
  (List.length ys <= ParserSpec.count_card_separators f)%nat /\
  (forall c, r = Ok c -> List.length ys = ParserSpec.count_card_separators f).
Proof.
  rewrite produce_run_spec. rewrite <- (raw_loop_count f []).
  destruct (ParserSpec.raw_loop [] f) as [c0 cs]. apply run_cards_length.
Qed.

(** A card yielded at a card separator has a field and a number below the
    number of card separators. *)
Lemma yielded_at_separator f ys r j c :
  prun f = (ys, r) ->
  nth_error ys j = Some c ->
  fields c <> [] /\ (file_index c < ParserSpec.count_card_separators f)%nat.
Proof.
  intros Hrun Hnth.
  assert (Hj : (j < List.length ys)%nat)
    by (apply nth_error_Some; congruence).
  destruct (produce_run_length _ _ _ Hrun) as [Hlen _].
  assert (Hcand : nth_error (candidates f) j = Some c).
  { rewrite candidate_cards_run, Hrun.
    destruct r; simpl; [rewrite nth_error_app1|]; assumption. }
  destruct (candidate_cards_nth _ _ _ Hcand) as (raw & fs & Hraw & Hfs & ->).
  split; [|simpl; lia].
  unfold ParserSpec.raw_cards in Hraw. rewrite <- (raw_loop_count f []) in Hlen.
  destruct (ParserSpec.raw_loop [] f) as [c0 cs] eqn:Hloop. simpl in Hlen.
  assert (Hne : raw <> []) by (eapply raw_loop_nonempty; eauto; lia).
  destruct (compile_fields_nth _ _ _ _ Hfs) as (more & -> & Hmore & _).
  simpl. destruct more; [destruct raw; [congruence|discriminate]|discriminate].
Qed.

(** The cards yielded are candidates, at the same positions. *)
Lemma produce_cards_nth_candidate f j c :
  nth_error (fst (pcards f)) j = Some c ->
  nth_error (candidates f) j = Some c.
Proof.
  unfold produce_cards, candidate_cards.
  destruct (prun f) as [ys [last|e]]; simpl; [|trivial].
  destruct (CardM.has_data last); [trivial|].
  rewrite app_nil_r. intros H.
  rewrite nth_error_app1; [assumption|].
  apply nth_error_Some. congruence.
Qed.




End ParserProperties.

(* ================================================================== *)
(** * The card parser: emitted cards, candidates, field modes *)
(* ================================================================== *)

(** C1, as the code has it: every card yielded by [produce_cards] has at
    least one field, and the card yielded at the end of the input (the one
    whose number is the number [n] of card separators) has a field whose
    content is not only whitespace.  The test [has_data] guards that last
    card only.  A card that ends at a card separator is yielded without
    it: every candidate card with a number below [n] is yielded, at its
    place, whatever its fields hold; and when the end of the input is
    reached, the cards yielded are the [n] cards that end at the card
    separators, followed by the card in construction there exactly when it
    has data. *)
Theorem produce_cards_has_data_at_end :
  forall html highlight_markdown urlparse_path CONFIG W filename f,
    let n := ParserSpec.count_card_separators f in
    let yielded :=
      fst (produce_cards html highlight_markdown urlparse_path CONFIG W
             filename f) in
    let candidates :=
      candidate_cards html highlight_markdown urlparse_path CONFIG W
        filename f in
    (forall c, In c yielded ->
       fields c <> [] /\
       (file_index c = n -> CardM.has_data c = true)) /\
    (forall j c,
       (j < n)%nat -> nth_error candidates j = Some c ->
       nth_error yielded j = Some c) /\
    (forall ys last,
       produce_run html highlight_markdown urlparse_path CONFIG W filename f
       = (ys, Ok last) ->
       List.length ys = n /\
       (forall c, In c ys -> In c yielded) /\
       yielded
       = (ys ++ if CardM.has_data last then [last] else [])%list).
Proof.
  intros html hm up CONFIG W filename f n yielded candidates.
  subst yielded candidates. unfold produce_cards, candidate_cards.
  destruct (produce_run html hm up CONFIG W filename f) as [ys r] eqn:Hrun.
  destruct (produce_run_length _ _ _ _ _ _ _ _ _ Hrun) as [Hle Hlen].
  fold n in Hle, Hlen.
  split; [|split].
  - intros c Hin.
    assert (Hys : In c ys ->
                  fields c <> [] /\
                  (file_index c = n -> CardM.has_data c = true)).
    { intros Hc. apply In_nth_error in Hc. destruct Hc as [j Hj].
      destruct (yielded_at_separator _ _ _ _ _ _ _ _ _ _ _ Hrun Hj)
        as [H1 H2].
      fold n in H2. split; [exact H1 | lia]. }
    destruct r as [last|e]; simpl in Hin; [|auto].
    apply in_app_or in Hin. destruct Hin as [Hin|Hin]; [auto|].
    destruct (CardM.has_data last) eqn:Hdata; [|contradiction].
    destruct Hin as [<-|[]]. split; [|auto].
    unfold CardM.has_data in Hdata. destruct (fields last); discriminate.
  - intros j c Hj Hnth. destruct r as [last|e]; cbn [fst]; [|exact Hnth].
    assert (Hj' : (j < List.length ys)%nat)
      by (rewrite (Hlen last eq_refl); exact Hj).
    rewrite nth_error_app1 in Hnth by exact Hj'.
    now rewrite nth_error_app1 by exact Hj'.
  - intros ys' last' Heq. inversion Heq; subst ys' r. cbn [fst].
    split; [exact (Hlen last' eq_refl)|]. split; [|reflexivity].
    intros c Hc. apply in_or_app. now left.
Qed.

Lemma produce_cards_has_data_at_end_witness :
  let f := ["Front" ++ nl; "%" ++ nl; "Back" ++ nl] in
  let c := Sample.card "deck1/basic.md" 0 ["Front" ++ nl; "Back" ++ nl] in
  let g := ["---" ++ nl; "Front" ++ nl] in
  let blank := Sample.card "deck1/basic.md" 0 [EmptyString] in
  (In c (fst (Sample.produce_cards Sample.world "deck1/basic.md" f)) /\
   file_index c = ParserSpec.count_card_separators f /\
   fields c <> [] /\
   CardM.has_data c = true) /\
  (CardM.has_data blank = false /\
   nth_error (fst (Sample.produce_cards Sample.world "deck1/basic.md" g)) 0
   = Some blank).
Proof.
  intros f c g blank. split.
  - assert (Hin : In c (fst (Sample.produce_cards Sample.world
                               "deck1/basic.md" f)))
      by (vm_compute; left; reflexivity).
    assert (Hlast : file_index c = ParserSpec.count_card_separators f)
      by (vm_compute; reflexivity).
    destruct (produce_cards_has_data_at_end
                Sample.html Sample.highlight_markdown Sample.urlparse_path
                Sample.config Sample.world "deck1/basic.md" f)
      as (Hsafe & _ & _).
    destruct (Hsafe c Hin) as [Hfields Hdata].
    split; [exact Hin|]. split; [exact Hlast|].
    split; [exact Hfields | exact (Hdata Hlast)].
  - split; [reflexivity|].
    destruct (produce_cards_has_data_at_end
                Sample.html Sample.highlight_markdown Sample.urlparse_path
                Sample.config Sample.world "deck1/basic.md" g)
      as (_ & Hall & _).
    apply (Hall 0%nat blank); vm_compute; [lia | reflexivity].
Defined.

(** C1, as stated, fails: the document made of one card-separator line
    yields a card whose only field is empty. *)
Lemma produce_cards_yields_card_without_data :
  let c := Sample.card "deck1/basic.md" 0 [EmptyString] in
  In c (fst (Sample.produce_cards Sample.world "deck1/basic.md" ["---" ++ nl]))
  /\ CardM.has_data c = false.
Proof. split; [vm_compute; left; reflexivity | reflexivity]. Qed.



(** C3: the parser computes the cards of the raw fields of the document,
    each field compiled in markdown mode exactly when the card in
    construction has fewer than two fields at the moment the field ends.
    Hence, in every candidate card, the field at position [k] is the raw
    field at position [k] compiled in markdown mode when [k < 2], and the
    third field and the later ones are the raw text itself. *)
Theorem field_mode_by_position :
  forall html highlight_markdown urlparse_path CONFIG W filename f,
    let compile :=
      compile_field html highlight_markdown urlparse_path CONFIG W in
    produce_run html highlight_markdown urlparse_path CONFIG W filename f
    = (let '(c, cs) := ParserSpec.raw_loop [] f in
       ParserSpec.run_cards compile CONFIG filename 0
         (ParserSpec.compile_fields compile [] c) cs)
    /\
    forall j c,
      nth_error (candidate_cards html highlight_markdown urlparse_path
                   CONFIG W filename f) j = Some c ->
      exists raw,
        nth_error (ParserSpec.raw_cards f) j = Some raw /\
        List.length (fields c) = List.length raw /\
        forall k lines, nth_error raw k = Some lines ->
          exists field,
            nth_error (fields c) k = Some field /\
            compile lines (k <? 2)%nat = Ok field /\
            ((2 <= k)%nat -> field = PyStr.join EmptyString lines).
Proof.
  intros html hm up CONFIG W filename f compile. split.
  - apply produce_run_spec.
  - intros j c Hj.
    destruct (candidate_cards_nth _ _ _ _ _ _ _ _ _ Hj)
      as (raw & fs & Hraw & Hfs & ->).
    exists raw. split; [exact Hraw|].
    destruct (compile_fields_nth _ _ _ _ Hfs) as (more & -> & Hlen & Hnth).
    simpl. split; [exact Hlen|].
    intros k lines Hk. destruct (Hnth k lines Hk) as (field & H1 & H2).
    exists field. simpl in H2. repeat split; try assumption.
    intros Hk2. fold compile in H2.
    assert (Hmode : (k <? 2)%nat = false) by (apply Nat.ltb_ge; exact Hk2).
    rewrite Hmode in H2. unfold compile, compile_field in H2.
    now inversion H2.
Qed.

Lemma field_mode_by_position_witness :
  let f := ["a \( b" ++ nl; "%" ++ nl; "c" ++ nl; "%" ++ nl; "\( t" ++ nl;
            "---" ++ nl] in
  let c := Sample.card "deck1/basic.md" 0
             ["a \\( b" ++ nl; "c" ++ nl; "\( t" ++ nl] in
  nth_error (candidate_cards Sample.html Sample.highlight_markdown
               Sample.urlparse_path Sample.config Sample.world
               "deck1/basic.md" f) 0 = Some c /\
  nth_error (ParserSpec.raw_cards f) 0
  = Some [["a \( b" ++ nl]; ["c" ++ nl]; ["\( t" ++ nl]] /\
  exists field,
    nth_error (fields c) 2 = Some field /\
    Sample.compile_field Sample.config Sample.world ["\( t" ++ nl] false
    = Ok field /\
    field = "\( t" ++ nl.
Proof.
  intros f c.
  assert (Hc : nth_error (candidate_cards Sample.html
                            Sample.highlight_markdown Sample.urlparse_path
                            Sample.config Sample.world "deck1/basic.md" f) 0
               = Some c) by (vm_compute; reflexivity).
  assert (Hraw : nth_error (ParserSpec.raw_cards f) 0
                 = Some [["a \( b" ++ nl]; ["c" ++ nl]; ["\( t" ++ nl]])
    by (vm_compute; reflexivity).
  split; [exact Hc|]. split; [exact Hraw|].
  destruct (field_mode_by_position
              Sample.html Sample.highlight_markdown Sample.urlparse_path
              Sample.config Sample.world "deck1/basic.md" f) as [_ H].
  destruct (H 0%nat c Hc) as (raw & H1 & _ & H3).
  rewrite Hraw in H1. inversion H1; subst raw.
  destruct (H3 2%nat ["\( t" ++ nl] eq_refl) as (field & F1 & F2 & F3).
  exists field. split; [exact F1|]. split; [exact F2|].
  exact (F3 (le_n 2)).
Defined.

(** C9, as the code has it: a document made of a text without delimiter
    line yields at most one card.  When the text has a line, compiles, and
    its compiled form is not only whitespace, the document yields exactly
    one card, the card number 0, whose single field is the compiled form
    of the text; when the compiled form is only whitespace, or the text
    has no line, it yields no card; when the compilation raises, so does
    the parser, without a card. *)
Theorem no_delimiter_one_card :
  forall html highlight_markdown urlparse_path CONFIG W filename f,
    ParserSpec.no_delimiter f ->
    produce_cards html highlight_markdown urlparse_path CONFIG W filename f
    = match f with
      | [] => ([], None)
      | _ :: _ =>
          match compile_field html highlight_markdown urlparse_path CONFIG W
                  f true with
          | Ok field =>
              (if PyStr.is_empty (PyStr.strip field) then []
               else [ParserSpec.mk_card CONFIG filename 0 [field]], None)
          | Raise e => ([], Some e)
          end
      end.
Proof.
  intros html hm up CONFIG W filename f Hno.
  unfold produce_cards. rewrite produce_run_spec.
  rewrite (raw_loop_no_delimiter f [] Hno).
  destruct f as [|line f]; [reflexivity|].
  cbn [app ParserSpec.compile_fields List.length Nat.ltb Nat.leb].
  destruct (compile_field html hm up CONFIG W (line :: f) true) as [field|e];
    [|reflexivity].
  cbn [bind ParserSpec.compile_fields ParserSpec.run_cards app].
  unfold CardM.has_data. simpl.
  now destruct (PyStr.is_empty (PyStr.strip field)).
Qed.

Lemma no_delimiter_one_card_witness :
  let f := ["Only" ++ nl; "text" ++ nl] in
  ParserSpec.no_delimiter f /\
  Sample.produce_cards Sample.world "deck1/basic.md" f
  = ([Sample.card "deck1/basic.md" 0 ["Only" ++ nl ++ "text" ++ nl]], None).
Proof.
  assert (Hno : ParserSpec.no_delimiter ["Only" ++ nl; "text" ++ nl]).
  { intros line [<-|[<-|[]]]; split; vm_compute; discriminate. }
  split; [exact Hno|].
  unfold Sample.produce_cards.
  rewrite (no_delimiter_one_card
             Sample.html Sample.highlight_markdown Sample.urlparse_path
             Sample.config Sample.world "deck1/basic.md" _ Hno).
  vm_compute. reflexivity.
Defined.

(** C9, as stated, fails: the empty text has no delimiter line and yields
    no card. *)
Lemma empty_document_yields_no_card :
  ParserSpec.no_delimiter [] /\
  Sample.produce_cards Sample.world "deck1/basic.md" [] = ([], None).
Proof. split; [intros line [] | reflexivity]. Qed.

(* ================================================================== *)
(** * Identity of cards, decks and models *)
(* ================================================================== *)

Lemma simple_hash_bound text : (simple_hash text < 2 ^ 63)%N.
Proof. unfold simple_hash. apply N.mod_lt. discriminate. Qed.

(** A card yielded by [produce_cards] at position [j] is the card number
    [j] of the file, with the model of the configuration. *)
Lemma produce_cards_nth html highlight_markdown urlparse_path CONFIG W
    filename f j c :
  nth_error (fst (produce_cards html highlight_markdown urlparse_path CONFIG W
                    filename f)) j = Some c ->
  exists fs, c = ParserSpec.mk_card CONFIG filename j fs.
Proof.
  intros H. apply produce_cards_nth_candidate in H.
  apply candidate_cards_nth in H. destruct H as (raw & fs & _ & _ & ->).
  now exists fs.
Qed.

(** C5: the key of a card is the name of its deck, a slash, the base name
    of its source path and its index in the file, concatenated, and its
    numeric ID is the hash of that key, below 2^63.  The IDs depend on the
    path and the index only: two cards with the same path and index have
    the same ID and the same deck ID, whatever their fields and models, and
    the cards that two runs (with any renderers, configurations and
    worlds) yield at the same position for the same path have the same
    ID and the same deck ID. *)
Theorem card_identity_stable :
  (forall c,
     CardM.card_id c
     = CardM.deckname c ++ "/" ++ PosixPath.basename (filename c)
         ++ PyStr.of_nat (file_index c) /\
     CardM.guid c = simple_hash (CardM.card_id c) /\
     (CardM.guid c < 2 ^ 63)%N /\
     (simple_hash (CardM.deckname c) < 2 ^ 63)%N) /\
  (forall c1 c2,
     filename c1 = filename c2 -> file_index c1 = file_index c2 ->
     CardM.guid c1 = CardM.guid c2 /\
     simple_hash (CardM.deckname c1) = simple_hash (CardM.deckname c2)) /\
  (forall html1 hm1 up1 CONFIG1 W1 html2 hm2 up2 CONFIG2 W2 filename f1 f2
          j c1 c2,
     nth_error (fst (produce_cards html1 hm1 up1 CONFIG1 W1 filename f1)) j
       = Some c1 ->
     nth_error (fst (produce_cards html2 hm2 up2 CONFIG2 W2 filename f2)) j
       = Some c2 ->
     CardM.guid c1 = CardM.guid c2 /\
     simple_hash (CardM.deckname c1) = simple_hash (CardM.deckname c2)).
Proof.
  assert (Hsame : forall c1 c2,
             filename c1 = filename c2 -> file_index c1 = file_index c2 ->
             CardM.guid c1 = CardM.guid c2 /\
             simple_hash (CardM.deckname c1) = simple_hash (CardM.deckname c2)).
  { intros c1 c2 Hf Hi.
    unfold CardM.guid, CardM.card_id, CardM.deckname, CardM.deckdir,
      CardM.basename.
    now rewrite Hf, Hi. }
  split; [|split].
  - intros c. repeat split; try apply simple_hash_bound.
  - exact Hsame.
  - intros html1 hm1 up1 CONFIG1 W1 html2 hm2 up2 CONFIG2 W2 filename f1 f2
      j c1 c2 H1 H2.
    apply produce_cards_nth in H1, H2.
    destruct H1 as [fs1 ->], H2 as [fs2 ->].
    apply Hsame; reflexivity.
Qed.

Lemma card_identity_stable_witness :
  let c1 := Sample.card "deck1/card.md" 0 ["front"; "back"] in
  let c2 := ParserSpec.mk_card Sample.config' "deck1/card.md" 0 ["other"] in
  let d1 := Sample.card "deck1/card.md" 1 ["q" ++ nl] in
  let d2 := ParserSpec.mk_card Sample.config' "deck1/card.md" 1
              ["\\(x\\)" ++ nl] in
  CardM.card_id c1 = "deck1/card.md0" /\
  CardM.guid c1 = 4472501068217197871%N /\
  CardM.guid c1 = CardM.guid c2 /\
  simple_hash (CardM.deckname c1) = simple_hash (CardM.deckname c2) /\
  CardM.guid d1 = CardM.guid d2.
Proof.
  intros c1 c2 d1 d2.
  split; [reflexivity|]. split; [vm_compute; reflexivity|].
  destruct card_identity_stable as (_ & Hcards & Hruns).
  destruct (Hcards c1 c2 eq_refl eq_refl) as [Hguid Hdeck].
  split; [exact Hguid|]. split; [exact Hdeck|].
  destruct (Hruns Sample.html Sample.highlight_markdown Sample.urlparse_path
              Sample.config Sample.world
              Sample.html Sample.highlight_markdown Sample.urlparse_path
              Sample.config' Sample.world_404
              "deck1/card.md"
              ["---" ++ nl; "q" ++ nl] ["a" ++ nl; "---" ++ nl; "$x$" ++ nl]
              1%nat d1 d2) as [H _].
  - vm_compute. reflexivity.
  - vm_compute. reflexivity.
  - exact H.
Defined.

(** C10: the model ID of every card yielded by [produce_cards] is the hash
    of the configured model name; two configurations with the same
    [card_model_name] give all their cards the same model ID, whatever
    their style sheets, fields and templates. *)
Theorem model_id_depends_on_name_only :
  forall html1 hm1 up1 CONFIG1 W1 html2 hm2 up2 CONFIG2 W2
         filename1 f1 filename2 f2 c1 c2,
    card_model_name CONFIG1 = card_model_name CONFIG2 ->
    In c1 (fst (produce_cards html1 hm1 up1 CONFIG1 W1 filename1 f1)) ->
    In c2 (fst (produce_cards html2 hm2 up2 CONFIG2 W2 filename2 f2)) ->
    model_id (model c1) = simple_hash (card_model_name CONFIG1) /\
    model_id (model c1) = model_id (model c2) /\
    model_id (note_model (CardM.to_genanki_note c1))
    = model_id (note_model (CardM.to_genanki_note c2)).
Proof.
  intros html1 hm1 up1 CONFIG1 W1 html2 hm2 up2 CONFIG2 W2
    filename1 f1 filename2 f2 c1 c2 Hname H1 H2.
  apply In_nth_error in H1, H2. destruct H1 as [j1 H1], H2 as [j2 H2].
  apply produce_cards_nth in H1, H2.
  destruct H1 as [fs1 ->], H2 as [fs2 ->]. simpl.
  now rewrite Hname.
Qed.

Lemma model_id_depends_on_name_only_witness :
  let f := ["$x$ front" ++ nl; "%" ++ nl; "back" ++ nl] in
  let c1 := Sample.card "deck1/card.md" 0 ["$x$ front" ++ nl; "back" ++ nl] in
  let c2 := ParserSpec.mk_card Sample.config' "deck2/other.md" 0
              ["\\(x\\) front" ++ nl; "back" ++ nl] in
  card_model_name Sample.config = card_model_name Sample.config' /\
  card_model_css Sample.config <> card_model_css Sample.config' /\
  model_id (model c1) = 4117867386053217970%N /\
  model_id (model c1) = model_id (model c2).
Proof.
  split; [reflexivity|]. split; [discriminate|].
  destruct (model_id_depends_on_name_only
              Sample.html Sample.highlight_markdown Sample.urlparse_path
              Sample.config Sample.world
              Sample.html Sample.highlight_markdown Sample.urlparse_path
              Sample.config' Sample.world
              "deck1/card.md" ["$x$ front" ++ nl; "%" ++ nl; "back" ++ nl]
              "deck2/other.md" ["$x$ front" ++ nl; "%" ++ nl; "back" ++ nl]
              (Sample.card "deck1/card.md" 0 ["$x$ front" ++ nl; "back" ++ nl])
              (ParserSpec.mk_card Sample.config' "deck2/other.md" 0
                 ["\\(x\\) front" ++ nl; "back" ++ nl]))
    as (H1 & H2 & _).
  - reflexivity.
  - vm_compute. left. reflexivity.
  - vm_compute. left. reflexivity.
  - split; [rewrite H1; vm_compute; reflexivity | exact H2].
Defined.

(* ================================================================== *)
(** * Media references *)
(* ================================================================== *)

Lemma prefix_empty s : prefix EmptyString s = true.
Proof. now destruct s. Qed.

Lemma prefix_append u : forall b, prefix u (u ++ b) = true.
Proof.
  induction u as [|c u IH]; intros b; simpl; [apply prefix_empty|].
  destruct (ascii_dec c c); [apply IH | congruence].
Qed.

Lemma prefix_split p : forall s,
  prefix p s = true -> s = p ++ PyStr.drop (String.length p) s.
Proof.
  induction p as [|c p IH]; intros s H; [reflexivity|].
  destruct s as [|d s]; simpl in H; [discriminate|].
  destruct (ascii_dec c d); [subst|discriminate].
  simpl. f_equal. now apply IH.
Qed.

Lemma contains_here sub s : prefix sub s = true -> PyStr.contains sub s = true.
Proof. intros H. destruct s; simpl in *; rewrite H; reflexivity. Qed.

Lemma contains_later sub c s :
  PyStr.contains sub s = true -> PyStr.contains sub (String c s) = true.
Proof.
  intros H. cbn [PyStr.contains]. rewrite H. apply orb_true_r.
Qed.

Lemma contains_append sub : forall a b,
  PyStr.contains sub (a ++ sub ++ b) = true.
Proof.
  induction a as [|c a IH]; intros b.
  - simpl. apply contains_here, prefix_append.
  - simpl. apply contains_later, IH.
Qed.

Lemma append_assoc (a b c : string) : (a ++ b) ++ c = a ++ b ++ c.
Proof. induction a; simpl; [reflexivity | now f_equal]. Qed.

Lemma until_quote_split : forall s ref,
  CardM.until_quote s = Some ref ->
  exists rest, s = ref ++ CardM.close_quote ++ rest.
Proof.
  induction s as [|d s IH]; intros ref H; simpl in H; [discriminate|].
  destruct (Ascii.eqb d dquote) eqn:Hd.
  - apply Ascii.eqb_eq in Hd. inversion H; subst. now exists s.
  - destruct (CardM.until_quote s) as [r|]; [|discriminate].
    inversion H; subst. destruct (IH r eq_refl) as [rest ->].
    now exists rest.
Qed.

(** Joining with the percent sign what was split at the slashes replaces
    every slash by a percent sign. *)
Lemma join_split_separators : forall ref,
  PyStr.join "%" (PyStr.split PosixPath.sep ref) = replace_separators ref.
Proof.
  assert (Hcons : forall c h t,
             concat "%" (String c h :: t) = String c (concat "%" (h :: t)))
    by (intros c h [|x t]; reflexivity).
  unfold PyStr.join, PyStr.split, PosixPath.sep.
  induction ref as [|c r IH]; [reflexivity|].
  cbn [PyStr.split_go replace_separators prefix String.length Nat.sub].
  destruct (PyStr.split_go "/" 0 r) as [h t].
  destruct (ascii_dec "/" c) as [<-|Hc].
  - rewrite prefix_empty. simpl in *. now rewrite IH.
  - rewrite Hcons, IH. f_equal.
    destruct (Ascii.eqb c "/") eqn:E; [|reflexivity].
    apply Ascii.eqb_eq in E. congruence.
Qed.

Lemma sub_src_refs c : forall s skip p,
  In p (snd (CardM.sub_src c skip s)) ->
  exists ref,
    PyStr.contains (CardM.src_open ++ ref ++ CardM.close_quote) s = true /\
    p = CardM.make_ref_pair c ref.
Proof.
  induction s as [|d s IH]; intros skip p H; [contradiction|].
  cbn [CardM.sub_src] in H.
  destruct skip as [|k].
  - destruct (if prefix CardM.src_open (String d s)
              then CardM.until_quote
                     (PyStr.drop (String.length CardM.src_open) (String d s))
              else None) as [ref|] eqn:Hm.
    + destruct (CardM.make_ref_pair c ref) as [abspath newpath] eqn:Hpair.
      destruct (CardM.sub_src c
                  (String.length CardM.src_open + String.length ref) s)
        as [out results] eqn:Hrec.
      destruct H as [<-|H].
      * exists ref. split; [|now rewrite Hpair].
        destruct (prefix CardM.src_open (String d s)) eqn:Hp; [|discriminate].
        apply prefix_split in Hp. apply until_quote_split in Hm.
        destruct Hm as [rest Hrest].
        assert (E : String d s
                    = (CardM.src_open ++ ref ++ CardM.close_quote) ++ rest)
          by (rewrite Hp, Hrest; now rewrite !append_assoc).
        rewrite E. apply contains_here, prefix_append.
      * destruct (IH (String.length CardM.src_open + String.length ref)%nat p)
          as (r & H1 & H2); [now rewrite Hrec|].
        exists r. split; [now apply contains_later | exact H2].
    + destruct (CardM.sub_src c 0 s) as [out results] eqn:Hrec.
      destruct (IH 0%nat p) as (r & H1 & H2); [now rewrite Hrec|].
      exists r. split; [now apply contains_later | exact H2].
  - destruct (IH k p H) as (r & H1 & H2).
    exists r. split; [now apply contains_later | exact H2].
Qed.

Lemma media_of_fields_refs c : forall fs p,
  In p (fst (CardM.media_of_fields c fs)) ->
  exists ref field,
    In field fs /\
    PyStr.contains (CardM.src_open ++ ref ++ CardM.close_quote) field = true /\
    p = CardM.make_ref_pair c ref.
Proof.
  induction fs as [|field fs IH]; intros p H; [contradiction|].
  cbn [CardM.media_of_fields] in H.
  destruct (CardM.sub_src c 0 field) as [stage results] eqn:Hsub.
  destruct (CardM.media_of_fields c fs) as [more rest].
  simpl in H. apply in_app_or in H. destruct H as [H|H].
  - destruct (sub_src_refs c field 0 p) as (ref & H1 & H2);
      [now rewrite Hsub|].
    exists ref, field. split; [now left | now split].
  - destruct (IH p H) as (ref & fld & H0 & H1 & H2).
    exists ref, fld. split; [now right | now split].
Qed.

(** C7: the pair made for a media reference has, as package name, the
    reference with every path separator replaced by the percent sign, and
    as path the reference itself when it is absolute, else the reference
    joined to the directory of the source document of the card and
    normalized; every pair that [determine_media_references] yields is
    the pair of a reference found, between [src_open] and a double quote,
    in a field of the card; and the reference [images/diagram.png] of a
    document at [deck1/card.md] resolves to [deck1/images/diagram.png] and
    flattens to [images%diagram.png]. *)
Theorem make_ref_pair_resolves :
  (forall c ref,
     snd (CardM.make_ref_pair c ref) = replace_separators ref /\
     (PosixPath.isabs ref = true -> fst (CardM.make_ref_pair c ref) = ref) /\
     (PosixPath.isabs ref = false ->
      fst (CardM.make_ref_pair c ref)
      = PosixPath.normpath
          (PosixPath.join (PosixPath.dirname (filename c)) ref))) /\
  (forall c p,
     In p (fst (CardM.determine_media_references c)) ->
     exists ref field,
       In field (fields c) /\
       PyStr.contains (CardM.src_open ++ ref ++ CardM.close_quote) field
       = true /\
       p = CardM.make_ref_pair c ref) /\
  (forall c,
     filename c = "deck1/card.md" ->
     CardM.make_ref_pair c "images/diagram.png"
     = ("deck1/images/diagram.png", "images%diagram.png")).
Proof.
  split; [|split].
  - intros c ref. unfold CardM.make_ref_pair. cbn [fst snd].
    split; [apply join_split_separators|].
    split; intros ->; reflexivity.
  - intros c p H. unfold CardM.determine_media_references in H.
    destruct (CardM.media_of_fields c (fields c)) as [refs fs] eqn:Hm.
    apply (media_of_fields_refs c (fields c) p). now rewrite Hm.
  - intros c Hc. unfold CardM.make_ref_pair, CardM.deckdir. rewrite Hc.
    reflexivity.
Qed.

Lemma make_ref_pair_resolves_witness :
  let field := "<img src=" ++ CardM.close_quote ++ "images/diagram.png"
                 ++ CardM.close_quote ++ ">" in
  let c := Sample.card "deck1/card.md" 0 [field] in
  let p := ("deck1/images/diagram.png", "images%diagram.png") in
  PosixPath.isabs "images/diagram.png" = false /\
  CardM.determine_media_references c
  = ([p],
     Sample.card "deck1/card.md" 0
       ["<img src=" ++ CardM.close_quote ++ "images%diagram.png"
          ++ CardM.close_quote ++ ">"]) /\
  fst (CardM.make_ref_pair c "images/diagram.png")
  = PosixPath.normpath (PosixPath.join "deck1" "images/diagram.png") /\
  CardM.make_ref_pair c "images/diagram.png" = p /\
  (exists ref, p = CardM.make_ref_pair c ref) /\
  fst (CardM.make_ref_pair c "/srv/media/a.png") = "/srv/media/a.png".
Proof.
  intros field c p.
  destruct make_ref_pair_resolves as (Hpair & Hfound & Hexample).
  split; [reflexivity|]. split; [reflexivity|].
  destruct (Hpair c "images/diagram.png") as (_ & _ & Hrel).
  destruct (Hpair c "/srv/media/a.png") as (_ & Habs & _).
  split; [exact (Hrel eq_refl)|]. split; [exact (Hexample c eq_refl)|].
  split; [|exact (Habs eq_refl)].
  destruct (Hfound c p) as (ref & fld & _ & _ & Hp).
  - left. reflexivity.
  - exists ref. exact Hp.
Defined.

(* ================================================================== *)
(** * Deck assembly *)
(* ================================================================== *)

Lemma decks_get_set_same : forall decks k d,
  Decks.get (Decks.set decks k d) k = Some d.
Proof.
  induction decks as [|[k' d'] decks IH]; intros k d; simpl.
  - now rewrite String.eqb_refl.
  - destruct (k' =? k) eqn:E; simpl; rewrite E; [reflexivity | apply IH].
Qed.

Lemma decks_get_set_other : forall decks k d k',
  k <> k' -> Decks.get (Decks.set decks k d) k' = Decks.get decks k'.
Proof.
  induction decks as [|[k0 d0] decks IH]; intros k d k' Hne; simpl.
  - apply String.eqb_neq in Hne. now rewrite Hne.
  - destruct (k0 =? k) eqn:E; simpl.
    + apply String.eqb_eq in E. subst.
      apply String.eqb_neq in Hne. now rewrite Hne.
    + destruct (k0 =? k'); [reflexivity | now apply IH].
Qed.

Lemma decks_set_keys : forall decks k d,
  NoDup (map fst decks) -> NoDup (map fst (Decks.set decks k d)) /\
  forall k', In k' (map fst (Decks.set decks k d)) ->
             k' = k \/ In k' (map fst decks).
Proof.
  induction decks as [|[k0 d0] decks IH]; intros k d Hnd; simpl.
  - split; [repeat constructor; intros [] | intros k' [<-|[]]; now left].
  - inversion Hnd as [|? ? Hnotin Hnd']; subst.
    destruct (k0 =? k) eqn:E; simpl.
    + split; [now constructor | intros k' Hk'; now right].
    + destruct (IH k d Hnd') as [H1 H2]. split.
      * constructor; [|exact H1]. intros Hin.
        destruct (H2 _ Hin) as [->|Hin']; [|contradiction].
        now rewrite String.eqb_refl in E.
      * intros k' [<-|Hk']; [right; now left|].
        destruct (H2 _ Hk') as [->|Hin']; [now left | right; now right].
Qed.

(** The deck under a name after [decks[deckname].add_note(note)]. *)
Lemma decks_get_add decks k note k' :
  Decks.get (Decks.add decks k note) k'
  = if k =? k' then
      Some (add_note
              match Decks.get decks k with
              | Some d => d
              | None => {| deck_id := simple_hash k; deck_name := k;
                           notes := [] |}
              end note)
    else Decks.get decks k'.
Proof.
  unfold Decks.add, Decks.getitem.
  destruct (k =? k') eqn:E.
  - apply String.eqb_eq in E. subst k'.
    destruct (Decks.get decks k); apply decks_get_set_same.
  - apply String.eqb_neq in E.
    destruct (Decks.get decks k);
      rewrite !decks_get_set_other by exact E; reflexivity.
Qed.

Lemma decks_add_keys decks k note :
  NoDup (map fst decks) -> NoDup (map fst (Decks.add decks k note)).
Proof.
  intros Hnd. unfold Decks.add, Decks.getitem.
  destruct (Decks.get decks k).
  - now apply decks_set_keys.
  - apply decks_set_keys. now apply decks_set_keys.
Qed.

Lemma deckname_note_of card :
  CardM.deckname
    (snd (CardM.determine_media_references (CardM.finalize card)))
  = CardM.deckname card.
Proof.
  unfold CardM.determine_media_references.
  destruct (CardM.media_of_fields _ _) as [refs fs]. cbn [snd].
  unfold CardM.finalize. now destruct (3 <? _)%nat.
Qed.

Section AssemblerFacts.

Variable W : World.

Lemma assemble_card_decks decks media card decks' media' :
  assemble_card W (decks, media) card = Ok (decks', media') ->
  decks' = Decks.add decks (CardM.deckname card) (note_of card).
Proof.
  unfold assemble_card, note_of. rewrite <- (deckname_note_of card).
  destruct (CardM.determine_media_references (CardM.finalize card))
    as [refs card'].
  cbn [snd]. destruct (stage_media W media refs); simpl; [|discriminate].
  now inversion 1.
Qed.

(** The deck under each name once the cards are assembled: the deck that
    was there, or a new deck with the hash of the name as ID, extended with
    the notes of the cards of that deck name, in order. *)
Lemma assemble_decks : forall cards decks media decks' media',
  assemble W (decks, media) cards = Ok (decks', media') ->
  forall k,
    Decks.get decks' k
    = let new := map note_of
                     (filter (fun c => CardM.deckname c =? k) cards) in
      match Decks.get decks k with
      | Some d => Some {| deck_id := deck_id d; deck_name := deck_name d;
                          notes := (notes d ++ new)%list |}
      | None =>
          if existsb (fun c => CardM.deckname c =? k) cards
          then Some {| deck_id := simple_hash k; deck_name := k;
                       notes := new |}
          else None
      end.
Proof.
  induction cards as [|card cards IH]; intros decks media decks' media' H k.
  - simpl in H. inversion H; subst. simpl.
    destruct (Decks.get decks' k) as [[? ? ?]|]; [|reflexivity].
    simpl. now rewrite app_nil_r.
  - cbn [assemble] in H.
    destruct (assemble_card W (decks, media) card) as [[decks1 media1]|e]
      eqn:Hcard; [|discriminate].
    cbn [bind] in H. apply assemble_card_decks in Hcard. subst decks1.
    rewrite (IH _ _ _ _ H k), decks_get_add. cbn [filter existsb map].
    destruct (CardM.deckname card =? k) eqn:E.
    + apply String.eqb_eq in E. subst k.
      destruct (Decks.get decks (CardM.deckname card)) as [d|]; simpl.
      * now rewrite <- app_assoc.
      * reflexivity.
    + reflexivity.
Qed.

Lemma assemble_keys : forall cards decks media decks' media',
  assemble W (decks, media) cards = Ok (decks', media') ->
  NoDup (map fst decks) -> NoDup (map fst decks').
Proof.
  induction cards as [|card cards IH]; intros decks media decks' media' H Hnd.
  - simpl in H. now inversion H; subst.
  - cbn [assemble] in H.
    destruct (assemble_card W (decks, media) card) as [[decks1 media1]|e]
      eqn:Hcard; [|discriminate].
    cbn [bind] in H. apply assemble_card_decks in Hcard. subst decks1.
    eapply IH; [exact H|]. now apply decks_add_keys.
Qed.

Lemma stage_media_total :
  (forall src dst, copyfile W src dst = None) ->
  forall refs media, exists media', stage_media W media refs = Ok media'.
Proof.
  intros Hcopy. induction refs as [|[abspath newpath] refs IH]; intros media.
  - now exists media.
  - simpl. rewrite Hcopy. apply IH.
Qed.

Lemma assemble_total :
  (forall src dst, copyfile W src dst = None) ->
  forall cards st, exists st', assemble W st cards = Ok st'.
Proof.
  intros Hcopy. induction cards as [|card cards IH]; intros [decks media].
  - now exists (decks, media).
  - cbn [assemble]. unfold assemble_card.
    destruct (CardM.determine_media_references (CardM.finalize card))
      as [refs card'].
    destruct (stage_media_total Hcopy refs media) as [media' ->].
    cbn [bind]. apply IH.
Qed.

End AssemblerFacts.

(** C4, as the code has it: the deck of a card is the deck stored under
    the base name of the directory of its source document.  Once the
    cards are assembled, each deck name is stored once; the deck under a
    name has that name, the hash of that name as ID, and holds the notes
    of exactly the cards whose directory has that base name, in order.
    Hence the cards of two documents are attached to the same deck exactly
    when the directories of the documents have the same base name; in
    particular the documents of one directory always share a deck.  The
    assembly does end without an exception when every copy succeeds. *)
Theorem decks_group_by_directory_name :
  forall W cards,
    ((forall src dst, copyfile W src dst = None) ->
     exists r, cards_to_apkg W (cards, None) = Ok r) /\
    forall decks package,
      cards_to_apkg W (cards, None) = Ok (decks, package) ->
      NoDup (map fst decks) /\
      package_decks package = map snd decks /\
      (forall k,
         Decks.get decks k
         = if existsb (fun c => CardM.deckname c =? k) cards
           then Some {| deck_id := simple_hash k;
                        deck_name := k;
                        notes := map note_of
                                   (filter (fun c => CardM.deckname c =? k)
                                           cards) |}
           else None) /\
      (forall c, In c cards ->
         CardM.deckname c = PosixPath.basename (PosixPath.dirname (filename c))
         /\ exists d,
           Decks.get decks (CardM.deckname c) = Some d /\
           deck_name d = CardM.deckname c /\
           deck_id d = simple_hash (deck_name d) /\
           In (note_of c) (notes d)) /\
      (forall c1 c2, In c1 cards -> In c2 cards ->
         PosixPath.dirname (filename c1) = PosixPath.dirname (filename c2) ->
         Decks.get decks (CardM.deckname c1)
         = Decks.get decks (CardM.deckname c2)) /\
      (forall c1 c2 d1 d2, In c1 cards -> In c2 cards ->
         Decks.get decks (CardM.deckname c1) = Some d1 ->
         Decks.get decks (CardM.deckname c2) = Some d2 ->
         (d1 = d2 <-> CardM.deckname c1 = CardM.deckname c2)).
Proof.
  intros W cards. split.
  - intros Hcopy. unfold cards_to_apkg. cbn [fst snd].
    destruct (assemble_total W Hcopy cards ([], [])) as [st ->].
    cbn [bind]. eauto.
  - intros decks package H. unfold cards_to_apkg in H. cbn [fst snd] in H.
    destruct (assemble W ([], []) cards) as [[decks' media']|e] eqn:Ha;
      [|discriminate].
    cbn [bind fst snd] in H. inversion H; subst; clear H.
    assert (Hget := assemble_decks W _ _ _ _ _ Ha). cbn [Decks.get] in Hget.
    assert (Hin : forall c, In c cards ->
              existsb (fun c' => CardM.deckname c' =? CardM.deckname c) cards
              = true).
    { intros c Hc. apply existsb_exists. exists c.
      split; [exact Hc | apply String.eqb_refl]. }
    split; [eapply assemble_keys; [exact Ha | constructor]|].
    split; [reflexivity|]. split; [exact Hget|]. split; [|split].
    + intros c Hc. split; [reflexivity|].
      eexists. rewrite Hget, (Hin c Hc). split; [reflexivity|].
      cbn [deck_name deck_id notes]. repeat split.
      apply in_map, filter_In. split; [exact Hc | apply String.eqb_refl].
    + intros c1 c2 _ _ Hdir. unfold CardM.deckname, CardM.deckdir.
      now rewrite Hdir.
    + intros c1 c2 d1 d2 Hc1 Hc2 H1 H2.
      rewrite Hget, (Hin c1 Hc1) in H1. rewrite Hget, (Hin c2 Hc2) in H2.
      inversion H1; inversion H2; subst. split.
      * intros Heq. now inversion Heq.
      * intros Heq. now rewrite Heq.
Qed.

Lemma decks_group_by_directory_name_witness :
  let c1 := Sample.card "cards/deck1/a.md" 0 ["q1"; "a1"] in
  let c2 := Sample.card "cards/deck1/b.md" 0 ["q2"; "a2"] in
  let c3 := Sample.card "cards/deck2/c.md" 0 ["q3"; "a3"] in
  (forall src dst, copyfile Sample.world src dst = None) /\
  exists decks package,
    cards_to_apkg Sample.world ([c1; c2; c3], None) = Ok (decks, package) /\
    map fst decks = ["deck1"; "deck2"] /\
    Decks.get decks "deck1"
    = Some {| deck_id := simple_hash "deck1"; deck_name := "deck1";
              notes := [note_of c1; note_of c2] |} /\
    Decks.get decks (CardM.deckname c1) = Decks.get decks (CardM.deckname c2) /\
    exists d3,
      Decks.get decks (CardM.deckname c3) = Some d3 /\
      deck_name d3 = "deck2" /\ In (note_of c3) (notes d3).
Proof.
  intros c1 c2 c3.
  split; [reflexivity|].
  destruct (decks_group_by_directory_name Sample.world [c1; c2; c3])
    as [Htotal Hdecks].
  destruct Htotal as [[decks package] Hrun]; [reflexivity|].
  exists decks, package. split; [exact Hrun|].
  destruct (Hdecks decks package Hrun) as (_ & _ & Hget & Hcard & Hdir & _).
  split; [vm_compute in Hrun; inversion Hrun; reflexivity|].
  split; [rewrite Hget; reflexivity|].
  split.
  - apply Hdir; [left; reflexivity | right; left; reflexivity | reflexivity].
  - destruct (Hcard c3) as (_ & d3 & H1 & H2 & _ & H4).
    + right. right. left. reflexivity.
    + exists d3. split; [exact H1|]. split; [exact H2 | exact H4].
Defined.

(** C4, as stated, fails: two documents in different directories that
    have the same base name contribute to one deck. *)
Lemma different_directories_same_deck :
  let c1 := Sample.card "cards/a/verbs/f.md" 0 ["q1" ++ nl; "a1" ++ nl] in
  let c2 := Sample.card "cards/b/verbs/g.md" 0 ["q2" ++ nl; "a2" ++ nl] in
  PosixPath.dirname (filename c1) <> PosixPath.dirname (filename c2) /\
  fst (Sample.produce_cards Sample.world "cards/a/verbs/f.md"
         ["q1" ++ nl; "%" ++ nl; "a1" ++ nl]) = [c1] /\
  fst (Sample.produce_cards Sample.world "cards/b/verbs/g.md"
         ["q2" ++ nl; "%" ++ nl; "a2" ++ nl]) = [c2] /\
  exists package,
    cards_to_apkg Sample.world ([c1; c2], None)
    = Ok ([("verbs",
            {| deck_id := simple_hash "verbs"; deck_name := "verbs";
               notes := [note_of c1; note_of c2] |})], package).
Proof.
  split; [vm_compute; discriminate|].
  split; [vm_compute; reflexivity|]. split; [vm_compute; reflexivity|].
  eexists. vm_compute. reflexivity.
Qed.

(* ================================================================== *)
(** * Dollar mode *)
(* ================================================================== *)

Lemma prefix_cons a p b s :
  prefix (String a p) (String b s) = Ascii.eqb a b && prefix p s.
Proof.
  simpl. destruct (ascii_dec a b) as [->|Hne].
  - now rewrite Ascii.eqb_refl.
  - apply Ascii.eqb_neq in Hne. now rewrite Hne.
Qed.

Section DollarFacts.

Import Dollar.

(** A plain text is not split at the single dollar. *)
Lemma split1_plain : forall s ab,
  plain_from ab s = true -> re_split_go "$" ab 0 s = (s, []).
Proof.
  induction s as [|c s IH]; intros ab H; [reflexivity|].
  cbn [plain_from] in H. apply andb_prop in H. destruct H as [Hc Hs].
  cbn [re_split_go]. rewrite prefix_cons, prefix_empty, andb_true_r.
  rewrite Ascii.eqb_sym.
  destruct (Ascii.eqb c "$"); [rewrite Hc|]; cbn [negb andb];
    rewrite ?andb_false_r; now rewrite (IH _ Hs).
Qed.

(** A plain text followed by a dollar is the first piece of the split. *)
Lemma split1_joint : forall s ab t,
  plain_from ab s = true ->
  re_split_go "$" ab 0 (s ++ "$" ++ t) = (s, re_split "$" t).
Proof.
  induction s as [|c s IH]; intros ab t H.
  - simpl in H. apply negb_true_iff in H. subst ab.
    unfold re_split. cbn. rewrite prefix_empty.
    now destruct (re_split_go "$" false 0 t).
  - cbn [plain_from] in H. apply andb_prop in H. destruct H as [Hc Hs].
    change (String c s ++ "$" ++ t) with (String c (s ++ "$" ++ t)).
    cbn [re_split_go]. rewrite prefix_cons, prefix_empty, andb_true_r.
    rewrite Ascii.eqb_sym.
    destruct (Ascii.eqb c "$"); [rewrite Hc|]; cbn [negb andb];
      rewrite ?andb_false_r; now rewrite (IH _ _ Hs).
Qed.

Lemma split2_plain : forall s ab,
  plain_from ab s = true -> re_split_go "$$" ab 0 s = (s, []).
Proof.
  induction s as [|c s IH]; intros ab H; [reflexivity|].
  cbn [plain_from] in H. apply andb_prop in H. destruct H as [Hc Hs].
  cbn [re_split_go]. rewrite prefix_cons. rewrite Ascii.eqb_sym.
  destruct (Ascii.eqb c "$"); [rewrite Hc|]; cbn [negb andb];
    rewrite ?andb_false_r; now rewrite (IH _ Hs).
Qed.

Lemma split2_joint : forall s ab t,
  plain_from ab s = true ->
  re_split_go "$$" ab 0 (s ++ "$$" ++ t) = (s, re_split "$$" t).
Proof.
  induction s as [|c s IH]; intros ab t H.
  - simpl in H. apply negb_true_iff in H. subst ab.
    unfold re_split. cbn. rewrite prefix_empty.
    now destruct (re_split_go "$$" false 0 t).
  - cbn [plain_from] in H. apply andb_prop in H. destruct H as [Hc Hs].
    change (String c s ++ "$$" ++ t) with (String c (s ++ "$$" ++ t)).
    cbn [re_split_go]. rewrite prefix_cons. rewrite Ascii.eqb_sym.
    destruct (Ascii.eqb c "$"); [rewrite Hc|]; cbn [negb andb];
      rewrite ?andb_false_r; now rewrite (IH _ _ Hs).
Qed.

Lemma all_plain_cons (x : string) (l : list string) :
  (forall y, In y (x :: l) -> plain y = true) ->
  plain x = true /\ (forall y, In y l -> plain y = true).
Proof.
  intros H. split; [apply H; now left | intros y Hy; apply H; now right].
Qed.

Lemma re_split1_join : forall segs,
  segs <> [] -> (forall x, In x segs -> plain x = true) ->
  re_split "$" (PyStr.join "$" segs) = segs.
Proof.
  induction segs as [|x segs IH]; intros Hne Hall; [congruence|].
  apply all_plain_cons in Hall. destruct Hall as [Hx Hrest].
  destruct segs as [|y segs].
  - unfold re_split. simpl. now rewrite (split1_plain x false Hx).
  - unfold re_split. change (PyStr.join "$" (x :: y :: segs))
      with (x ++ "$" ++ PyStr.join "$" (y :: segs)).
    rewrite (split1_joint x false _ Hx).
    rewrite IH; [reflexivity | discriminate | exact Hrest].
Qed.

Lemma re_split2_join : forall segs,
  segs <> [] -> (forall x, In x segs -> plain x = true) ->
  re_split "$$" (PyStr.join "$$" segs) = segs.
Proof.
  induction segs as [|x segs IH]; intros Hne Hall; [congruence|].
  apply all_plain_cons in Hall. destruct Hall as [Hx Hrest].
  destruct segs as [|y segs].
  - unfold re_split. simpl. now rewrite (split2_plain x false Hx).
  - unfold re_split. change (PyStr.join "$$" (x :: y :: segs))
      with (x ++ "$$" ++ PyStr.join "$$" (y :: segs)).
    rewrite (split2_joint x false _ Hx).
    rewrite IH; [reflexivity | discriminate | exact Hrest].
Qed.

Lemma join_dollar_tail x rest :
  PyStr.join "$" (x :: rest) = x ++ dollar_tail rest.
Proof.
  revert x. induction rest as [|y r IH]; intros x; simpl.
  - induction x; simpl; [reflexivity | now f_equal].
  - f_equal. f_equal. apply IH.
Qed.

Lemma split2_before_tail tail :
  re_split_go "$$" false 0 tail = (tail, []) ->
  forall s ab, plain_from ab s = true ->
    re_split_go "$$" ab 0 (s ++ tail) = (s ++ tail, []).
Proof.
  intros Htail. induction s as [|c s IH]; intros ab H.
  - simpl in H. apply negb_true_iff in H. now subst ab.
  - cbn [plain_from] in H. apply andb_prop in H. destruct H as [Hc Hs].
    cbn [append re_split_go]. rewrite prefix_cons. rewrite Ascii.eqb_sym.
    destruct (Ascii.eqb c "$"); [rewrite Hc|]; cbn [negb andb];
      rewrite ?andb_false_r; now rewrite (IH _ Hs).
Qed.

Lemma plain_first_not_dollar y r :
  plain (String y r) = true -> Ascii.eqb y "$" = false.
Proof.
  unfold plain. cbn [plain_from]. destruct (Ascii.eqb y "$"); [|reflexivity].
  discriminate.
Qed.

(** Single dollars between plain pieces make no double dollar, when the
    pieces between two dollars are not empty. *)
Lemma split2_dollar_tail : forall rest,
  (forall y, In y rest -> plain y = true) ->
  (forall y, In y (removelast rest) -> y <> EmptyString) ->
  re_split_go "$$" false 0 (dollar_tail rest) = (dollar_tail rest, []).
Proof.
  induction rest as [|y r IH]; intros Hall Hinner; [reflexivity|].
  apply all_plain_cons in Hall. destruct Hall as [Hy Hr].
  assert (Hnext : re_split_go "$$" false 0 (y ++ dollar_tail r)
                  = (y ++ dollar_tail r, [])).
  { apply split2_before_tail; [|exact Hy].
    apply IH; [exact Hr|]. intros z Hz. apply Hinner.
    destruct r; [contradiction | now right]. }
  cbn [dollar_tail append re_split_go negb andb].
  assert (Hp : prefix "$$" (String "$" (y ++ dollar_tail r)) = false).
  { rewrite prefix_cons. cbn [Ascii.eqb Bool.eqb andb].
    destruct y as [|c y'].
    - destruct r as [|z r']; [reflexivity|].
      exfalso. apply (Hinner EmptyString); [now left | reflexivity].
    - cbn [append]. rewrite prefix_cons, Ascii.eqb_sym.
      now rewrite (plain_first_not_dollar _ _ Hy). }
  rewrite Hp. cbn [Ascii.eqb Bool.eqb andb]. now rewrite Hnext.
Qed.

Lemma plain_from_append : forall a ab b,
  plain_from ab a = true -> plain b = true -> plain_from ab (a ++ b) = true.
Proof.
  induction a as [|c a IH]; intros ab b Ha Hb.
  - simpl in Ha. apply negb_true_iff in Ha. now subst ab.
  - cbn [plain_from] in Ha. apply andb_prop in Ha. destruct Ha as [Hc Ha].
    cbn [append plain_from]. rewrite Hc. now apply IH.
Qed.

Lemma plain_wrapped op cl : forall segs odd,
  plain op = true -> plain cl = true ->
  (forall x, In x segs -> plain x = true) ->
  plain (PyStr.join EmptyString (wrap_odd op cl odd segs)) = true.
Proof.
  assert (Hcat : forall x l, plain x = true ->
            plain (PyStr.join EmptyString l) = true ->
            plain (PyStr.join EmptyString (x :: l)) = true).
  { intros x [|y l] Hx Hl; [exact Hx|].
    change (PyStr.join EmptyString (x :: y :: l))
      with (x ++ EmptyString ++ PyStr.join EmptyString (y :: l)).
    now apply plain_from_append. }
  induction segs as [|x segs IH]; intros odd Hop Hcl Hall; [reflexivity|].
  apply all_plain_cons in Hall. destruct Hall as [Hx Hrest].
  cbn [wrap_odd]. apply Hcat; [|now apply IH].
  destruct odd; [|exact Hx].
  apply plain_from_append; [exact Hop|].
  now apply plain_from_append.
Qed.

(** Pieces between double dollars: the odd ones become block math. *)
Lemma rewrite_blocks segs :
  segs <> [] -> (forall x, In x segs -> plain x = true) ->
  rewrite (PyStr.join "$$" segs)
  = PyStr.join EmptyString (wrap_odd "\\[" "\\]" false segs).
Proof.
  intros Hne Hall. unfold rewrite, delimiters. cbn [fold_left].
  unfold pass at 2. rewrite (re_split2_join segs Hne Hall).
  unfold pass, re_split.
  rewrite split1_plain; [reflexivity|].
  now apply plain_wrapped.
Qed.

(** Pieces between single dollars: the odd ones become inline math. *)
Lemma rewrite_inlines segs :
  segs <> [] -> (forall x, In x segs -> plain x = true) ->
  inner_nonempty segs ->
  rewrite (PyStr.join "$" segs)
  = PyStr.join EmptyString (wrap_odd "\\(" "\\)" false segs).
Proof.
  intros Hne Hall Hinner. unfold rewrite, delimiters. cbn [fold_left].
  unfold pass at 2.
  assert (Hfirst : re_split "$$" (PyStr.join "$" segs) = [PyStr.join "$" segs]).
  { destruct segs as [|x rest]; [congruence|].
    apply all_plain_cons in Hall. destruct Hall as [Hx Hrest].
    unfold re_split. rewrite join_dollar_tail.
    rewrite (split2_before_tail (dollar_tail rest)); [reflexivity | | exact Hx].
    now apply split2_dollar_tail. }
  rewrite Hfirst. cbn [wrap_odd PyStr.join concat].
  unfold pass. now rewrite (re_split1_join segs Hne Hall).
Qed.

Lemma join_empty_cons x l :
  PyStr.join EmptyString (x :: l) = x ++ PyStr.join EmptyString l.
Proof.
  unfold PyStr.join. destruct l as [|y l]; [|reflexivity].
  simpl. induction x; simpl; [reflexivity | now f_equal].
Qed.

(** A plain text before anything else stays in front of the first piece
    of the split, for both delimiters. *)
Lemma split1_text : forall x ab rest,
  plain_from ab x = true ->
  re_split_go "$" ab 0 (x ++ rest)
  = (let '(h, t) := re_split_go "$" false 0 rest in (x ++ h, t)).
Proof.
  induction x as [|c x IH]; intros ab rest H.
  - simpl in H. apply negb_true_iff in H. subst ab. simpl.
    now destruct (re_split_go "$" false 0 rest).
  - cbn [plain_from] in H. apply andb_prop in H. destruct H as [Hc Hx].
    change (String c x ++ rest) with (String c (x ++ rest)).
    cbn [re_split_go]. rewrite prefix_cons, prefix_empty, andb_true_r.
    rewrite Ascii.eqb_sym.
    destruct (Ascii.eqb c "$"); [rewrite Hc|]; cbn [negb andb];
      rewrite ?andb_false_r; rewrite (IH _ _ Hx);
      now destruct (re_split_go "$" false 0 rest).
Qed.

Lemma split2_text : forall x ab rest,
  plain_from ab x = true ->
  re_split_go "$$" ab 0 (x ++ rest)
  = (let '(h, t) := re_split_go "$$" false 0 rest in (x ++ h, t)).
Proof.
  induction x as [|c x IH]; intros ab rest H.
  - simpl in H. apply negb_true_iff in H. subst ab. simpl.
    now destruct (re_split_go "$$" false 0 rest).
  - cbn [plain_from] in H. apply andb_prop in H. destruct H as [Hc Hx].
    change (String c x ++ rest) with (String c (x ++ rest)).
    cbn [re_split_go]. rewrite prefix_cons. rewrite Ascii.eqb_sym.
    destruct (Ascii.eqb c "$"); [rewrite Hc|]; cbn [negb andb];
      rewrite ?andb_false_r; rewrite (IH _ _ Hx);
      now destruct (re_split_go "$$" false 0 rest).
Qed.

(** What a pass gives for a text whose split starts with [x ++ h]. *)
Lemma pass_text_first op cl x h t :
  PyStr.join EmptyString (wrap_odd op cl false ((x ++ h) :: t))
  = x ++ PyStr.join EmptyString (wrap_odd op cl false (h :: t)).
Proof.
  cbn [wrap_odd negb]. rewrite !join_empty_cons. apply append_assoc.
Qed.

(** What a pass gives for a text that starts with a math span [s]. *)
Lemma pass_math_first op cl s h t :
  PyStr.join EmptyString
    (wrap_odd op cl false (EmptyString :: s :: h :: t))
  = (op ++ s ++ cl) ++ PyStr.join EmptyString (wrap_odd op cl false (h :: t)).
Proof. cbn [wrap_odd negb]. now rewrite !join_empty_cons. Qed.

(** The first pass rewrites the blocks and leaves the rest. *)
Lemma pass_blocks : forall ps,
  well_formed ps ->
  pass "$$" "\\[" "\\]" (all_of written ps) = all_of after_blocks ps.
Proof.
  unfold pass, re_split.
  induction ps as [|p ps IH]; intros Hwf; [reflexivity|].
  destruct Hwf as [Hp Hwf]. specialize (IH Hwf).
  cbn [all_of fold_right]. fold (all_of written ps). fold (all_of after_blocks ps).
  destruct p as [x|x|x]; cbn [written after_blocks].
  - rewrite (split2_text x false _ Hp).
    destruct (re_split_go "$$" false 0 (all_of written ps)) as [h t].
    now rewrite pass_text_first, IH.
  - destruct Hp as (Hx & Hne & Hnext).
    assert (Hsplit : re_split_go "$$" false 0
                       (("$" ++ x ++ "$") ++ all_of written ps)
                     = (let '(h, t) :=
                          re_split_go "$$" false 0 (all_of written ps) in
                        (("$" ++ x ++ "$") ++ h, t))).
    { destruct (re_split_go "$$" false 0 (all_of written ps)) as [h t] eqn:HR.
      rewrite !append_assoc.
      change ("$" ++ x ++ "$" ++ all_of written ps)
        with (String "$" (x ++ String "$" (all_of written ps))).
      change ("$" ++ x ++ "$" ++ h) with (String "$" (x ++ String "$" h)).
      destruct x as [|c x]; [congruence|].
      cbn [re_split_go negb andb]. rewrite prefix_cons.
      cbn [Ascii.eqb Bool.eqb andb append].
      rewrite prefix_cons, Ascii.eqb_sym, (plain_first_not_dollar _ _ Hx).
      cbn [andb].
      change (String c (x ++ String "$" (all_of written ps)))
        with (String c x ++ String "$" (all_of written ps)).
      rewrite (split2_text (String c x) false _ Hx).
      cbn [re_split_go negb andb]. rewrite prefix_cons.
      cbn [Ascii.eqb Bool.eqb andb]. rewrite Hnext, HR. reflexivity. }
    rewrite Hsplit.
    destruct (re_split_go "$$" false 0 (all_of written ps)) as [h t].
    now rewrite pass_text_first, IH.
  - change (("$$" ++ x ++ "$$") ++ all_of written ps)
      with (String "$" (String "$" ((x ++ "$$") ++ all_of written ps))).
    rewrite append_assoc.
    cbn [re_split_go negb andb String.length Nat.sub].
    rewrite !prefix_cons, prefix_empty. cbn [Ascii.eqb Bool.eqb andb].
    rewrite (split2_joint x false _ Hp). unfold re_split.
    destruct (re_split_go "$$" false 0 (all_of written ps)) as [h t].
    now rewrite pass_math_first, IH.
Qed.

Lemma well_formed_plain : forall ps,
  well_formed ps ->
  forall p, In p ps ->
    match p with Text s | Inline s | Block s => plain s = true end.
Proof.
  induction ps as [|q ps IH]; intros Hwf p Hin; [contradiction|].
  destruct Hwf as [Hq Hwf]. destruct Hin as [<-|Hin]; [|now apply IH].
  destruct q; [exact Hq | apply Hq | exact Hq].
Qed.

(** The second pass rewrites the inline spans and leaves the rest. *)
Lemma pass_inlines : forall ps,
  (forall p, In p ps ->
     match p with Text s | Inline s | Block s => plain s = true end) ->
  pass "$" "\\(" "\\)" (all_of after_blocks ps) = all_of marked ps.
Proof.
  unfold pass, re_split.
  induction ps as [|p ps IH]; intros Hall; [reflexivity|].
  assert (Hp := Hall p (or_introl eq_refl)).
  specialize (IH (fun q Hq => Hall q (or_intror Hq))).
  cbn [all_of fold_right]. fold (all_of after_blocks ps). fold (all_of marked ps).
  destruct p as [x|x|x]; cbn [after_blocks marked].
  - rewrite (split1_text x false _ Hp).
    destruct (re_split_go "$" false 0 (all_of after_blocks ps)) as [h t].
    now rewrite pass_text_first, IH.
  - change (("$" ++ x ++ "$") ++ all_of after_blocks ps)
      with (String "$" ((x ++ "$") ++ all_of after_blocks ps)).
    rewrite append_assoc.
    cbn [re_split_go negb andb String.length Nat.sub].
    rewrite prefix_cons, prefix_empty. cbn [Ascii.eqb Bool.eqb andb].
    rewrite (split1_joint x false _ Hp). unfold re_split.
    destruct (re_split_go "$" false 0 (all_of after_blocks ps)) as [h t].
    now rewrite pass_math_first, IH.
  - assert (Hb : plain ("\\[" ++ x ++ "\\]") = true).
    { apply plain_from_append; [reflexivity|].
      now apply plain_from_append. }
    rewrite (split1_text _ false _ Hb).
    destruct (re_split_go "$" false 0 (all_of after_blocks ps)) as [h t].
    now rewrite pass_text_first, IH.
Qed.

(** Text, inline math and block math that can be told apart come out with
    their markers. *)
Lemma rewrite_pieces ps :
  well_formed ps -> rewrite (all_of written ps) = all_of marked ps.
Proof.
  intros Hwf. unfold rewrite, delimiters. cbn [fold_left].
  rewrite (pass_blocks ps Hwf).
  apply pass_inlines, well_formed_plain, Hwf.
Qed.

Lemma re_split_go_here sep ab c r :
  re_split_go sep ab 0 (String c r)
  = if negb ab && prefix sep (String c r)
    then let '(h, t) :=
           re_split_go sep (Ascii.eqb c "\") (String.length sep - 1) r in
         (EmptyString, h :: t)
    else let '(h, t) := re_split_go sep (Ascii.eqb c "\") 0 r in
         (String c h, t).
Proof. reflexivity. Qed.

(** Two inline spans written one right after the other: the dollar that
    closes the first and the dollar that opens the second are read as one
    block delimiter, and the markers that come out are interleaved. *)
Lemma rewrite_adjacent_inlines a b :
  plain a = true -> plain b = true -> a <> EmptyString ->
  rewrite ("$" ++ a ++ "$$" ++ b ++ "$")
  = "\\(" ++ a ++ "\\[" ++ b ++ "\\)" ++ "\\]".
Proof.
  intros Ha Hb Hne. unfold rewrite, delimiters. cbn [fold_left].
  assert (Hblocks : pass "$$" "\\[" "\\]" ("$" ++ a ++ "$$" ++ b ++ "$")
                    = PyStr.join "$"
                        [EmptyString; a ++ "\\[" ++ b; "\\]"]).
  { unfold pass, re_split.
    assert (Hb' : re_split_go "$$" false 0 (b ++ "$") = (b ++ "$", [])).
    { rewrite (split2_text b false "$" Hb). reflexivity. }
    assert (Hrest : re_split_go "$$" false 0 (a ++ "$$" ++ b ++ "$")
                    = (a, [b ++ "$"])).
    { rewrite (split2_joint a false (b ++ "$") Ha).
      unfold re_split. now rewrite Hb'. }
    assert (Hfirst : prefix "$" (a ++ "$$" ++ b ++ "$") = false).
    { destruct a as [|y r]; [congruence|].
      pose proof (plain_first_not_dollar y r Ha) as Hy.
      change (String y r ++ "$$" ++ b ++ "$")
        with (String y (r ++ "$$" ++ b ++ "$")).
      now rewrite prefix_cons, (Ascii.eqb_sym "$" y), Hy. }
    change ("$" ++ a ++ "$$" ++ b ++ "$")
      with (String "$" (a ++ "$$" ++ b ++ "$")).
    rewrite re_split_go_here, prefix_cons, Hfirst.
    change (Ascii.eqb "$" "\") with false.
    change (Ascii.eqb "$" "$") with true. cbn [andb negb].
    rewrite Hrest. cbn [wrap_odd negb PyStr.join concat append].
    now rewrite !append_assoc. }
  rewrite Hblocks. unfold pass.
  rewrite re_split1_join.
  - cbn [wrap_odd negb PyStr.join concat append].
    now rewrite !append_assoc.
  - discriminate.
  - intros x [<-|[<-|[<-|[]]]]; [reflexivity | | reflexivity].
    apply plain_from_append; [exact Ha|].
    now apply (plain_from_append "\\[" false b).
Qed.

End DollarFacts.

Lemma append_empty (s : string) : s ++ EmptyString = s.
Proof. induction s; simpl; [reflexivity | now f_equal]. Qed.

Lemma written_adjacent_inlines a b :
  all_of written [Inline a; Inline b] = "$" ++ a ++ "$$" ++ b ++ "$".
Proof.
  cbn [all_of fold_right written].
  now rewrite append_empty, !append_assoc.
Qed.

(** C6, as the code has it: in dollar mode [field_to_html] renders the
    field rewritten in two passes, at the unescaped double dollars first
    and at the unescaped single dollars then.  A field written as a
    sequence of texts, inline spans between single dollars and block spans
    between double dollars, none of which holds an unescaped dollar sign
    (escaped ones are allowed) or ends with a backslash, where every
    inline span is non-empty and is not directly followed by a dollar
    sign, comes out with every block span between the block-math markers,
    every inline span between the inline-math markers and the texts,
    escaped dollar signs included, unchanged.  More generally, pieces
    joined by double dollars come out with every second piece between the
    block-math markers, and pieces joined by single dollars (no empty
    piece between two of them, which would make a double dollar) with
    every second piece between the inline-math markers; a text whose
    dollar signs are all escaped is unchanged.  The field
    [Price: \$5 $x^2$] gets the inline-math markers around [x^2] only.
    Two inline spans written one right after the other are not rewritten
    as two spans: the two dollars between them are read as a block
    delimiter, and the markers come out interleaved. *)
Theorem dollar_mode_rewrites_math :
  forall html highlight_markdown CONFIG,
    dollar CONFIG = true ->
    let render := if highlight CONFIG then highlight_markdown else html in
    (forall ps,
       well_formed ps ->
       field_to_html html highlight_markdown CONFIG (all_of written ps)
       = render (all_of marked ps)) /\
    (forall segs,
       segs <> [] -> (forall x, In x segs -> plain x = true) ->
       field_to_html html highlight_markdown CONFIG (PyStr.join "$$" segs)
       = render (PyStr.join EmptyString
                   (Dollar.wrap_odd "\\[" "\\]" false segs))) /\
    (forall segs,
       segs <> [] -> (forall x, In x segs -> plain x = true) ->
       inner_nonempty segs ->
       field_to_html html highlight_markdown CONFIG (PyStr.join "$" segs)
       = render (PyStr.join EmptyString
                   (Dollar.wrap_odd "\\(" "\\)" false segs))) /\
    (forall field,
       plain field = true ->
       field_to_html html highlight_markdown CONFIG field = render field) /\
    field_to_html html highlight_markdown CONFIG "Price: \$5 $x^2$"
    = render "Price: \$5 \\(x^2\\)" /\
    (forall a b,
       plain a = true -> plain b = true -> a <> EmptyString ->
       field_to_html html highlight_markdown CONFIG
         (all_of written [Inline a; Inline b])
       = render ("\\(" ++ a ++ "\\[" ++ b ++ "\\)" ++ "\\]")).
Proof.
  intros html hm CONFIG Hd render. unfold field_to_html. rewrite Hd.
  subst render. repeat split.
  - intros ps Hwf. rewrite rewrite_pieces by assumption.
    now destruct (highlight CONFIG).
  - intros segs Hne Hall. rewrite rewrite_blocks by assumption.
    now destruct (highlight CONFIG).
  - intros segs Hne Hall Hinner. rewrite rewrite_inlines by assumption.
    now destruct (highlight CONFIG).
  - intros field Hp.
    assert (E : Dollar.rewrite field = field).
    { apply (rewrite_blocks [field]); [discriminate|].
      intros x [<-|[]]. exact Hp. }
    rewrite E. now destruct (highlight CONFIG).
  - now destruct (highlight CONFIG).
  - intros a b Ha Hb Hne.
    rewrite written_adjacent_inlines, rewrite_adjacent_inlines by assumption.
    now destruct (highlight CONFIG).
Qed.

(** C6, as stated, fails: of two inline spans written one right after the
    other, none comes out between the inline-math markers. *)
Lemma adjacent_inline_spans_are_not_wrapped :
  let ps := [Inline "a"; Inline "b"] in
  dollar Sample.config' = true /\
  all_of written ps = "$a$$b$" /\
  all_of marked ps = "\\(a\\)\\(b\\)" /\
  field_to_html Sample.html Sample.highlight_markdown Sample.config' "$a$$b$"
  = "\\(a\\[b\\)\\]" /\
  field_to_html Sample.html Sample.highlight_markdown Sample.config' "$a$$b$"
  <> all_of marked ps.
Proof.
  intros ps. repeat split; try reflexivity. vm_compute. discriminate.
Qed.

Lemma dollar_mode_rewrites_math_witness :
  let ps := [Text "Price: \$5 "; Inline "x^2"; Text " and "; Block "y=1"] in
  dollar Sample.config' = true /\
  well_formed ps /\
  all_of written ps = "Price: \$5 $x^2$ and $$y=1$$" /\
  Sample.compile_field Sample.config' Sample.world [all_of written ps] true
  = Ok "Price: \$5 \\(x^2\\) and \\[y=1\\]" /\
  field_to_html Sample.html Sample.highlight_markdown Sample.config'
    (PyStr.join "$$" ["a "; "b\$"; " c"])
  = "a \\[b\$\\] c" /\
  field_to_html Sample.html Sample.highlight_markdown Sample.config'
    (PyStr.join "$" ["Price: \$5 "; "x^2"; EmptyString])
  = "Price: \$5 \\(x^2\\)" /\
  field_to_html Sample.html Sample.highlight_markdown Sample.config'
    "only \$ escaped \$"
  = "only \$ escaped \$".
Proof.
  intros ps.
  assert (Hwf : well_formed ps).
  { cbn. repeat split; discriminate. }
  split; [reflexivity|]. split; [exact Hwf|]. split; [reflexivity|].
  destruct (dollar_mode_rewrites_math
              Sample.html Sample.highlight_markdown Sample.config' eq_refl)
    as (Hpieces & Hblocks & Hinlines & Hplain & _).
  split; [|split; [|split]].
  - unfold Sample.compile_field, compile_field.
    assert (Hsub : sub_images Sample.urlparse_path Sample.world
                     (PyStr.join EmptyString [all_of written ps]) 0
                     (PyStr.join EmptyString [all_of written ps])
                   = Ok (all_of written ps)) by reflexivity.
    rewrite Hsub. cbn [bind]. now rewrite (Hpieces ps Hwf).
  - rewrite (Hblocks ["a "; "b\$"; " c"]).
    + reflexivity.
    + discriminate.
    + intros x [<-|[<-|[<-|[]]]]; reflexivity.
  - rewrite (Hinlines ["Price: \$5 "; "x^2"; EmptyString]).
    + reflexivity.
    + discriminate.
    + intros x [<-|[<-|[<-|[]]]]; reflexivity.
    + intros x [<-|[]]. discriminate.
  - apply Hplain. reflexivity.
Defined.

(* ================================================================== *)
(** * Failed downloads *)
(* ================================================================== *)

Lemma contains_suffix sub : forall a, PyStr.contains sub (a ++ sub) = true.
Proof.
  induction a as [|c a IH]; simpl.
  - apply contains_here.
    induction sub as [|c sub IH]; [reflexivity|].
    rewrite prefix_cons, Ascii.eqb_refl. exact IH.
  - apply contains_later, IH.
Qed.

Section DownloadFacts.

Variable urlparse_path : string -> string.
Variable W : World.

Lemma download_message_names url fieldtext m :
  download_message url fieldtext m ->
  PyStr.contains url m = true /\ PyStr.contains fieldtext m = true.
Proof.
  intros [->| ->]; split; try apply contains_append.
  - rewrite <- !append_assoc. apply contains_suffix.
  - rewrite <- !append_assoc. apply contains_suffix.
Qed.

Lemma extract_image_succeeds fieldtext g1 url :
  download_succeeds urlparse_path W url ->
  exists x, extract_image urlparse_path W fieldtext g1 url = Ok x.
Proof.
  intros (chunks & Hget & Hwrite). unfold extract_image.
  rewrite Hget. simpl. rewrite Hwrite. eauto.
Qed.

Lemma extract_image_fails fieldtext g1 url :
  download_fails W url ->
  exists e,
    extract_image urlparse_path W fieldtext g1 url = Raise e /\
    download_message url fieldtext (message_of e).
Proof.
  intros [[e Hget]|(status_code & chunks & Hget & Hstatus)];
    unfold extract_image; rewrite Hget.
  - eexists. split; [reflexivity|]. now left.
  - apply N.eqb_neq in Hstatus. rewrite Hstatus. simpl.
    eexists. split; [reflexivity|]. now right.
Qed.

(** The substitution stops at the first download that fails. *)
Lemma sub_images_first_failure fieldtext : forall s skip pre g1 url post,
  ImageRe.matches skip s = (pre ++ (g1, url) :: post)%list ->
  (forall p, In p pre -> download_succeeds urlparse_path W (snd p)) ->
  download_fails W url ->
  exists e,
    sub_images urlparse_path W fieldtext skip s = Raise e /\
    download_message url fieldtext (message_of e).
Proof.
  induction s as [|c s IH]; intros skip pre g1 url post Hm Hpre Hfail.
  - simpl in Hm. destruct pre; discriminate.
  - cbn [ImageRe.matches sub_images] in *.
    destruct skip as [|k]; [|eapply IH; eauto].
    destruct (ImageRe.match_at (String c s)) as [[[g1' g2'] len]|];
      [|destruct (IH _ _ _ _ _ Hm Hpre Hfail) as (e & -> & He);
        exists e; now split].
    destruct pre as [|p pre]; simpl in Hm; inversion Hm; subst.
    + destruct (extract_image_fails fieldtext g1 url Hfail) as (e & -> & He).
      exists e. now split.
    + destruct (extract_image_succeeds fieldtext g1' g2') as [x ->];
        [apply (Hpre (g1', g2')); now left|].
      cbn [bind].
      destruct (IH _ _ _ _ _ H1 (fun p Hp => Hpre p (or_intror Hp)) Hfail)
        as (e & -> & He).
      exists e. now split.
Qed.

End DownloadFacts.

Section RaisingRuns.

Variable compile : list string -> bool -> result string.
Variable CONFIG : Config.
Variable filename : string.

Lemma compile_fields_raise : forall raw fs0 e,
  ParserSpec.compile_fields compile fs0 raw = Raise e ->
  exists k lines is_markdown,
    nth_error raw k = Some lines /\ compile lines is_markdown = Raise e.
Proof.
  induction raw as [|lines raw IH]; intros fs0 e H; simpl in H;
    [discriminate|].
  destruct (compile lines (List.length fs0 <? 2)%nat) as [field|e'] eqn:Hc.
  - simpl in H. destruct (IH _ _ H) as (k & l & m & H1 & H2).
    now exists (S k), l, m.
  - simpl in H. inversion H; subst.
    now exists 0%nat, lines, (List.length fs0 <? 2)%nat.
Qed.

Lemma run_cards_raise_origin : forall cs i cur ys e,
  ParserSpec.run_cards compile CONFIG filename i cur cs = (ys, Raise e) ->
  In (Raise e) (cur :: map (ParserSpec.compile_fields compile []) cs).
Proof.
  induction cs as [|c cs IH]; intros i cur ys e H; destruct cur as [fs|e'];
    simpl in H.
  - discriminate.
  - inversion H; subst. now left.
  - destruct (ParserSpec.run_cards compile CONFIG filename (i + 1)
                (ParserSpec.compile_fields compile [] c) cs)
      as [ys' r] eqn:Hrec.
    inversion H; subst. right. eapply IH; eauto.
  - inversion H; subst. now left.
Qed.

End RaisingRuns.

(** The exception that ends [produce_cards] is the one that the
    compilation of a raw field of the document raised. *)
Lemma produce_cards_raise_origin html highlight_markdown urlparse_path CONFIG W
    filename f ys e :
  produce_cards html highlight_markdown urlparse_path CONFIG W filename f
  = (ys, Some e) ->
  exists raw lines is_markdown,
    In raw (ParserSpec.raw_cards f) /\ In lines raw /\
    compile_field html highlight_markdown urlparse_path CONFIG W lines
      is_markdown = Raise e.
Proof.
  unfold produce_cards. rewrite produce_run_spec. unfold ParserSpec.raw_cards.
  destruct (ParserSpec.raw_loop [] f) as [c0 cs].
  destruct (ParserSpec.run_cards _ _ _ _ _ _) as [ys' [last|e']] eqn:Hrun;
    intros H; inversion H; subst.
  apply run_cards_raise_origin in Hrun.
  change (In (Raise e)
            (map (ParserSpec.compile_fields
                    (compile_field html highlight_markdown urlparse_path
                       CONFIG W) []) (c0 :: cs))) in Hrun.
  apply in_map_iff in Hrun. destruct Hrun as (raw & Hraw & Hin).
  apply compile_fields_raise in Hraw.
  destruct Hraw as (k & lines & m & Hk & Hc).
  exists raw, lines, m. repeat split; try assumption.
  eapply nth_error_In; eauto.
Qed.

(** C8: when the first download that fails while a field is compiled in
    markdown mode fails with a connection error or with a status other
    than 200, [compile_field] raises an exception whose message holds the
    URL and the whole raw text of the field, and returns no field.  An
    exception that ends [produce_cards] is one raised by the compilation
    of a field; [cards_from_dir] raises in its place an exception that
    names the file and has it as context (for a file that cannot be read,
    it raises what reading it raises), and [cards_to_apkg] then raises:
    the build is aborted. *)
Theorem failed_download_aborts :
  forall html highlight_markdown urlparse_path CONFIG W,
    (forall field_lines pre g1 url post,
       let fieldtext := PyStr.join EmptyString field_lines in
       ImageRe.matches 0 fieldtext = (pre ++ (g1, url) :: post)%list ->
       (forall p, In p pre -> download_succeeds urlparse_path W (snd p)) ->
       download_fails W url ->
       exists e,
         compile_field html highlight_markdown urlparse_path CONFIG W
           field_lines true = Raise e /\
         PyStr.contains url (message_of e) = true /\
         PyStr.contains fieldtext (message_of e) = true) /\
    (forall filename f ys e,
       produce_cards html highlight_markdown urlparse_path CONFIG W filename f
       = (ys, Some e) ->
       exists raw lines is_markdown,
         In raw (ParserSpec.raw_cards f) /\ In lines raw /\
         compile_field html highlight_markdown urlparse_path CONFIG W lines
           is_markdown = Raise e) /\
    (forall VERSION_LOG filepath rest ys e,
       updated_only CONFIG = false ->
       produce_cards html highlight_markdown urlparse_path CONFIG W filepath
         (read_lines W filepath) = (ys, Some e) ->
       cards_from_files html highlight_markdown urlparse_path CONFIG W
         VERSION_LOG (filepath :: rest)
       = match read_error W filepath with
         | None =>
             ((ys, Some (ExnIn "Exception"
                           ("fail to produce cards for " ++ filepath) e)),
              VERSION_LOG)
         | Some unreadable => (([], Some unreadable), VERSION_LOG)
         end) /\
    (forall cards e,
       exists e',
         cards_to_apkg W (cards, Some e) = Raise e' /\
         ((forall src dst, copyfile W src dst = None) -> e' = e)).
Proof.
  intros html hm up CONFIG W. repeat split.
  - intros field_lines pre g1 url post fieldtext Hm Hpre Hfail.
    destruct (sub_images_first_failure up W fieldtext fieldtext 0 pre g1 url
                post Hm Hpre Hfail) as (e & He & Hmsg).
    exists e. unfold compile_field. fold fieldtext. rewrite He.
    split; [reflexivity|]. now apply download_message_names.
  - intros filename f ys e. apply produce_cards_raise_origin.
  - intros VERSION_LOG filepath rest ys e Hu Hp.
    cbn [cards_from_files]. destruct (read_error W filepath); [reflexivity|].
    rewrite Hu, Hp. cbn [negb]. now rewrite orb_true_r.
  - intros cards e. unfold cards_to_apkg. cbn [fst snd].
    destruct (assemble W ([], []) cards) as [st|e'] eqn:Ha.
    + exists e. now split.
    + exists e'. split; [reflexivity|]. intros Hcopy.
      destruct (assemble_total W Hcopy cards ([], [])) as [st Hst].
      congruence.
Qed.

Lemma failed_download_aborts_witness :
  let url := "http://example.com/img/a.png" in
  let field := "![d](" ++ url ++ ")" ++ nl in
  let path := "cards/deck1/card.md" in
  let e := Exn "Exception"
             ("failed to download " ++ url ++ " for markdown:" ++ nl ++ nl
                ++ field) in
  let e' := ExnIn "Exception" ("fail to produce cards for " ++ path) e in
  ImageRe.matches 0 field = [("![d]", url)] /\
  download_fails Sample.world_404 url /\
  Sample.compile_field Sample.config Sample.world_404 [field] true = Raise e /\
  PyStr.contains url (message_of e) = true /\
  PyStr.contains field (message_of e) = true /\
  Sample.produce_cards Sample.world_404 path Sample.card_md = ([], Some e) /\
  (exists raw lines is_markdown,
     In raw (ParserSpec.raw_cards Sample.card_md) /\ In lines raw /\
     Sample.compile_field Sample.config Sample.world_404 lines is_markdown
     = Raise e) /\
  cards_from_files Sample.html Sample.highlight_markdown Sample.urlparse_path
    Sample.config Sample.world_404 [] [path] = (([], Some e'), []) /\
  cards_to_apkg Sample.world_404 ([], Some e') = Raise e' /\
  build Sample.html Sample.highlight_markdown Sample.urlparse_path
    Sample.config Sample.world_404 [] "cards" = Raise e' /\
  context_of e' = Some e.
Proof.
  intros url field path e e'.
  assert (Hfail : download_fails Sample.world_404 url).
  { right. exists 404%N, []. split; [reflexivity | discriminate]. }
  assert (Hrun : Sample.produce_cards Sample.world_404 path Sample.card_md
                 = ([], Some e)) by (vm_compute; reflexivity).
  split; [reflexivity|]. split; [exact Hfail|].
  destruct (failed_download_aborts
              Sample.html Sample.highlight_markdown Sample.urlparse_path
              Sample.config Sample.world_404)
    as (Hcompile & Horigin & Hfiles & Hbuild).
  destruct (Hcompile [field] [] "![d]" url []) as (x & Hx & Hurl & Htext).
  - reflexivity.
  - intros p [].
  - exact Hfail.
  - assert (Heq : Sample.compile_field Sample.config Sample.world_404
                    [field] true = Raise e) by reflexivity.
    unfold Sample.compile_field in Heq. rewrite Hx in Heq.
    inversion Heq; subst x.
    split; [exact Hx|]. split; [exact Hurl|]. split; [exact Htext|].
    split; [exact Hrun|].
    split; [exact (Horigin path Sample.card_md [] e Hrun)|].
    split; [exact (Hfiles [] path [] [] e eq_refl Hrun)|].
    split.
    + destruct (Hbuild [] e') as (e'' & Hraise & Hsame).
      rewrite (Hsame (fun _ _ => eq_refl)) in Hraise. exact Hraise.
    + split; [vm_compute; reflexivity | reflexivity].
Defined.

(* ================================================================== *)
(** * Further properties: the deck collection *)
(* ================================================================== *)

Lemma decks_set_missing : forall decks k d,
  Decks.get decks k = None ->
  Decks.set decks k d = (decks ++ [(k, d)])%list.
Proof.
  induction decks as [|[k' d'] decks IH]; intros k d H; [reflexivity|].
  simpl in *. destruct (k' =? k); [discriminate|]. now rewrite IH.
Qed.

Lemma decks_set_present : forall decks k d,
  Decks.get decks k = Some d -> Decks.set decks k d = decks.
Proof.
  induction decks as [|[k' d'] decks IH]; intros k d H; [discriminate|].
  simpl in *. destruct (k' =? k).
  - now inversion H.
  - now rewrite IH.
Qed.

(** X1: [DeckCollection.__getitem__] gets or creates.  The deck it
    returns is then stored under the name; a deck already stored is
    returned as it is and the collection does not change; a missing name
    gets a new deck, without notes, with the hash of the name as ID, added
    after the decks already there; the decks under the other names are not
    touched; asking again returns the same deck and changes nothing. *)
Theorem getitem_gets_or_creates :
  forall decks k,
    let decks' := fst (Decks.getitem decks k) in
    let d := snd (Decks.getitem decks k) in
    Decks.get decks' k = Some d /\
    (forall k', k' <> k -> Decks.get decks' k' = Decks.get decks k') /\
    (forall d0, Decks.get decks k = Some d0 -> decks' = decks /\ d = d0) /\
    (Decks.get decks k = None ->
     d = {| deck_id := simple_hash k; deck_name := k; notes := [] |} /\
     decks' = (decks ++ [(k, d)])%list) /\
    Decks.getitem decks' k = (decks', d).
Proof.
  intros decks k. unfold Decks.getitem.
  destruct (Decks.get decks k) as [d0|] eqn:Hget; cbn [fst snd].
  - split; [exact Hget|]. split; [reflexivity|].
    split; [intros d1 H; now inversion H|].
    split; [discriminate|]. now rewrite Hget.
  - set (fresh := {| deck_id := simple_hash k; deck_name := k; notes := [] |}).
    assert (Hnew : Decks.get (Decks.set decks k fresh) k = Some fresh)
      by apply decks_get_set_same.
    split; [exact Hnew|].
    split; [intros k' Hne; apply decks_get_set_other; congruence|].
    split; [discriminate|].
    split; [intros _; split; [reflexivity | now apply decks_set_missing]|].
    now rewrite Hnew.
Qed.

Lemma getitem_gets_or_creates_witness :
  let deck1 := {| deck_id := simple_hash "deck1"; deck_name := "deck1";
                  notes := [] |} in
  let decks := [("deck1", deck1)] in
  Decks.get decks "deck1" = Some deck1 /\
  Decks.get decks "deck2" = None /\
  Decks.getitem decks "deck1" = (decks, deck1) /\
  fst (Decks.getitem decks "deck2")
  = [("deck1", deck1);
     ("deck2", {| deck_id := simple_hash "deck2"; deck_name := "deck2";
                  notes := [] |})] /\
  Decks.get (fst (Decks.getitem decks "deck2")) "deck1" = Some deck1.
Proof.
  intros deck1 decks.
  destruct (getitem_gets_or_creates decks "deck1") as (_ & _ & Hold & _ & _).
  destruct (getitem_gets_or_creates decks "deck2")
    as (_ & Hother & _ & Hnew & _).
  split; [reflexivity|]. split; [reflexivity|].
  destruct (Hold deck1 eq_refl) as [H1 H2].
  destruct (Hnew eq_refl) as [H3 H4].
  split; [|split].
  - rewrite (surjective_pairing (Decks.getitem decks "deck1")).
    now rewrite H1, H2.
  - rewrite H4, H3. reflexivity.
  - rewrite (Hother "deck1"); [reflexivity | discriminate].
Defined.

(* ================================================================== *)
(** * Further properties: the deck assembler *)
(* ================================================================== *)

Lemma total_notes_set : forall decks k d,
  (total_notes (Decks.set decks k d)
   + match Decks.get decks k with
     | Some d0 => List.length (notes d0)
     | None => 0
     end
   = total_notes decks + List.length (notes d))%nat.
Proof.
  unfold total_notes.
  induction decks as [|[k' d'] decks IH]; intros k d; simpl; [lia|].
  destruct (k' =? k); simpl; [lia|]. specialize (IH k d). lia.
Qed.

Lemma total_notes_add decks k note :
  total_notes (Decks.add decks k note) = S (total_notes decks).
Proof.
  unfold Decks.add, Decks.getitem.
  destruct (Decks.get decks k) as [d|] eqn:Hget.
  - pose proof (total_notes_set decks k (add_note d note)) as H.
    rewrite Hget in H. simpl in H. rewrite length_app in H. simpl in H. lia.
  - pose proof (total_notes_set decks k
                  {| deck_id := simple_hash k; deck_name := k; notes := [] |})
      as H1.
    rewrite Hget in H1.
    pose proof (total_notes_set
                  (Decks.set decks k
                     {| deck_id := simple_hash k; deck_name := k;
                        notes := [] |}) k
                  (add_note {| deck_id := simple_hash k; deck_name := k;
                               notes := [] |} note)) as H2.
    rewrite decks_get_set_same in H2. simpl in *. lia.
Qed.

Lemma decks_get_in : forall decks k d,
  NoDup (map fst decks) -> In (k, d) decks -> Decks.get decks k = Some d.
Proof.
  induction decks as [|[k' d'] decks IH]; intros k d Hnd Hin; [contradiction|].
  inversion Hnd as [|? ? Hnotin Hnd']; subst. simpl.
  destruct Hin as [Heq|Hin].
  - inversion Heq; subst. now rewrite String.eqb_refl.
  - destruct (k' =? k) eqn:E; [|now apply IH].
    apply String.eqb_eq in E. subst k'. exfalso. apply Hnotin.
    apply in_map_iff. now exists (k, d).
Qed.

Lemma media_of_fields_length c : forall fs,
  List.length (snd (CardM.media_of_fields c fs)) = List.length fs.
Proof.
  induction fs as [|field fs IH]; [reflexivity|].
  cbn [CardM.media_of_fields].
  destruct (CardM.sub_src c 0 field) as [stage results].
  destruct (CardM.media_of_fields c fs) as [more rest]. simpl in *.
  now rewrite IH.
Qed.

(** The note of a card keeps the identity and the model of the card and
    has its first three fields at most. *)
Lemma note_of_shape card :
  note_guid (note_of card) = CardM.guid card /\
  note_model (note_of card) = model card /\
  List.length (note_fields (note_of card))
  = Nat.min 3 (List.length (fields card)).
Proof.
  unfold note_of, CardM.determine_media_references.
  pose proof (media_of_fields_length (CardM.finalize card)
                (fields (CardM.finalize card))) as Hlen.
  destruct (CardM.media_of_fields (CardM.finalize card)
              (fields (CardM.finalize card))) as [refs fs].
  cbn [snd] in *. unfold CardM.finalize in *.
  destruct (3 <? List.length (fields card))%nat eqn:E.
  - apply Nat.ltb_lt in E. repeat split.
    cbn [CardM.to_genanki_note note_fields CardM.set_fields fields] in *.
    rewrite Hlen, length_firstn. lia.
  - apply Nat.ltb_ge in E. repeat split.
    cbn [CardM.to_genanki_note note_fields CardM.set_fields fields] in *.
    rewrite Hlen. lia.
Qed.

Section AssemblerProperties.

Variable W : World.

Lemma assemble_total_notes : forall cards decks media decks' media',
  assemble W (decks, media) cards = Ok (decks', media') ->
  total_notes decks' = (total_notes decks + List.length cards)%nat.
Proof.
  induction cards as [|card cards IH]; intros decks media decks' media' H.
  - simpl in H. inversion H; subst. simpl. lia.
  - cbn [assemble] in H.
    destruct (assemble_card W (decks, media) card) as [[decks1 media1]|e]
      eqn:Hcard; [|discriminate].
    cbn [bind] in H. apply assemble_card_decks in Hcard. subst decks1.
    rewrite (IH _ _ _ _ H), total_notes_add. simpl. lia.
Qed.

(** What the inner loop of [cards_to_apkg] does to the set of media. *)
Lemma stage_media_spec : forall refs media media',
  stage_media W media refs = Ok media' ->
  NoDup media ->
  NoDup media' /\
  (forall n, In n media -> In n media') /\
  (forall a n, In (a, n) refs -> copyfile W a n = None /\ In n media') /\
  (forall n, In n media' -> In n media \/ exists a, In (a, n) refs).
Proof.
  induction refs as [|[abspath newpath] refs IH]; intros media media' H Hnd.
  - simpl in H. inversion H; subst.
    split; [exact Hnd|]. split; [auto|].
    split; [intros a n [] | intros n Hn; now left].
  - cbn [stage_media] in H.
    destruct (copyfile W abspath newpath) eqn:Hcopy; [discriminate|].
    set (media1 := if existsb (String.eqb newpath) media then media
                   else (media ++ [newpath])%list) in *.
    assert (Hnd1 : NoDup media1 /\ In newpath media1 /\
                   (forall n, In n media -> In n media1) /\
                   (forall n, In n media1 -> In n media \/ n = newpath)).
    { subst media1. destruct (existsb (String.eqb newpath) media) eqn:E.
      - apply existsb_exists in E. destruct E as (x & Hx & Heq).
        apply String.eqb_eq in Heq. subst x.
        split; [exact Hnd|]. split; [exact Hx|].
        split; [auto | intros n Hn; now left].
      - assert (Hnot : ~ In newpath media).
        { intros Hin.
          assert (existsb (String.eqb newpath) media = true)
            by (apply existsb_exists; exists newpath;
                split; [exact Hin | apply String.eqb_refl]).
          congruence. }
        split; [|split; [|split]].
        + apply NoDup_app; [exact Hnd | repeat constructor; intros [] |].
          intros x Hx [<-|[]]. contradiction.
        + apply in_or_app. right. now left.
        + intros n Hn. apply in_or_app. now left.
        + intros n Hn. apply in_app_or in Hn.
          destruct Hn as [Hn|[<-|[]]]; [now left | now right]. }
    destruct Hnd1 as (Hnd1 & Hin1 & Hincl1 & Hfrom1).
    destruct (IH _ _ H Hnd1) as (H1 & H2 & H3 & H4).
    split; [exact H1|]. split; [intros n Hn; auto|]. split.
    + intros a n [Heq|Hin].
      * inversion Heq; subst. split; [exact Hcopy | auto].
      * now apply (H3 a n).
    + intros n Hn. destruct (H4 n Hn) as [Hn1|[a Ha]].
      * destruct (Hfrom1 n Hn1) as [Hm| ->]; [now left|].
        right. exists abspath. now left.
      * right. exists a. now right.
Qed.

Lemma assemble_media : forall cards decks media decks' media',
  assemble W (decks, media) cards = Ok (decks', media') ->
  NoDup media ->
  NoDup media' /\
  (forall n, In n media -> In n media') /\
  (forall c a n, In c cards -> In (a, n) (media_refs c) ->
     copyfile W a n = None /\ In n media') /\
  (forall n, In n media' ->
     In n media \/ exists c a, In c cards /\ In (a, n) (media_refs c)).
Proof.
  induction cards as [|card cards IH]; intros decks media decks' media' H Hnd.
  - simpl in H. inversion H; subst.
    split; [exact Hnd|]. split; [auto|].
    split; [intros c a n [] | intros n Hn; now left].
  - cbn [assemble] in H. unfold assemble_card in H.
    pose proof (eq_refl (media_refs card)) as Hrefs.
    unfold media_refs at 1 in Hrefs.
    destruct (CardM.determine_media_references (CardM.finalize card))
      as [refs card'].
    cbn [fst] in Hrefs.
    destruct (stage_media W media refs) as [media1|e] eqn:Hstage;
      [|discriminate].
    cbn [bind] in H.
    destruct (stage_media_spec _ _ _ Hstage Hnd) as (S1 & S2 & S3 & S4).
    destruct (IH _ _ _ _ H S1) as (H1 & H2 & H3 & H4).
    split; [exact H1|]. split; [auto|]. split.
    + intros c a n [<-|Hc] Hin.
      * rewrite <- Hrefs in Hin. destruct (S3 a n Hin). auto.
      * now apply (H3 c a n).
    + intros n Hn. destruct (H4 n Hn) as [Hn1|(c & a & Hc & Ha)].
      * destruct (S4 n Hn1) as [Hm|[a Ha]]; [now left|].
        right. exists card, a. split; [now left | now rewrite <- Hrefs].
      * right. exists c, a. split; [now right | exact Ha].
Qed.

End AssemblerProperties.

(** X2: [cards_to_apkg] loses no card and invents none.  When it ends
    without exception, the decks hold as many notes as cards were given,
    there is no deck exactly when there is no card, and every deck holds
    at least one note. *)
Theorem assembly_keeps_every_card :
  forall W cards decks package,
    cards_to_apkg W (cards, None) = Ok (decks, package) ->
    total_notes decks = List.length cards /\
    (decks = [] <-> cards = []) /\
    (forall d, In d (package_decks package) -> notes d <> []).
Proof.
  intros W cards decks package H. unfold cards_to_apkg in H.
  cbn [fst snd] in H.
  destruct (assemble W ([], []) cards) as [[decks' media']|e] eqn:Ha;
    [|discriminate].
  cbn [bind fst snd] in H. inversion H; subst; clear H.
  pose proof (assemble_total_notes W _ _ _ _ _ Ha) as Htotal.
  cbn in Htotal. split; [exact Htotal|]. split.
  - split.
    + intros ->. cbn in Htotal. destruct cards; [reflexivity | discriminate].
    + intros ->. simpl in Ha. now inversion Ha.
  - cbn [package_decks]. intros d Hd.
    apply in_map_iff in Hd. destruct Hd as ([k d'] & <- & Hin).
    pose proof (assemble_keys W _ _ _ _ _ Ha (NoDup_nil _)) as Hnd.
    pose proof (decks_get_in _ _ _ Hnd Hin) as Hget.
    rewrite (assemble_decks W _ _ _ _ _ Ha k) in Hget. cbn in Hget.
    destruct (existsb (fun c => CardM.deckname c =? k) cards) eqn:E;
      [|discriminate].
    inversion Hget; subst. cbn [snd notes].
    apply existsb_exists in E. destruct E as (c & Hc & Hk).
    intros Hnil.
    assert (Hin' : In c (filter (fun c => CardM.deckname c =? k) cards))
      by (apply filter_In; now split).
    destruct (filter (fun c => CardM.deckname c =? k) cards);
      [contradiction | discriminate].
Qed.

Lemma assembly_keeps_every_card_witness :
  let cards := [Sample.card "cards/deck1/a.md" 0 ["q1"; "a1"];
                Sample.card "cards/deck2/b.md" 0 ["q2"; "a2"];
                Sample.card "cards/deck1/a.md" 1 ["q3"; "a3"]] in
  exists decks package,
    cards_to_apkg Sample.world (cards, None) = Ok (decks, package) /\
    map fst decks = ["deck1"; "deck2"] /\
    total_notes decks = 3%nat.
Proof.
  intros cards.
  destruct (cards_to_apkg Sample.world (cards, None)) as [[decks package]|e]
    eqn:H; [|vm_compute in H; discriminate].
  exists decks, package. split; [reflexivity|].
  destruct (assembly_keeps_every_card Sample.world cards decks package H)
    as (Htotal & _ & _).
  split; [vm_compute in H; inversion H; reflexivity | exact Htotal].
Defined.

(** X3: every note of the package comes from a card of its deck: it has
    the identity and the model of that card and the first three fields of
    it at most, whatever the number of fields of the card. *)
Theorem notes_have_at_most_three_fields :
  forall W cards decks package,
    cards_to_apkg W (cards, None) = Ok (decks, package) ->
    forall d note,
      In d (package_decks package) -> In note (notes d) ->
      (List.length (note_fields note) <= 3)%nat /\
      exists card,
        In card cards /\ CardM.deckname card = deck_name d /\
        note_guid note = CardM.guid card /\
        note_model note = model card /\
        List.length (note_fields note)
        = Nat.min 3 (List.length (fields card)).
Proof.
  intros W cards decks package H d note Hd Hnote.
  unfold cards_to_apkg in H. cbn [fst snd] in H.
  destruct (assemble W ([], []) cards) as [[decks' media']|e] eqn:Ha;
    [|discriminate].
  cbn [bind fst snd] in H. inversion H; subst; clear H.
  cbn [package_decks] in Hd.
  apply in_map_iff in Hd. destruct Hd as ([k d'] & <- & Hin).
  pose proof (assemble_keys W _ _ _ _ _ Ha (NoDup_nil _)) as Hnd.
  pose proof (decks_get_in _ _ _ Hnd Hin) as Hget.
  rewrite (assemble_decks W _ _ _ _ _ Ha k) in Hget. cbn in Hget.
  destruct (existsb (fun c => CardM.deckname c =? k) cards); [|discriminate].
  inversion Hget; subst. cbn [snd notes deck_name] in *.
  apply in_map_iff in Hnote. destruct Hnote as (card & <- & Hcard).
  apply filter_In in Hcard. destruct Hcard as [Hcard Hk].
  apply String.eqb_eq in Hk.
  destruct (note_of_shape card) as (Hg & Hm & Hl).
  split; [rewrite Hl; lia|].
  exists card. repeat split; assumption.
Qed.

Lemma notes_have_at_most_three_fields_witness :
  let card := Sample.card "cards/deck1/a.md" 0 ["q"; "a"; "t"; "x"; "y"] in
  exists decks package d note,
    cards_to_apkg Sample.world ([card], None) = Ok (decks, package) /\
    In d (package_decks package) /\ In note (notes d) /\
    note_fields note = ["q"; "a"; "t"] /\
    (List.length (note_fields note) <= 3)%nat.
Proof.
  intros card.
  destruct (cards_to_apkg Sample.world ([card], None))
    as [[decks package]|e] eqn:H; [|vm_compute in H; discriminate].
  assert (Hd : In {| deck_id := simple_hash "deck1"; deck_name := "deck1";
                     notes := [note_of card] |} (package_decks package))
    by (vm_compute in H; inversion H; left; reflexivity).
  exists decks, package,
    {| deck_id := simple_hash "deck1"; deck_name := "deck1";
       notes := [note_of card] |}, (note_of card).
  split; [reflexivity|]. split; [exact Hd|].
  split; [left; reflexivity|]. split; [reflexivity|].
  destruct (notes_have_at_most_three_fields Sample.world [card] decks package
              H _ (note_of card) Hd) as [Hlen _]; [left; reflexivity|].
  exact Hlen.
Defined.

(** X4: when [cards_to_apkg] ends without exception, every media
    reference of every card has been copied without error and its flat
    name is in the media of the package; the media hold nothing else, and
    no name twice. *)
Theorem media_are_staged_once :
  forall W cards decks package,
    cards_to_apkg W (cards, None) = Ok (decks, package) ->
    NoDup (media_files package) /\
    (forall card abspath newpath,
       In card cards -> In (abspath, newpath) (media_refs card) ->
       copyfile W abspath newpath = None /\
       In newpath (media_files package)) /\
    (forall newpath,
       In newpath (media_files package) ->
       exists card abspath,
         In card cards /\ In (abspath, newpath) (media_refs card)).
Proof.
  intros W cards decks package H. unfold cards_to_apkg in H.
  cbn [fst snd] in H.
  destruct (assemble W ([], []) cards) as [[decks' media']|e] eqn:Ha;
    [|discriminate].
  cbn [bind fst snd] in H. inversion H; subst; clear H.
  cbn [media_files].
  destruct (assemble_media W _ _ _ _ _ Ha (NoDup_nil _))
    as (H1 & _ & H3 & H4).
  split; [exact H1|]. split; [exact H3|].
  intros n Hn. destruct (H4 n Hn) as [[]|Hex]. exact Hex.
Qed.

Lemma media_are_staged_once_witness :
  let img := "<img src=" ++ CardM.close_quote ++ "img/a.png"
               ++ CardM.close_quote ++ ">" in
  let cards := [Sample.card "cards/deck1/a.md" 0 [img; "a1"];
                Sample.card "cards/deck1/a.md" 1 ["q2"; img]] in
  In ("cards/deck1/img/a.png", "img%a.png")
     (media_refs (hd (Sample.card "x" 0 []) cards)) /\
  exists decks package,
    cards_to_apkg Sample.world (cards, None) = Ok (decks, package) /\
    media_files package = ["img%a.png"] /\
    copyfile Sample.world "cards/deck1/img/a.png" "img%a.png" = None.
Proof.
  intros img cards.
  assert (Href : In ("cards/deck1/img/a.png", "img%a.png")
                   (media_refs (hd (Sample.card "x" 0 []) cards)))
    by (vm_compute; left; reflexivity).
  split; [exact Href|].
  destruct (cards_to_apkg Sample.world (cards, None)) as [[decks package]|e]
    eqn:H; [|vm_compute in H; discriminate].
  exists decks, package. split; [reflexivity|].
  destruct (media_are_staged_once Sample.world cards decks package H)
    as (_ & Hcopied & _).
  destruct (Hcopied _ _ _ (or_introl eq_refl) Href) as [Hcopy _].
  split; [vm_compute in H; inversion H; reflexivity | exact Hcopy].
Defined.

(* ================================================================== *)
(** * Further properties: media references *)
(* ================================================================== *)

Lemma contains_char a c r :
  PyStr.contains (String a EmptyString) (String c r)
  = Ascii.eqb a c || PyStr.contains (String a EmptyString) r.
Proof.
  cbn [PyStr.contains]. now rewrite prefix_cons, prefix_empty, andb_true_r.
Qed.

Lemma replace_separators_flat : forall ref,
  PyStr.contains "/" (replace_separators ref) = false.
Proof.
  induction ref as [|c r IH]; [reflexivity|].
  cbn [replace_separators]. rewrite contains_char, IH, orb_false_r.
  destruct (Ascii.eqb c "/") eqn:E; [reflexivity|].
  now rewrite Ascii.eqb_sym.
Qed.

Lemma replace_separators_length : forall ref,
  String.length (replace_separators ref) = String.length ref.
Proof. induction ref as [|c r IH]; simpl; [reflexivity | now rewrite IH]. Qed.

Lemma replace_separators_id : forall ref,
  PyStr.contains "/" ref = false -> replace_separators ref = ref.
Proof.
  induction ref as [|c r IH]; intros H; [reflexivity|].
  rewrite contains_char in H. apply orb_false_elim in H.
  destruct H as [Hc Hr]. cbn [replace_separators].
  rewrite Ascii.eqb_sym, Hc. now rewrite IH.
Qed.

Lemma replace_separators_inj : forall ref ref',
  PyStr.contains "%" ref = false -> PyStr.contains "%" ref' = false ->
  replace_separators ref' = replace_separators ref -> ref' = ref.
Proof.
  induction ref as [|c r IH]; intros [|c' r'] H H' Heq; try discriminate;
    [reflexivity|].
  rewrite contains_char in H, H'.
  apply orb_false_elim in H, H'. destruct H as [Hc Hr], H' as [Hc' Hr'].
  cbn [replace_separators] in Heq. inversion Heq as [[Hhead Htail]].
  f_equal; [|now apply IH].
  apply Ascii.eqb_neq in Hc, Hc'.
  destruct (Ascii.eqb c' "/") eqn:E'; destruct (Ascii.eqb c "/") eqn:E;
    try (apply Ascii.eqb_eq in E); try (apply Ascii.eqb_eq in E');
    congruence.
Qed.

(** X5: the package name made for a reference is flat, has the length of
    the reference, and is the reference itself when the reference has no
    path separator; two references without percent sign that get the same
    package name are the same reference. *)
Theorem flat_names_are_flat :
  forall card ref,
    let newname := snd (CardM.make_ref_pair card ref) in
    PyStr.contains "/" newname = false /\
    String.length newname = String.length ref /\
    (PyStr.contains "/" ref = false -> newname = ref) /\
    (forall card' ref',
       PyStr.contains "%" ref = false -> PyStr.contains "%" ref' = false ->
       snd (CardM.make_ref_pair card' ref') = newname -> ref' = ref).
Proof.
  intros card ref newname. subst newname. unfold CardM.make_ref_pair.
  cbn [snd]. rewrite join_split_separators.
  split; [apply replace_separators_flat|].
  split; [apply replace_separators_length|].
  split; [apply replace_separators_id|].
  intros card' ref' H H' Heq. rewrite join_split_separators in Heq.
  now apply replace_separators_inj.
Qed.

Lemma flat_names_are_flat_witness :
  let card := Sample.card "deck1/card.md" 0 [] in
  PyStr.contains "/" "a.png" = false /\
  snd (CardM.make_ref_pair card "a.png") = "a.png" /\
  PyStr.contains "%" "img/a.png" = false /\
  snd (CardM.make_ref_pair card "img/a.png") = "img%a.png" /\
  (forall ref', PyStr.contains "%" ref' = false ->
     snd (CardM.make_ref_pair card ref') = "img%a.png" -> ref' = "img/a.png").
Proof.
  intros card.
  destruct (flat_names_are_flat card "a.png") as (_ & _ & Hid & _).
  destruct (flat_names_are_flat card "img/a.png") as (_ & _ & _ & Hinj).
  split; [reflexivity|]. split; [exact (Hid eq_refl)|].
  split; [reflexivity|]. split; [reflexivity|].
  intros ref' H' Heq. exact (Hinj card ref' eq_refl H' Heq).
Defined.

Lemma contains_cons_false sub c s :
  PyStr.contains sub (String c s) = false ->
  prefix sub (String c s) = false /\ PyStr.contains sub s = false.
Proof. cbn [PyStr.contains]. apply orb_false_elim. Qed.

Lemma sub_src_nothing card : forall s,
  PyStr.contains CardM.src_open s = false -> CardM.sub_src card 0 s = (s, []).
Proof.
  induction s as [|d s IH]; intros H; [reflexivity|].
  apply contains_cons_false in H. destruct H as [Hp Hs].
  cbn [CardM.sub_src]. rewrite Hp, (IH Hs). reflexivity.
Qed.

Lemma sub_alt_nothing : forall s,
  PyStr.contains CardM.alt_open s = false -> CardM.sub_alt 0 s = s.
Proof.
  induction s as [|d s IH]; intros H; [reflexivity|].
  apply contains_cons_false in H. destruct H as [Hp Hs].
  cbn [CardM.sub_alt]. rewrite Hp, (IH Hs). reflexivity.
Qed.

Lemma media_of_fields_nothing card : forall fs,
  (forall field, In field fs ->
     PyStr.contains CardM.src_open field = false /\
     PyStr.contains CardM.alt_open field = false) ->
  CardM.media_of_fields card fs = ([], fs).
Proof.
  induction fs as [|field fs IH]; intros H; [reflexivity|].
  destruct (H field (or_introl eq_refl)) as [Hsrc Halt].
  cbn [CardM.media_of_fields].
  rewrite (sub_src_nothing card field Hsrc), IH, (sub_alt_nothing field Halt);
    [reflexivity|].
  intros f Hf. apply H. now right.
Qed.

(** X6: [determine_media_references] rewrites fields only: the card keeps
    its number of fields, its source path, its index, its model and
    therefore its identity.  A card none of whose fields holds [src_open]
    or [alt_open] yields no reference and is left as it is. *)
Theorem media_rewriting_keeps_the_card :
  forall card,
    let card' := snd (CardM.determine_media_references card) in
    (List.length (fields card') = List.length (fields card) /\
     filename card' = filename card /\
     file_index card' = file_index card /\
     model card' = model card /\
     CardM.guid card' = CardM.guid card) /\
    ((forall field, In field (fields card) ->
        PyStr.contains CardM.src_open field = false /\
        PyStr.contains CardM.alt_open field = false) ->
     CardM.determine_media_references card = ([], card)).
Proof.
  intros card card'. subst card'. unfold CardM.determine_media_references.
  split.
  - pose proof (media_of_fields_length card (fields card)) as Hlen.
    destruct (CardM.media_of_fields card (fields card)) as [refs fs].
    cbn [snd] in *. repeat split. exact Hlen.
  - intros H. rewrite (media_of_fields_nothing card (fields card) H).
    now destruct card.
Qed.

Lemma media_rewriting_keeps_the_card_witness :
  let card := Sample.card "deck1/card.md" 0 ["<p>front</p>"; "<p>back</p>"] in
  (forall field, In field (fields card) ->
     PyStr.contains CardM.src_open field = false /\
     PyStr.contains CardM.alt_open field = false) /\
  CardM.determine_media_references card = ([], card).
Proof.
  intros card.
  assert (H : forall field, In field (fields card) ->
                PyStr.contains CardM.src_open field = false /\
                PyStr.contains CardM.alt_open field = false).
  { intros field [<-|[<-|[]]]; split; reflexivity. }
  split; [exact H|].
  destruct (media_rewriting_keeps_the_card card) as [_ Hsame].
  exact (Hsame H).
Defined.

(* ================================================================== *)
(** * Further properties: the card parser *)
(* ================================================================== *)

Lemma of_nat_inj n m : PyStr.of_nat n = PyStr.of_nat m -> n = m.
Proof.
  unfold PyStr.of_nat. intros H.
  apply DecimalNat.Unsigned.to_uint_inj.
  assert (Hs : Some (Nat.to_uint n) = Some (Nat.to_uint m))
    by (rewrite <- !NilEmpty.usu; now rewrite H).
  now inversion Hs.
Qed.

Lemma append_inj_l (a x y : string) : a ++ x = a ++ y -> x = y.
Proof.
  induction a as [|c a IH]; intros H; [exact H|].
  simpl in H. inversion H. now apply IH.
Qed.

Lemma NoDup_map_injective {A B : Type} (g : A -> B) (l : list A) :
  (forall x y, g x = g y -> x = y) -> NoDup l -> NoDup (map g l).
Proof.
  intros Hinj. induction 1 as [|x l Hx Hnd IH]; simpl; constructor;
    [|exact IH].
  intros Hin. apply in_map_iff in Hin. destruct Hin as (y & Hy & Hin).
  apply Hinj in Hy. now subst.
Qed.

(** X7: the cards that [produce_cards] yields for a file with [n] card
    separators are at most [n + 1], and [n] at least when no exception ends
    the generator; they carry the path of the file and the numbers
    [0, 1, 2, ...] in the order of the file, and their keys are pairwise
    distinct. *)
Theorem produce_cards_numbers_cards :
  forall html highlight_markdown urlparse_path CONFIG W path f,
    let run :=
      produce_cards html highlight_markdown urlparse_path CONFIG W path f in
    let n := ParserSpec.count_card_separators f in
    (List.length (fst run) <= n + 1)%nat /\
    (snd run = None -> (n <= List.length (fst run))%nat) /\
    map file_index (fst run) = seq 0 (List.length (fst run)) /\
    (forall card, In card (fst run) -> filename card = path) /\
    NoDup (map CardM.card_id (fst run)).
Proof.
  intros html hm up CONFIG W path f run n.
  assert (Hnth : forall j card, nth_error (fst run) j = Some card ->
                   exists fs, card = ParserSpec.mk_card CONFIG path j fs)
    by (intros j card; apply produce_cards_nth).
  assert (Hidx : map file_index (fst run) = seq 0 (List.length (fst run))).
  { apply map_index_seq. intros j card Hj.
    destruct (Hnth j card Hj) as [fs ->]. reflexivity. }
  assert (Hpath : forall card, In card (fst run) -> filename card = path).
  { intros card Hin. apply In_nth_error in Hin. destruct Hin as [j Hj].
    destruct (Hnth j card Hj) as [fs ->]. reflexivity. }
  split; [|split; [|split; [exact Hidx | split; [exact Hpath|]]]].
  - subst run. unfold produce_cards.
    destruct (produce_run html hm up CONFIG W path f) as [ys r] eqn:Hrun.
    destruct (produce_run_length _ _ _ _ _ _ _ _ _ Hrun) as [Hle _].
    fold n in Hle.
    destruct r as [last|e]; cbn [fst]; [|lia].
    rewrite length_app. destruct (CardM.has_data last); simpl; lia.
  - subst run. unfold produce_cards.
    destruct (produce_run html hm up CONFIG W path f) as [ys r] eqn:Hrun.
    destruct (produce_run_length _ _ _ _ _ _ _ _ _ Hrun) as [_ Heq].
    fold n in Heq.
    destruct r as [last|e]; cbn [fst snd]; [|discriminate].
    intros _. rewrite length_app, (Heq last eq_refl). lia.
  - assert (Hkeys : map CardM.card_id (fst run)
                    = map (fun j => PosixPath.basename (PosixPath.dirname path)
                                    ++ "/" ++ PosixPath.basename path
                                    ++ PyStr.of_nat j)
                          (map file_index (fst run))).
    { rewrite map_map. apply map_ext_in. intros card Hin.
      unfold CardM.card_id, CardM.deckname, CardM.deckdir, CardM.basename.
      now rewrite (Hpath card Hin). }
    rewrite Hkeys, Hidx. apply NoDup_map_injective; [|apply seq_NoDup].
    intros x y Heq. apply append_inj_l in Heq.
    apply (append_inj_l "/") in Heq. apply append_inj_l in Heq.
    now apply of_nat_inj.
Qed.

(** The raw cards of a document that ends with a card separator end with
    a card without field. *)
Lemma raw_loop_trailing_separator : forall f cur sep c cs,
  PyStr.strip sep = card_separator ->
  ParserSpec.raw_loop cur (f ++ [sep]) = (c, cs) ->
  nth_error (c :: cs) (List.length cs) = Some [].
Proof.
  induction f as [|line f IH]; intros cur sep c cs Hsep H.
  - cbn [app ParserSpec.raw_loop] in H. rewrite Hsep in H.
    rewrite String.eqb_refl in H. inversion H; subst. reflexivity.
  - cbn [app ParserSpec.raw_loop] in H.
    destruct (PyStr.strip line =? card_separator).
    + destruct (ParserSpec.raw_loop [] (f ++ [sep])) as [c' cs'] eqn:Hrec.
      inversion H; subst. apply (IH _ _ _ _ Hsep Hrec).
    + destruct (PyStr.strip line =? field_separator).
      * destruct (ParserSpec.raw_loop [] (f ++ [sep])) as [c' cs'] eqn:Hrec.
        inversion H; subst. pose proof (IH _ _ _ _ Hsep Hrec) as Hlast.
        pose proof (raw_loop_count (f ++ [sep]) []) as Hcount.
        rewrite Hrec in Hcount. cbn [snd] in Hcount.
        destruct cs as [|c0 cs0]; [|exact Hlast].
        exfalso. unfold ParserSpec.count_card_separators in Hcount.
        rewrite filter_app in Hcount. cbn [filter] in Hcount.
        rewrite Hsep, String.eqb_refl, length_app in Hcount.
        simpl in Hcount. lia.
      * apply (IH _ _ _ _ Hsep H).
Qed.

(** X8: a document whose last line is a card separator yields exactly one
    card for each card separator, when [produce_cards] ends without
    exception: nothing is yielded for the empty end of the file. *)
Theorem trailing_separator_yields_no_extra_card :
  forall html highlight_markdown urlparse_path CONFIG W path f sep cards,
    PyStr.strip sep = card_separator ->
    produce_cards html highlight_markdown urlparse_path CONFIG W path
      (f ++ [sep])%list = (cards, None) ->
    List.length cards = ParserSpec.count_card_separators (f ++ [sep])%list /\
    List.length cards = S (ParserSpec.count_card_separators f) /\
    forall card, In card cards -> fields card <> [].
Proof.
  intros html hm up CONFIG W path f sep cards Hsep H.
  assert (Hcount : ParserSpec.count_card_separators (f ++ [sep])%list
                   = S (ParserSpec.count_card_separators f)).
  { unfold ParserSpec.count_card_separators.
    rewrite filter_app, length_app. cbn [filter].
    rewrite Hsep, String.eqb_refl. simpl. lia. }
  unfold produce_cards in H.
  destruct (produce_run html hm up CONFIG W path (f ++ [sep])%list)
    as [ys r] eqn:Hrun.
  destruct r as [last|e]; [|discriminate].
  destruct (produce_run_length _ _ _ _ _ _ _ _ _ Hrun) as [_ Hlen].
  specialize (Hlen last eq_refl).
  assert (Hlast : fields last = []).
  { rewrite produce_run_spec in Hrun.
    destruct (ParserSpec.raw_loop [] (f ++ [sep])%list) as [c cs] eqn:Hraw.
    pose proof (raw_loop_trailing_separator _ _ _ _ _ Hsep Hraw) as Hnil.
    pose proof (run_cards_length _ _ _ _ _ _ _ _ Hrun) as [_ Hl].
    specialize (Hl last eq_refl).
    assert (Hnth : nth_error (ParserSpec.cards_of (ys, Ok last))
                     (List.length cs) = Some last).
    { cbn [ParserSpec.cards_of]. rewrite <- Hl.
      rewrite nth_error_app2 by lia. now rewrite Nat.sub_diag. }
    destruct (run_cards_nth _ _ _ _ _ _ _ _ _ _ Hrun Hnth) as (fs & H1 & ->).
    change (ParserSpec.compile_fields
              (compile_field html hm up CONFIG W) [] c
            :: map (ParserSpec.compile_fields
                      (compile_field html hm up CONFIG W) []) cs)
      with (map (ParserSpec.compile_fields
                   (compile_field html hm up CONFIG W) []) (c :: cs)) in H1.
    rewrite nth_error_map, Hnil in H1. cbn in H1. now inversion H1. }
  assert (Hdata : CardM.has_data last = false)
    by (unfold CardM.has_data; now rewrite Hlast).
  rewrite Hdata, app_nil_r in H. inversion H; subst cards.
  rewrite <- Hcount. split; [exact Hlen|]. split; [exact Hlen|].
  intros card Hin. apply In_nth_error in Hin. destruct Hin as [j Hj].
  now destruct (yielded_at_separator _ _ _ _ _ _ _ _ _ _ _ Hrun Hj).
Qed.

Lemma produce_cards_numbers_cards_witness :
  let f := ["a" ++ nl; "---" ++ nl; "b" ++ nl; "%" ++ nl; "c" ++ nl] in
  let run := Sample.produce_cards Sample.world "deck1/basic.md" f in
  snd run = None /\
  List.length (fst run) = 2%nat /\
  map file_index (fst run) = seq 0 (List.length (fst run)) /\
  NoDup (map CardM.card_id (fst run)).
Proof.
  intros f run.
  destruct (produce_cards_numbers_cards
              Sample.html Sample.highlight_markdown Sample.urlparse_path
              Sample.config Sample.world "deck1/basic.md" f)
    as (_ & _ & Hidx & _ & Hkeys).
  split; [vm_compute; reflexivity|].
  split; [vm_compute; reflexivity|].
  split; [exact Hidx | exact Hkeys].
Defined.

Lemma trailing_separator_yields_no_extra_card_witness :
  let f := ["a" ++ nl; "---" ++ nl; "b" ++ nl] in
  let sep := "---" ++ nl in
  let cards :=
    [ Sample.card "deck1/basic.md" 0 ["a" ++ nl];
      Sample.card "deck1/basic.md" 1 ["b" ++ nl] ] in
  List.length cards = S (ParserSpec.count_card_separators f).
Proof.
  intros f sep cards.
  apply (trailing_separator_yields_no_extra_card
           Sample.html Sample.highlight_markdown Sample.urlparse_path
           Sample.config Sample.world "deck1/basic.md" f sep cards);
    vm_compute; reflexivity.
Defined.

(* ================================================================== *)
(** * Further properties: the field compiler *)
(* ================================================================== *)

Lemma matches_without sub : forall s skip,
  (forall t, prefix sub t = false -> ImageRe.match_at t = None) ->
  PyStr.contains sub s = false -> ImageRe.matches skip s = [].
Proof.
  induction s as [|c s IH]; intros skip Hsub H; [reflexivity|].
  apply contains_cons_false in H. destruct H as [Hp Hc].
  cbn [ImageRe.matches]. destruct skip as [|k]; [|now apply IH].
  rewrite (Hsub _ Hp). now apply IH.
Qed.

Lemma until_bracket_split : forall s alt rest,
  ImageRe.until_bracket s = Some (alt, rest) -> s = alt ++ "]" ++ rest.
Proof.
  induction s as [|c s IH]; intros alt rest H; [discriminate|].
  cbn [ImageRe.until_bracket] in H.
  destruct (Ascii.eqb c "]") eqn:Hc.
  - apply Ascii.eqb_eq in Hc. subst c. now inversion H.
  - destruct (ImageRe.until_bracket s) as [[a r]|]; [|discriminate].
    inversion H; subst. simpl. f_equal. now apply IH.
Qed.

Lemma match_at_opens s :
  prefix "![" s = false -> ImageRe.match_at s = None.
Proof. unfold ImageRe.match_at. now intros ->. Qed.

Lemma match_at_has_url s :
  PyStr.contains "(http" s = false -> ImageRe.match_at s = None.
Proof.
  intros H. unfold ImageRe.match_at.
  destruct (prefix "![" s) eqn:Hp; [|reflexivity].
  destruct (ImageRe.until_bracket (PyStr.drop 2 s)) as [[alt rest]|] eqn:Hb;
    [|reflexivity].
  destruct (prefix "(http" rest) eqn:Hr; [|reflexivity].
  exfalso. apply prefix_split in Hp. apply until_bracket_split in Hb.
  apply prefix_split in Hr.
  change (String.length "![") with 2%nat in Hp.
  assert (E : s = ("![" ++ alt ++ "]") ++ "(http"
                  ++ PyStr.drop (String.length "(http") rest).
  { rewrite Hp at 1. rewrite Hb. rewrite Hr at 1.
    now rewrite !append_assoc. }
  rewrite E, contains_append in H. discriminate.
Qed.

Lemma matches_without_url : forall s skip,
  PyStr.contains "(http" s = false -> ImageRe.matches skip s = [].
Proof.
  induction s as [|c s IH]; intros skip H; [reflexivity|].
  cbn [ImageRe.matches]. rewrite (match_at_has_url _ H).
  apply contains_cons_false in H. destruct H as [_ Hc].
  destruct skip; now apply IH.
Qed.

Lemma sub_images_nothing urlparse_path W fieldtext : forall s skip,
  ImageRe.matches skip s = [] ->
  sub_images urlparse_path W fieldtext skip s = Ok (PyStr.drop skip s).
Proof.
  induction s as [|c s IH]; intros skip H; [now destruct skip|].
  cbn [ImageRe.matches] in H. cbn [sub_images].
  destruct skip as [|k]; [|now apply IH].
  destruct (ImageRe.match_at (String c s)) as [[[g1 g2] len]|];
    [discriminate|].
  rewrite (IH 0%nat H). now destruct s.
Qed.

(** X9: a markdown field without an exclamation mark followed by an
    opening bracket, or without an opening parenthesis followed by [http],
    is compiled to the rendering of its text whatever the environment is:
    nothing is downloaded, nothing is written and no exception is
    raised. *)
Theorem field_without_image_needs_no_download :
  forall html highlight_markdown urlparse_path CONFIG field_lines,
    let fieldtext := PyStr.join EmptyString field_lines in
    PyStr.contains "![" fieldtext = false \/
    PyStr.contains "(http" fieldtext = false ->
    forall W,
      compile_field html highlight_markdown urlparse_path CONFIG W
        field_lines true
      = Ok (field_to_html html highlight_markdown CONFIG fieldtext).
Proof.
  intros html hm up CONFIG field_lines fieldtext H W.
  assert (Hnone : ImageRe.matches 0 fieldtext = []).
  { destruct H as [H|H].
    - apply (matches_without "![" _ _ match_at_opens H).
    - now apply matches_without_url. }
  unfold compile_field. fold fieldtext.
  now rewrite (sub_images_nothing up W fieldtext fieldtext 0 Hnone).
Qed.

Lemma field_without_image_needs_no_download_witness :
  Sample.compile_field Sample.config Sample.world_404
    ["see [a](http://example.com/a.png) and ! [b]" ++ nl] true
  = Ok ("see [a](http://example.com/a.png) and ! [b]" ++ nl).
Proof.
  apply (field_without_image_needs_no_download
           Sample.html Sample.highlight_markdown Sample.urlparse_path
           Sample.config
           ["see [a](http://example.com/a.png) and ! [b]" ++ nl]).
  left. vm_compute. reflexivity.
Defined.

Lemma replace_go_here old new c r :
  PyStr.replace_go old new 0 (String c r)
  = if prefix old (String c r)
    then new ++ PyStr.replace_go old new (String.length old - 1) r
    else String c (PyStr.replace_go old new 0 r).
Proof. reflexivity. Qed.

Lemma replace_go_skip old new k c r :
  PyStr.replace_go old new (S k) (String c r) = PyStr.replace_go old new k r.
Proof. reflexivity. Qed.

Lemma replace_doubles_before (b : ascii) : forall s,
  PyStr.replace (String "\" (String b EmptyString))
    (String "\" (String "\" (String b EmptyString))) s
  = double_before (Ascii.eqb b) s /\
  forall c,
    PyStr.replace (String "\" (String b EmptyString))
      (String "\" (String "\" (String b EmptyString))) (String c s)
    = double_before (Ascii.eqb b) (String c s).
Proof.
  unfold PyStr.replace.
  induction s as [|d t [IHt IHc]].
  - split; [reflexivity|]. intros c. rewrite replace_go_here.
    rewrite prefix_cons. cbn [prefix double_before PyStr.replace_go].
    rewrite andb_false_r. now destruct (Ascii.eqb c "\").
  - split; [apply IHc|]. intros c. rewrite replace_go_here.
    rewrite !prefix_cons, prefix_empty, andb_true_r.
    cbn [double_before]. rewrite (Ascii.eqb_sym "\" c).
    destruct (Ascii.eqb c "\") eqn:Hc; cbn [andb].
    + destruct (Ascii.eqb b d) eqn:Hb.
      * apply Ascii.eqb_eq in Hb. subst d. cbn [String.length Nat.sub].
        rewrite replace_go_skip. cbn [append]. now rewrite IHt.
      * now rewrite (IHc d).
    + now rewrite (IHc d).
Qed.

Lemma double_before_head B c t :
  exists r, double_before B (String c t) = String c r.
Proof.
  cbn [double_before]. destruct (Ascii.eqb c "\") eqn:Hc; [|eauto].
  apply Ascii.eqb_eq in Hc. subst c.
  destruct t as [|b r]; [eauto|]. destruct (B b); eauto.
Qed.

Lemma double_before_backslash B d t :
  double_before B (String "\" (String d t))
  = if B d then String "\" (String "\" (String d (double_before B t)))
    else String "\" (double_before B (String d t)).
Proof. reflexivity. Qed.

Lemma double_before_other B c t :
  Ascii.eqb c "\" = false ->
  double_before B (String c t) = String c (double_before B t).
Proof. intros H. cbn [double_before]. now rewrite H. Qed.

(** Doubling before the characters of [B] and then before [b] is doubling
    before both, when [b] is not in [B] and the backslash is neither. *)
Lemma double_before_twice (B : ascii -> bool) (b : ascii) :
  B "\"%char = false -> B b = false -> Ascii.eqb b "\" = false ->
  forall s,
    (double_before (Ascii.eqb b) (double_before B s)
     = double_before (fun x => B x || Ascii.eqb b x) s) /\
    (forall c,
       double_before (Ascii.eqb b) (double_before B (String c s))
       = double_before (fun x => B x || Ascii.eqb b x) (String c s)).
Proof.
  intros HBs HBb Hb.
  induction s as [|d t [IHt IHc]].
  - split; [reflexivity|]. intros c. cbn [double_before].
    destruct (Ascii.eqb c "\") eqn:Hc; cbn [double_before]; now rewrite Hc.
  - split; [apply IHc|]. intros c.
    destruct (Ascii.eqb c "\") eqn:Hc.
    + apply Ascii.eqb_eq in Hc. subst c.
      rewrite (double_before_backslash B),
        (double_before_backslash (fun _ => _)).
      destruct (B d) eqn:HBd; cbn [orb].
      * assert (Hd : Ascii.eqb d "\" = false).
        { destruct (Ascii.eqb d "\") eqn:E; [|reflexivity].
          apply Ascii.eqb_eq in E. congruence. }
        assert (Hbd : Ascii.eqb b d = false).
        { destruct (Ascii.eqb b d) eqn:E; [|reflexivity].
          apply Ascii.eqb_eq in E. congruence. }
        rewrite double_before_backslash, Hb.
        rewrite double_before_backslash, Hbd.
        rewrite (double_before_other _ d) by exact Hd.
        now rewrite IHt.
      * rewrite <- (IHc d).
        destruct (Ascii.eqb b d) eqn:Hbd.
        -- apply Ascii.eqb_eq in Hbd. subst d.
           rewrite (double_before_other B b) by exact Hb.
           rewrite double_before_backslash, Ascii.eqb_refl.
           now rewrite IHt.
        -- destruct (double_before_head B d t) as [r Hr]. rewrite Hr.
           now rewrite double_before_backslash, Hbd.
    + rewrite (double_before_other B c), (double_before_other _ c),
        (double_before_other (fun _ => _) c) by exact Hc.
      now rewrite IHc.
Qed.

Lemma escape_brackets_doubles field :
  escape_brackets field = double_before is_bracket field.
Proof.
  unfold escape_brackets. cbn [fold_left append].
  rewrite (proj1 (replace_doubles_before "(" field)).
  rewrite (proj1 (replace_doubles_before ")" _)).
  rewrite (proj1 (replace_doubles_before "[" _)).
  rewrite (proj1 (replace_doubles_before "]" _)).
  rewrite (proj1 (double_before_twice (Ascii.eqb "(") ")"
                    eq_refl eq_refl eq_refl field)).
  rewrite (proj1 (double_before_twice _ "[" eq_refl eq_refl eq_refl field)).
  rewrite (proj1 (double_before_twice _ "]" eq_refl eq_refl eq_refl field)).
  reflexivity.
Qed.

Lemma double_before_no_backslash B : forall s,
  PyStr.contains "\" s = false -> double_before B s = s.
Proof.
  induction s as [|c s IH]; intros H; [reflexivity|].
  rewrite contains_char in H. apply orb_false_elim in H.
  destruct H as [Hc Hs]. rewrite Ascii.eqb_sym in Hc.
  rewrite double_before_other by exact Hc. now rewrite IH.
Qed.

(** X10: without the dollar mode, the text that [field_to_html] gives to
    the renderer is the field with a second backslash before every
    backslash that stands right before a round or square bracket, and
    nothing else changed: the four replacements of the loop do not act on
    each other's results.  A field without backslash is rendered as it
    is. *)
Theorem native_mode_doubles_backslashes :
  forall html highlight_markdown CONFIG field,
    dollar CONFIG = false ->
    let render := if highlight CONFIG then highlight_markdown else html in
    field_to_html html highlight_markdown CONFIG field
    = render (double_before is_bracket field) /\
    (PyStr.contains "\" field = false ->
     field_to_html html highlight_markdown CONFIG field = render field).
Proof.
  intros html hm CONFIG field Hdollar render.
  assert (E : field_to_html html hm CONFIG field
              = render (double_before is_bracket field)).
  { unfold field_to_html. rewrite Hdollar, escape_brackets_doubles.
    subst render. now destruct (highlight CONFIG). }
  split; [exact E|]. intros H. rewrite E.
  now rewrite double_before_no_backslash.
Qed.

Lemma native_mode_doubles_backslashes_witness :
  dollar Sample.config = false /\
  field_to_html Sample.html Sample.highlight_markdown Sample.config
    "a \(x\) \\[y\] \n \\"
  = "a \\(x\\) \\\[y\\] \n \\".
Proof.
  split; [reflexivity|].
  apply (native_mode_doubles_backslashes
           Sample.html Sample.highlight_markdown Sample.config
           "a \(x\) \\[y\] \n \\" eq_refl).
Defined.

Lemma dollars_escaped_after ab s :
  dollars_escaped s = true -> dollars_escaped_from ab s = true.
Proof.
  unfold dollars_escaped. destruct s as [|c s]; [reflexivity|].
  cbn [dollars_escaped_from]. destruct (Ascii.eqb c "$"); [discriminate|].
  trivial.
Qed.

Lemma dollars_escaped_append : forall a ab b,
  dollars_escaped_from ab a = true -> dollars_escaped b = true ->
  dollars_escaped_from ab (a ++ b) = true.
Proof.
  induction a as [|c a IH]; intros ab b Ha Hb.
  - now apply dollars_escaped_after.
  - cbn [append dollars_escaped_from] in *.
    apply andb_true_iff in Ha. destruct Ha as [H1 H2].
    rewrite H1. now apply IH.
Qed.

(** No piece of the split at the single dollar holds an unescaped dollar
    sign. *)
Lemma split1_pieces_escaped : forall s ab h t,
  Dollar.re_split_go "$" ab 0 s = (h, t) ->
  dollars_escaped_from ab h = true /\
  forall y, In y t -> dollars_escaped y = true.
Proof.
  induction s as [|c s IH]; intros ab h t H.
  - inversion H; subst. split; [reflexivity | intros y []].
  - cbn [Dollar.re_split_go] in H. rewrite prefix_cons, prefix_empty in H.
    rewrite andb_true_r in H. cbn [String.length Nat.sub] in H.
    destruct (Dollar.re_split_go "$" (Ascii.eqb c "\") 0 s) as [h' t'] eqn:Hr.
    destruct (IH _ _ _ Hr) as [Hh Ht].
    destruct (negb ab && Ascii.eqb "$" c) eqn:Hm.
    + inversion H; subst. split; [reflexivity|].
      apply andb_true_iff in Hm. destruct Hm as [_ Hc].
      apply Ascii.eqb_eq in Hc. subst c.
      intros y [<-|Hy]; [exact Hh | now apply Ht].
    + inversion H; subst. split; [|exact Ht].
      cbn [dollars_escaped_from]. rewrite Hh, andb_true_r.
      rewrite (Ascii.eqb_sym c "$").
      destruct (Ascii.eqb "$" c); [|reflexivity].
      rewrite andb_true_r in Hm. now destruct ab.
Qed.

Lemma wrapped_pieces_escaped op cl : forall l odd,
  dollars_escaped op = true -> dollars_escaped cl = true ->
  (forall y, In y l -> dollars_escaped y = true) ->
  dollars_escaped (PyStr.join EmptyString (Dollar.wrap_odd op cl odd l))
  = true.
Proof.
  intros l odd Hop Hcl. revert odd.
  induction l as [|x l IH]; intros odd Hl; [reflexivity|].
  cbn [Dollar.wrap_odd]. rewrite join_empty_cons.
  assert (Hx : dollars_escaped x = true) by (apply Hl; now left).
  assert (Hrest : dollars_escaped
                    (PyStr.join EmptyString
                       (Dollar.wrap_odd op cl (negb odd) l)) = true)
    by (apply IH; intros y Hy; apply Hl; now right).
  apply dollars_escaped_append; [|exact Hrest].
  destruct odd; [|exact Hx].
  apply dollars_escaped_append; [exact Hop|].
  now apply dollars_escaped_append.
Qed.

(** X11: in dollar mode no unescaped dollar sign is left in the text that
    [field_to_html] gives to the renderer, whatever the field is: every
    dollar sign of the rewritten field comes right after a backslash. *)
Theorem dollar_mode_leaves_no_bare_dollar :
  forall html highlight_markdown CONFIG field,
    dollar CONFIG = true ->
    let render := if highlight CONFIG then highlight_markdown else html in
    field_to_html html highlight_markdown CONFIG field
    = render (Dollar.rewrite field) /\
    dollars_escaped (Dollar.rewrite field) = true.
Proof.
  intros html hm CONFIG field Hdollar render. split.
  - unfold field_to_html. rewrite Hdollar. subst render.
    now destruct (highlight CONFIG).
  - unfold Dollar.rewrite. cbn [fold_left Dollar.delimiters].
    unfold Dollar.pass at 1. unfold Dollar.re_split.
    destruct (Dollar.re_split_go "$" false 0
                (Dollar.pass "$$" "\\[" "\\]" field)) as [h t] eqn:Hs.
    destruct (split1_pieces_escaped _ _ _ _ Hs) as [Hh Ht].
    apply wrapped_pieces_escaped; [reflexivity | reflexivity |].
    intros y [<-|Hy]; [exact Hh | now apply Ht].
Qed.

Lemma dollar_mode_leaves_no_bare_dollar_witness :
  dollar Sample.config' = true /\
  field_to_html Sample.html Sample.highlight_markdown Sample.config'
    "a$$$b \$ $c\"
  = Dollar.rewrite "a$$$b \$ $c\" /\
  Dollar.rewrite "a$$$b \$ $c\" = "a\\[\\(b \$ \\)c\\\]" /\
  dollars_escaped (Dollar.rewrite "a$$$b \$ $c\") = true.
Proof.
  split; [reflexivity|].
  destruct (dollar_mode_leaves_no_bare_dollar
              Sample.html Sample.highlight_markdown Sample.config'
              "a$$$b \$ $c\" eq_refl) as [H1 H2].
  split; [exact H1|]. split; [vm_compute; reflexivity | exact H2].
Defined.

(* ================================================================== *)
(** * Further properties: the version tracker *)
(* ================================================================== *)

Lemma vlog_get_set : forall log k v p,
  VLog.get (VLog.set log k v) p
  = if k =? p then Some v else VLog.get log p.
Proof.
  induction log as [|[k' v'] log IH]; intros k v p.
  - reflexivity.
  - cbn [VLog.set]. destruct (k' =? k) eqn:Hk.
    + apply String.eqb_eq in Hk. subst k'. cbn [VLog.get].
      now destruct (k =? p).
    + cbn [VLog.get]. rewrite IH. destruct (k' =? p) eqn:Hp; [|reflexivity].
      apply String.eqb_eq in Hp. subst k'. rewrite String.eqb_sym in Hk.
      now rewrite Hk.
Qed.

Lemma produce_cards_filename html highlight_markdown urlparse_path CONFIG W
    path f card :
  In card (fst (produce_cards html highlight_markdown urlparse_path CONFIG W
                  path f)) ->
  filename card = path.
Proof.
  intros Hin. apply In_nth_error in Hin. destruct Hin as [j Hj].
  apply produce_cards_nth in Hj. destruct Hj as [fs ->]. reflexivity.
Qed.

Section TrackerFacts.

Variable html : string -> string.
Variable highlight_markdown : string -> string.
Variable urlparse_path : string -> string.
Variable CONFIG : Config.
Variable W : World.

Abbreviation run :=
  (cards_from_files html highlight_markdown urlparse_path CONFIG W).
Abbreviation parse p :=
  (produce_cards html highlight_markdown urlparse_path CONFIG W p
     (read_lines W p)).

(** One turn of the loops of [cards_from_dir], for the file at [p]. *)
Lemma cards_from_files_cons log p rest :
  run log (p :: rest)
  = match read_error W p with
    | Some e => (([], Some e), log)
    | None =>
        if negb (match VLog.get log p with
                 | Some h => (h =? content_hash W p)%N
                 | None => false
                 end) || negb (updated_only CONFIG)
        then match parse p with
             | (cards, Some e) =>
                 ((cards, Some (ExnIn "Exception"
                                  ("fail to produce cards for " ++ p) e)),
                  log)
             | (cards, None) =>
                 let '((more, r), log') :=
                   run (VLog.set log p (content_hash W p)) rest in
                 (((cards ++ more)%list, r), log')
             end
        else run log rest
    end.
Proof. reflexivity. Qed.

Lemma cards_from_files_log : forall files log cards r log',
  run log files = ((cards, r), log') ->
  forall p,
    VLog.get log' p = VLog.get log p \/
    (In p files /\ read_error W p = None /\ snd (parse p) = None /\
     VLog.get log' p = Some (content_hash W p)).
Proof.
  induction files as [|p0 rest IH]; intros log cards r log' H p.
  - inversion H; subst. now left.
  - rewrite cards_from_files_cons in H.
    destruct (read_error W p0) as [e0|] eqn:Hread;
      [inversion H; subst; now left|].
    destruct (negb _ || negb _) in H.
    + destruct (parse p0) as [cs [e|]] eqn:Hp.
      * inversion H; subst. now left.
      * destruct (run (VLog.set log p0 (content_hash W p0)) rest)
          as [[more r'] log''] eqn:Hrec.
        inversion H; subst.
        destruct (IH _ _ _ _ Hrec p) as [Hsame|(Hin & Hr & Hok & Hget)].
        -- rewrite vlog_get_set in Hsame.
           destruct (p0 =? p) eqn:E; [|now left].
           apply String.eqb_eq in E. subst p0. right.
           split; [now left|]. split; [exact Hread|].
           split; [now rewrite Hp | exact Hsame].
        -- right. split; [now right | now repeat split].
    + destruct (IH _ _ _ _ H p) as [Hsame|(Hin & Hr & Hok & Hget)];
        [now left|].
      right. split; [now right | now repeat split].
Qed.

Lemma cards_from_files_keeps files log cards r log' p :
  run log files = ((cards, r), log') ->
  VLog.get log p = Some (content_hash W p) ->
  VLog.get log' p = Some (content_hash W p).
Proof.
  intros H Hp.
  destruct (cards_from_files_log _ _ _ _ _ H p) as [->|(_ & _ & _ & Hget)];
    assumption.
Qed.

(** A run that ends without exception has read every file. *)
Lemma cards_from_files_readable : forall files log cards log',
  run log files = ((cards, None), log') ->
  forall p, In p files -> read_error W p = None.
Proof.
  induction files as [|p0 rest IH]; intros log cards log' H p Hin;
    [destruct Hin|].
  rewrite cards_from_files_cons in H.
  destruct (read_error W p0) as [e0|] eqn:Hread; [discriminate|].
  destruct (negb _ || negb _) in H.
  - destruct (parse p0) as [cs [e|]] eqn:Hp; [discriminate|].
    destruct (run (VLog.set log p0 (content_hash W p0)) rest)
      as [[more r'] log''] eqn:Hrec.
    inversion H; subst.
    destruct Hin as [<-|Hin]; [exact Hread | now apply (IH _ _ _ Hrec)].
  - destruct Hin as [<-|Hin]; [exact Hread | now apply (IH _ _ _ H)].
Qed.

Lemma cards_from_files_complete : forall files log cards log',
  run log files = ((cards, None), log') ->
  forall p, In p files -> VLog.get log' p = Some (content_hash W p).
Proof.
  induction files as [|p0 rest IH]; intros log cards log' H p Hin;
    [destruct Hin|].
  rewrite cards_from_files_cons in H.
  destruct (read_error W p0) as [e0|]; [discriminate|].
  destruct (negb _ || negb _) eqn:Hcond in H.
  - destruct (parse p0) as [cs [e|]] eqn:Hp; [discriminate|].
    destruct (run (VLog.set log p0 (content_hash W p0)) rest)
      as [[more r'] log''] eqn:Hrec.
    inversion H; subst.
    destruct Hin as [<-|Hin]; [|now apply (IH _ _ _ Hrec)].
    apply (cards_from_files_keeps _ _ _ _ _ _ Hrec).
    now rewrite vlog_get_set, String.eqb_refl.
  - destruct Hin as [<-|Hin]; [|now apply (IH _ _ _ H)].
    apply (cards_from_files_keeps _ _ _ _ _ _ H).
    apply orb_false_elim in Hcond. destruct Hcond as [Hh _].
    apply negb_false_iff in Hh.
    destruct (VLog.get log p0) as [h|]; [|discriminate].
    apply N.eqb_eq in Hh. now subst h.
Qed.

(** The exception that ends a run is what reading a file raised, or names
    a file whose parsing raised; the files before it were read, and the
    log entry of the file is as it was. *)
Lemma cards_from_files_failure : forall files log cards e log',
  run log files = ((cards, Some e), log') ->
  exists before p after,
    files = (before ++ p :: after)%list /\
    (forall q, In q before -> read_error W q = None) /\
    VLog.get log' p = VLog.get log p /\
    (read_error W p = Some e \/
     (read_error W p = None /\
      exists e0,
        snd (parse p) = Some e0 /\
        e = ExnIn "Exception" ("fail to produce cards for " ++ p) e0)).
Proof.
  induction files as [|p0 rest IH]; intros log cards e log' H;
    [discriminate|].
  rewrite cards_from_files_cons in H.
  destruct (read_error W p0) as [e0|] eqn:Hread.
  { inversion H; subst. exists [], p0, rest.
    split; [reflexivity|]. split; [intros q []|].
    split; [reflexivity | now left]. }
  assert (Hlater : forall log0 cards0,
            run log0 rest = ((cards0, Some e), log') ->
            (forall q, q <> p0 -> VLog.get log0 q = VLog.get log q) ->
            (forall q, read_error W q = None -> snd (parse q) <> None ->
                       q <> p0) ->
            exists before p after,
              (p0 :: rest = before ++ p :: after)%list /\
              (forall q, In q before -> read_error W q = None) /\
              VLog.get log' p = VLog.get log p /\
              (read_error W p = Some e \/
               (read_error W p = None /\
                exists e1,
                  snd (parse p) = Some e1 /\
                  e = ExnIn "Exception"
                        ("fail to produce cards for " ++ p) e1))).
  { intros log0 cards0 Hrec Hlog Hne.
    destruct (IH _ _ _ _ Hrec)
      as (before & p & after & -> & Hbefore & Hget & Hwhy).
    exists (p0 :: before), p, after. split; [reflexivity|].
    split; [intros q [<-|Hq]; [exact Hread | now apply Hbefore]|].
    split; [|exact Hwhy].
    rewrite Hget. apply Hlog.
    destruct Hwhy as [Hr|(Hr & e1 & Hfail & _)].
    - intros ->. congruence.
    - apply (Hne p Hr). congruence. }
  destruct (negb _ || negb _) in H.
  - destruct (parse p0) as [cs [e0|]] eqn:Hp.
    + inversion H; subst. exists [], p0, rest.
      split; [reflexivity|]. split; [intros q []|].
      split; [reflexivity|]. right. split; [exact Hread|].
      exists e0. split; [now rewrite Hp | reflexivity].
    + destruct (run (VLog.set log p0 (content_hash W p0)) rest)
        as [[more r'] log''] eqn:Hrec.
      inversion H; subst.
      apply (Hlater _ _ Hrec).
      * intros q Hq. rewrite vlog_get_set.
        destruct (p0 =? q) eqn:E; [|reflexivity].
        apply String.eqb_eq in E. congruence.
      * intros q _ Hq ->. rewrite Hp in Hq. now apply Hq.
  - destruct (IH _ _ _ _ H)
      as (before & p & after & -> & Hbefore & Hget & Hwhy).
    exists (p0 :: before), p, after. split; [reflexivity|].
    split; [intros q [<-|Hq]; [exact Hread | now apply Hbefore]|].
    split; [exact Hget | exact Hwhy].
Qed.

Lemma cards_from_files_skips : forall files log,
  updated_only CONFIG = true ->
  (forall p, In p files -> read_error W p = None) ->
  (forall p, In p files -> VLog.get log p = Some (content_hash W p)) ->
  run log files = (([], None), log).
Proof.
  induction files as [|p0 rest IH]; intros log Hmode Hread Hlog;
    [reflexivity|].
  rewrite cards_from_files_cons, (Hread p0), (Hlog p0) by now left.
  rewrite N.eqb_refl, Hmode. cbn [negb orb].
  apply IH; [exact Hmode | |]; intros p Hp; [apply Hread | apply Hlog];
    now right.
Qed.

Lemma cards_from_files_filenames : forall files log cards r log',
  run log files = ((cards, r), log') ->
  forall card, In card cards -> In (filename card) files.
Proof.
  induction files as [|p0 rest IH]; intros log cards r log' H card Hin.
  - inversion H; subst. destruct Hin.
  - rewrite cards_from_files_cons in H.
    destruct (read_error W p0) as [e0|];
      [inversion H; subst; destruct Hin|].
    destruct (negb _ || negb _) in H.
    + destruct (parse p0) as [cs [e|]] eqn:Hp.
      * inversion H; subst. left. symmetry.
        apply (produce_cards_filename html highlight_markdown urlparse_path
                 CONFIG W p0 (read_lines W p0)).
        now rewrite Hp.
      * destruct (run (VLog.set log p0 (content_hash W p0)) rest)
          as [[more r'] log''] eqn:Hrec.
        inversion H; subst. apply in_app_or in Hin.
        destruct Hin as [Hin|Hin]; [|right; now apply (IH _ _ _ _ Hrec)].
        left. symmetry.
        apply (produce_cards_filename html highlight_markdown urlparse_path
                 CONFIG W p0 (read_lines W p0)).
        now rewrite Hp.
    + right. now apply (IH _ _ _ _ H).
Qed.

Lemma cards_from_files_all : forall files log cards log',
  updated_only CONFIG = false ->
  run log files = ((cards, None), log') ->
  cards = flat_map (fun p => fst (parse p)) files.
Proof.
  induction files as [|p0 rest IH]; intros log cards log' Hmode H.
  - now inversion H.
  - rewrite cards_from_files_cons, Hmode, orb_true_r in H.
    destruct (read_error W p0) as [e0|]; [discriminate|].
    destruct (parse p0) as [cs [e|]] eqn:Hp; [discriminate|].
    destruct (run (VLog.set log p0 (content_hash W p0)) rest)
      as [[more r'] log''] eqn:Hrec.
    inversion H; subst. cbn [flat_map]. rewrite Hp. cbn [fst].
    f_equal. now apply (IH _ _ _ Hmode Hrec).
Qed.

End TrackerFacts.

Lemma markdown_files_spec tree p :
  In p (markdown_files tree) <->
  exists parent_dir files fn,
    In (parent_dir, files) tree /\ In fn files /\
    PyStr.endswith ".md" fn || PyStr.endswith ".markdown" fn = true /\
    p = PosixPath.join parent_dir fn.
Proof.
  unfold markdown_files. rewrite in_flat_map. split.
  - intros ([parent_dir files] & Hin & Hp).
    apply in_map_iff in Hp. destruct Hp as (fn & <- & Hfn).
    apply filter_In in Hfn. destruct Hfn as [Hfn Hext].
    now exists parent_dir, files, fn.
  - intros (parent_dir & files & fn & Hin & Hfn & Hext & ->).
    exists (parent_dir, files). split; [exact Hin|].
    apply in_map, filter_In. now split.
Qed.

(** X12: [cards_from_dir] changes the version log only by recording the
    hash of the content of markdown files that were read and whose cards
    were all produced without exception.  When it ends without exception,
    every markdown file of the tree was read and the log holds its current
    hash.  When it raises, the exception is what reading a markdown file
    raised, as it is, or it names a markdown file that was read and whose
    parsing raised, with the parser's exception as context; in both cases
    the log entry of that file is as it was. *)
Theorem version_log_records_parsed_files :
  forall html highlight_markdown urlparse_path CONFIG W log dirname
         cards r log',
    cards_from_dir html highlight_markdown urlparse_path CONFIG W log dirname
    = ((cards, r), log') ->
    let files := markdown_files (walk W dirname) in
    let parse p :=
      produce_cards html highlight_markdown urlparse_path CONFIG W p
        (read_lines W p) in
    (forall p,
       VLog.get log' p = VLog.get log p \/
       (In p files /\ read_error W p = None /\ snd (parse p) = None /\
        VLog.get log' p = Some (content_hash W p))) /\
    (r = None ->
     forall p, In p files ->
       read_error W p = None /\
       VLog.get log' p = Some (content_hash W p)) /\
    (forall e, r = Some e ->
       exists p,
         In p files /\
         VLog.get log' p = VLog.get log p /\
         (read_error W p = Some e \/
          (read_error W p = None /\
           exists e0,
             snd (parse p) = Some e0 /\
             e = ExnIn "Exception" ("fail to produce cards for " ++ p) e0))).
Proof.
  intros html hm up CONFIG W log dirname cards r log' H files parse.
  unfold cards_from_dir in H. fold files in H.
  split; [|split].
  - intros p. apply (cards_from_files_log _ _ _ _ _ _ _ _ _ _ H).
  - intros -> p Hp. split.
    + apply (cards_from_files_readable _ _ _ _ _ _ _ _ _ H p Hp).
    + apply (cards_from_files_complete _ _ _ _ _ _ _ _ _ H p Hp).
  - intros e ->.
    destruct (cards_from_files_failure _ _ _ _ _ _ _ _ _ _ H)
      as (before & p & after & Hfiles & _ & Hget & Hwhy).
    exists p. split; [|now split].
    rewrite Hfiles. apply in_or_app. right. now left.
Qed.

Lemma version_log_records_parsed_files_witness :
  let run :=
    cards_from_dir Sample.html Sample.highlight_markdown Sample.urlparse_path
      Sample.config Sample.world [] "cards" in
  let unreadable :=
    {| requests_get := requests_get Sample.world;
       write_file := write_file Sample.world;
       abspath_dot := abspath_dot Sample.world;
       copyfile := copyfile Sample.world;
       walk := walk Sample.world;
       read_error := fun path => Some (Exn "PermissionError" path);
       read_lines := fun _ => [] |} in
  snd (fst run) = None /\
  VLog.get (snd run) "cards/deck1/card.md"
  = Some (content_hash Sample.world "cards/deck1/card.md") /\
  VLog.get (snd run) "cards/deck1/notes.txt" = None /\
  cards_from_dir Sample.html Sample.highlight_markdown Sample.urlparse_path
    Sample.config unreadable [] "cards"
  = (([], Some (Exn "PermissionError" "cards/deck1/card.md")), []).
Proof.
  intros run unreadable.
  assert (Hnone : snd (fst run) = None) by (vm_compute; reflexivity).
  assert (Hrun : run = ((fst (fst run), None), snd run)).
  { rewrite <- Hnone. now destruct run as [[cards r] log']. }
  destruct (version_log_records_parsed_files
              Sample.html Sample.highlight_markdown Sample.urlparse_path
              Sample.config Sample.world [] "cards"
              (fst (fst run)) None (snd run) Hrun)
    as (Hlog & Hall & _).
  split; [exact Hnone|]. split; [|split].
  - apply (Hall eq_refl). vm_compute. now left.
  - destruct (Hlog "cards/deck1/notes.txt") as [H|(Hin & _)]; [exact H|].
    exfalso. vm_compute in Hin. destruct Hin as [Hin|[]]. discriminate.
  - vm_compute. reflexivity.
Defined.

(** X13: once [cards_from_dir] has ended without exception, a second run
    over the same files with the version log of the first and the
    updated-only mode yields no card and leaves the log as it is, whatever
    the other settings are; the package built from it has no deck and no
    media file. *)
Theorem unchanged_files_are_skipped :
  forall html highlight_markdown urlparse_path CONFIG
         html' highlight_markdown' urlparse_path' CONFIG'
         W log dirname cards log',
    cards_from_dir html highlight_markdown urlparse_path CONFIG W log dirname
    = ((cards, None), log') ->
    updated_only CONFIG' = true ->
    cards_from_dir html' highlight_markdown' urlparse_path' CONFIG' W log'
      dirname
    = (([], None), log') /\
    build html' highlight_markdown' urlparse_path' CONFIG' W log' dirname
    = Ok ({| package_decks := []; media_files := [] |}, log').
Proof.
  intros html hm up CONFIG html' hm' up' CONFIG' W log dirname cards log'
    H Hmode.
  assert (E : cards_from_dir html' hm' up' CONFIG' W log' dirname
              = (([], None), log')).
  { unfold cards_from_dir in *.
    apply cards_from_files_skips; [exact Hmode | |].
    - apply (cards_from_files_readable _ _ _ _ _ _ _ _ _ H).
    - apply (cards_from_files_complete _ _ _ _ _ _ _ _ _ H). }
  split; [exact E|]. unfold build. now rewrite E.
Qed.

Lemma unchanged_files_are_skipped_witness :
  let first :=
    cards_from_dir Sample.html Sample.highlight_markdown Sample.urlparse_path
      Sample.config Sample.world [] "cards" in
  List.length (fst (fst first)) = 1%nat /\
  cards_from_dir Sample.html Sample.highlight_markdown Sample.urlparse_path
    Sample.config' Sample.world (snd first) "cards"
  = (([], None), snd first).
Proof.
  intros first. split; [vm_compute; reflexivity|].
  assert (Hnone : snd (fst first) = None) by (vm_compute; reflexivity).
  assert (Hrun : first = ((fst (fst first), None), snd first)).
  { rewrite <- Hnone. now destruct first as [[cards r] log']. }
  apply (unchanged_files_are_skipped
           Sample.html Sample.highlight_markdown Sample.urlparse_path
           Sample.config
           Sample.html Sample.highlight_markdown Sample.urlparse_path
           Sample.config' Sample.world [] "cards"
           (fst (fst first)) (snd first) Hrun eq_refl).
Defined.

(** X14: every card that [cards_from_dir] yields comes from a file of the
    walked tree whose name ends with [.md] or [.markdown]: its path is the
    directory of the walk joined with the file name.  Without the
    updated-only mode the version log plays no part: when no exception is
    raised, the cards are those of every markdown file, in the order of the
    walk. *)
Theorem cards_come_from_markdown_files :
  forall html highlight_markdown urlparse_path CONFIG W log dirname
         cards r log',
    cards_from_dir html highlight_markdown urlparse_path CONFIG W log dirname
    = ((cards, r), log') ->
    (forall card, In card cards ->
       exists parent_dir files fn,
         In (parent_dir, files) (walk W dirname) /\ In fn files /\
         PyStr.endswith ".md" fn || PyStr.endswith ".markdown" fn = true /\
         filename card = PosixPath.join parent_dir fn) /\
    (updated_only CONFIG = false -> r = None ->
     cards = flat_map
               (fun p => fst (produce_cards html highlight_markdown
                                urlparse_path CONFIG W p (read_lines W p)))
               (markdown_files (walk W dirname))).
Proof.
  intros html hm up CONFIG W log dirname cards r log' H.
  unfold cards_from_dir in H. split.
  - intros card Hin. apply markdown_files_spec.
    apply (cards_from_files_filenames _ _ _ _ _ _ _ _ _ _ H card Hin).
  - intros Hmode ->.
    apply (cards_from_files_all _ _ _ _ _ _ _ _ _ Hmode H).
Qed.

Lemma cards_come_from_markdown_files_witness :
  let run :=
    cards_from_dir Sample.html Sample.highlight_markdown Sample.urlparse_path
      Sample.config Sample.world [] "cards" in
  map filename (fst (fst run)) = ["cards/deck1/card.md"] /\
  forall card, In card (fst (fst run)) ->
    exists parent_dir files fn,
      In (parent_dir, files) (walk Sample.world "cards") /\ In fn files /\
      PyStr.endswith ".md" fn || PyStr.endswith ".markdown" fn = true /\
      filename card = PosixPath.join parent_dir fn.
Proof.
  intros run. split; [vm_compute; reflexivity|].
  apply (cards_come_from_markdown_files
           Sample.html Sample.highlight_markdown Sample.urlparse_path
           Sample.config Sample.world [] "cards"
           (fst (fst run)) (snd (fst run)) (snd run)).
  subst run.
  now destruct (cards_from_dir _ _ _ _ _ _ _) as [[cards r] log'].
Defined.

(* ================================================================== *)
(** * Further properties: the configuration phase *)
(* ================================================================== *)

Lemma dict_get_set : forall d k v p,
  DictM.get (DictM.set d k v) p
  = if k =? p then Some v else DictM.get d p.
Proof.
  induction d as [|[k' v'] d IH]; intros k v p.
  - reflexivity.
  - cbn [DictM.set]. destruct (k' =? k) eqn:Hk.
    + apply String.eqb_eq in Hk. subst k'. cbn [DictM.get].
      now destruct (k =? p).
    + cbn [DictM.get]. rewrite IH. destruct (k' =? p) eqn:Hp; [|reflexivity].
      apply String.eqb_eq in Hp. subst k'. rewrite String.eqb_sym in Hk.
      now rewrite Hk.
Qed.

Lemma dict_get_update : forall items d k,
  DictM.get (DictM.update d items) k
  = first_given [last_value items k; DictM.get d k].
Proof.
  unfold DictM.update.
  induction items as [|[k' v] items IH]; intros d k.
  - cbn. now destruct (DictM.get d k).
  - cbn [fold_left fst snd last_value]. rewrite IH, dict_get_set.
    cbn [first_given]. destruct (last_value items k); [reflexivity|].
    destruct (k' =? k); [reflexivity|]. now destruct (DictM.get d k).
Qed.

(** X15: when the configuration documents load, [apply_arguments] leaves
    under each key the value of the command line if an option gives one
    ([-p], [-r], and [True] for the flags [--highlight] and
    [--updatedOnly]), else the last value that the [--config] document
    gives, else the last value that the [--configFile] document gives,
    else the value that was there.  A flag that is not given sets
    nothing.  When a document fails to load, the exception is raised and
    no configuration is left. *)
Theorem command_line_overrides_documents :
  forall load_file load_string arguments CONFIG,
    (forall file_items text_items,
       items_of (arg_configFile arguments) load_file = Ok file_items ->
       items_of (arg_config arguments) load_string = Ok text_items ->
       exists CONFIG',
         apply_arguments load_file load_string arguments CONFIG
         = Ok CONFIG' /\
         forall k,
           DictM.get CONFIG' k
           = first_given [ command_line_value arguments k;
                           last_value text_items k;
                           last_value file_items k;
                           DictM.get CONFIG k ]) /\
    (forall e,
       items_of (arg_configFile arguments) load_file = Raise e ->
       apply_arguments load_file load_string arguments CONFIG = Raise e) /\
    (forall file_items e,
       items_of (arg_configFile arguments) load_file = Ok file_items ->
       items_of (arg_config arguments) load_string = Raise e ->
       apply_arguments load_file load_string arguments CONFIG = Raise e).
Proof.
  intros load_file load_string [cf c p r h u] CONFIG.
  unfold apply_arguments, items_of. cbn [arg_configFile arg_config arg_p
    arg_r arg_highlight arg_updatedOnly].
  split; [|split].
  - intros file_items text_items Hfile Htext.
    set (C1 := DictM.update CONFIG file_items).
    set (C2 := DictM.update C1 text_items).
    assert (E1 : match cf with
                 | Some path =>
                     items <- load_file path ;;
                     Ok (DictM.update CONFIG items)
                 | None => Ok CONFIG
                 end = Ok C1).
    { destruct cf as [path|]; [now rewrite Hfile|].
      inversion Hfile; subst. reflexivity. }
    rewrite E1. cbn [bind].
    assert (E2 : match c with
                 | Some text =>
                     items <- load_string text ;; Ok (DictM.update C1 items)
                 | None => Ok C1
                 end = Ok C2).
    { destruct c as [text|]; [now rewrite Htext|].
      inversion Htext; subst. reflexivity. }
    rewrite E2. cbn [bind]. eexists. split; [reflexivity|].
    intros k.
    assert (HC2 : DictM.get C2 k
                  = first_given [ last_value text_items k;
                                  last_value file_items k;
                                  DictM.get CONFIG k ]).
    { subst C2 C1. rewrite !dict_get_update. cbn [first_given].
      destruct (last_value text_items k); [reflexivity|].
      destruct (last_value file_items k); [reflexivity|].
      now destruct (DictM.get CONFIG k). }
    unfold command_line_value.
    cbn [arg_p arg_r arg_highlight arg_updatedOnly].
    cbn [first_given] in HC2 |- *.
    rewrite <- HC2. clearbody C2. clear.
    destruct u, h, r as [r|], p as [p|]; cbn [option_map];
      rewrite ?dict_get_set, !(String.eqb_sym k);
      repeat match goal with
             | |- context [?a =? k] =>
                 destruct (String.eqb_spec a k); [subst k; simpl|]
             end;
      try reflexivity; now destruct (DictM.get C2 _).
  - intros e Hfile. destruct cf as [path|]; [|discriminate].
    now rewrite Hfile.
  - intros file_items e Hfile Htext. destruct c as [text|]; [|discriminate].
    destruct cf as [path|].
    + rewrite Hfile. cbn [bind]. now rewrite Htext.
    + cbn [bind]. now rewrite Htext.
Qed.

Lemma command_line_overrides_documents_witness :
  let load_file (_ : string) :=
    Ok [("dollar", VBool true); ("highlight", VBool false)] in
  let load_string (_ : string) := Ok [("dollar", VBool false)] in
  let arguments :=
    {| arg_configFile := Some "ankdown.yaml";
       arg_config := Some "dollar: false";
       arg_p := None;
       arg_r := Some "cards";
       arg_highlight := true;
       arg_updatedOnly := false |} in
  let CONFIG :=
    [ ("pkg_arg", VStr "AnkdownPkg.apkg"); ("recur_dir", VStr ".");
      ("highlight", VBool false); ("updated_only", VBool false) ] in
  exists CONFIG',
    apply_arguments load_file load_string arguments CONFIG = Ok CONFIG' /\
    DictM.get CONFIG' "highlight" = Some (VBool true) /\
    DictM.get CONFIG' "dollar" = Some (VBool false) /\
    DictM.get CONFIG' "recur_dir" = Some (VStr "cards") /\
    DictM.get CONFIG' "pkg_arg" = Some (VStr "AnkdownPkg.apkg") /\
    DictM.get CONFIG' "updated_only" = Some (VBool false).
Proof.
  intros load_file load_string arguments CONFIG.
  destruct (command_line_overrides_documents
              load_file load_string arguments CONFIG) as [H _].
  destruct (H [("dollar", VBool true); ("highlight", VBool false)]
              [("dollar", VBool false)] eq_refl eq_refl) as (CONFIG' & E & G).
  exists CONFIG'. split; [exact E|].
  rewrite !G. repeat split; reflexivity.
Defined.

Lemma replace_newlines : forall s,
  PyStr.replace nl EmptyString s = without_newlines s.
Proof.
  unfold PyStr.replace, nl. induction s as [|c s IH]; [reflexivity|].
  rewrite replace_go_here, prefix_cons, prefix_empty, andb_true_r.
  cbn [without_newlines String.length Nat.sub append].
  rewrite (Ascii.eqb_sym newline c).
  destruct (Ascii.eqb c newline); now rewrite IH.
Qed.

Lemma without_newlines_flat : forall s,
  PyStr.contains nl (without_newlines s) = false.
Proof.
  unfold nl. induction s as [|c s IH]; [reflexivity|].
  cbn [without_newlines]. destruct (Ascii.eqb c newline) eqn:Hc; [exact IH|].
  rewrite contains_char, IH, Ascii.eqb_sym, Hc. reflexivity.
Qed.

Lemma mk_card_css CONFIG css filename i fs :
  ParserSpec.mk_card (apply_highlight_css css CONFIG) filename i fs
  = with_more_css (without_newlines css)
      (ParserSpec.mk_card CONFIG filename i fs).
Proof.
  unfold ParserSpec.mk_card, CardM.set_fields, CardM.init, with_more_css,
    apply_highlight_css.
  cbn. now rewrite replace_newlines.
Qed.

Lemma run_cards_css compile CONFIG css filename : forall cs i cur,
  ParserSpec.run_cards compile (apply_highlight_css css CONFIG) filename i
    cur cs
  = let '(ys, r) := ParserSpec.run_cards compile CONFIG filename i cur cs in
    (map (with_more_css (without_newlines css)) ys,
     match r with
     | Ok c => Ok (with_more_css (without_newlines css) c)
     | Raise e => Raise e
     end).
Proof.
  induction cs as [|c cs IH]; intros i [fs|e]; cbn [ParserSpec.run_cards];
    try reflexivity.
  - now rewrite mk_card_css.
  - rewrite IH.
    destruct (ParserSpec.run_cards compile CONFIG filename (i + 1)
                (ParserSpec.compile_fields compile [] c) cs) as [ys r].
    cbn [map]. now rewrite mk_card_css.
Qed.

(** X16: [apply_highlight_css] changes the style sheet only.  The cards
    that [produce_cards] yields once the content of [highlight.css] has
    been added are those it yields without it, with the content of the
    file, newlines removed, at the end of the style sheet of their model:
    the same fields, the same exception if any, the same card and model
    IDs and the same deck. *)
Theorem highlight_css_changes_style_only :
  forall html highlight_markdown urlparse_path CONFIG W css path f,
    let restyle := with_more_css (without_newlines css) in
    let before :=
      produce_cards html highlight_markdown urlparse_path CONFIG W path f in
    produce_cards html highlight_markdown urlparse_path
      (apply_highlight_css css CONFIG) W path f
    = (map restyle (fst before), snd before) /\
    PyStr.contains nl (without_newlines css) = false /\
    forall card,
      fields (restyle card) = fields card /\
      CardM.guid (restyle card) = CardM.guid card /\
      CardM.deckname (restyle card) = CardM.deckname card /\
      model_id (model (restyle card)) = model_id (model card).
Proof.
  intros html hm up CONFIG W css path f restyle before.
  split; [|split; [apply without_newlines_flat | now intros card]].
  subst before. unfold produce_cards. rewrite !produce_run_spec.
  destruct (ParserSpec.raw_loop [] f) as [c cs].
  change (compile_field html hm up (apply_highlight_css css CONFIG) W)
    with (compile_field html hm up CONFIG W).
  rewrite run_cards_css. fold restyle.
  destruct (ParserSpec.run_cards (compile_field html hm up CONFIG W) CONFIG
              path 0
              (ParserSpec.compile_fields (compile_field html hm up CONFIG W)
                 [] c) cs) as [ys [last|e]]; cbn [fst snd]; [|reflexivity].
  change (CardM.has_data (restyle last)) with (CardM.has_data last).
  rewrite map_app. now destruct (CardM.has_data last).
Qed.

(* ================================================================== *)
(** * Further properties: failures of the build *)
(* ================================================================== *)

Section BuildFailures.

Variable W : World.

Lemma stage_media_raise : forall refs media e,
  stage_media W media refs = Raise e ->
  exists src dst, In (src, dst) refs /\ copyfile W src dst = Some e.
Proof.
  induction refs as [|[abspath newpath] refs IH]; intros media e H;
    [discriminate|].
  cbn [stage_media] in H.
  destruct (copyfile W abspath newpath) as [e0|] eqn:Hcopy.
  - inversion H; subst. exists abspath, newpath.
    split; [now left | exact Hcopy].
  - destruct (IH _ _ H) as (src & dst & Hin & Hc).
    exists src, dst. split; [now right | exact Hc].
Qed.

Lemma assemble_raise : forall cards st e,
  assemble W st cards = Raise e ->
  exists card src dst,
    In card cards /\ In (src, dst) (media_refs card) /\
    copyfile W src dst = Some e.
Proof.
  induction cards as [|card cards IH]; intros [decks media] e H;
    [discriminate|].
  cbn [assemble] in H.
  destruct (assemble_card W (decks, media) card) as [st'|e0] eqn:Hcard.
  - cbn [bind] in H. destruct (IH _ _ H) as (c & src & dst & Hin & Href & Hc).
    exists c, src, dst. split; [now right | now split].
  - cbn [bind] in H. inversion H; subst e0. clear H.
    unfold assemble_card in Hcard.
    destruct (CardM.determine_media_references (CardM.finalize card))
      as [refs card'] eqn:Hrefs.
    destruct (stage_media W media refs) as [media'|e0] eqn:Hstage;
      [discriminate|].
    cbn [bind] in Hcard. inversion Hcard; subst e0.
    destruct (stage_media_raise _ _ _ Hstage) as (src & dst & Hin & Hc).
    exists card, src, dst. split; [now left|].
    unfold media_refs. rewrite Hrefs. now split.
Qed.

End BuildFailures.

(** X17: [cards_to_apkg] raises only the exception that ended the card
    generator, or the exception that copying a media file referenced by one
    of the cards raised.  When the generator ends without exception and
    every media file referenced by the cards can be copied, the package is
    written. *)
Theorem package_fails_only_on_media_copy :
  forall W cards r,
    (forall e,
       cards_to_apkg W (cards, r) = Raise e ->
       r = Some e \/
       exists card src dst,
         In card cards /\ In (src, dst) (media_refs card) /\
         copyfile W src dst = Some e) /\
    ((forall card src dst,
        In card cards -> In (src, dst) (media_refs card) ->
        copyfile W src dst = None) ->
     r = None ->
     exists decks package, cards_to_apkg W (cards, r) = Ok (decks, package)).
Proof.
  intros W cards r.
  assert (Hraise : forall e,
            cards_to_apkg W (cards, r) = Raise e ->
            r = Some e \/
            exists card src dst,
              In card cards /\ In (src, dst) (media_refs card) /\
              copyfile W src dst = Some e).
  { intros e H. unfold cards_to_apkg in H. cbn [fst snd] in H.
    destruct (assemble W ([], []) cards) as [st|e0] eqn:Ha.
    - cbn [bind] in H. destruct r as [e0|]; [|discriminate].
      left. now inversion H.
    - cbn [bind] in H. inversion H; subst e0. right.
      now apply (assemble_raise W _ _ _ Ha). }
  split; [exact Hraise|]. intros Hcopy ->.
  destruct (cards_to_apkg W (cards, None)) as [[decks package]|e] eqn:H;
    [now exists decks, package|].
  exfalso.
  destruct (Hraise e eq_refl) as [Hr|(card & src & dst & H1 & H2 & H3)];
    [discriminate|].
  rewrite (Hcopy _ _ _ H1 H2) in H3. discriminate.
Qed.

Lemma package_fails_only_on_media_copy_witness :
  let card :=
    Sample.card "deck1/basic.md" 0
      ["<img src=" ++ String dquote ("a.png" ++ String dquote ">")] in
  let W :=
    {| requests_get := requests_get Sample.world;
       write_file := write_file Sample.world;
       abspath_dot := abspath_dot Sample.world;
       copyfile := fun src _ =>
         if src =? "deck1/a.png" then None
         else Some (Exn "FileNotFoundError" src);
       walk := walk Sample.world;
       read_error := read_error Sample.world;
       read_lines := read_lines Sample.world |} in
  media_refs card = [("deck1/a.png", "a.png")] /\
  exists decks package, cards_to_apkg W ([card], None) = Ok (decks, package).
Proof.
  intros card W.
  assert (Hrefs : media_refs card = [("deck1/a.png", "a.png")])
    by (vm_compute; reflexivity).
  split; [exact Hrefs|].
  apply (package_fails_only_on_media_copy W [card] None); [|reflexivity].
  intros c src dst [<-|[]] Hin. rewrite Hrefs in Hin.
  destruct Hin as [Heq|[]]. inversion Heq; subst. reflexivity.
Defined.


